(** * Gauge reader: needle angle to calibrated value

    A shallow embedding of [GaugeReader] from
    [internal/ai_runtime/gauge-pose/gauge_read.py]: [compute_angle],
    [angle_to_value] and the filtering loop of [read_gauge].

    Python's [float] is IEEE 754 binary64; it is modelled by the primitive
    [float], the same format with the same round-to-nearest-even operations,
    so every concrete evaluation below is the number the interpreter prints.
    Exceptions are values of an error monad.  The pose detector, libm's
    [atan2] on ordinary arguments and the builtin [round] are parameters. *)

From Stdlib Require Import ZArith Lia List Bool String.
From Stdlib Require Import Floats.
Import ListNotations.

Set Warnings "-inexact-float".
Local Open Scope float_scope.

(** ** Python runtime: exceptions and float operators *)

Module Py.

Inductive exn : Set :=
| ZeroDivisionError
| ValueError
| OverflowError
| IndexError.

Inductive result (A : Type) : Type :=
| Ok (a : A)
| Raise (e : exn).
Arguments Ok {A} a.
Arguments Raise {A} e.

Definition bind {A B : Type} (c : result A) (k : A -> result B) : result B :=
  match c with
  | Ok a => k a
  | Raise e => Raise e
  end.

(** The call returns a value: no exception escapes it. *)
Definition returns {A : Type} (c : result A) : Prop := exists a, c = Ok a.

(** C's [copysign]. *)
Definition copysign (magnitude sign_of : float) : float :=
  if get_sign sign_of then - (abs magnitude) else abs magnitude.

(** C's [fmod] on two finite numbers [x = (-1)^sx * mx * 2^ex] and
    [y = my * 2^ey] with [|x| >= |y|]: the remainder of the division
    truncated towards zero, with the sign of [x].  It is a binary64 number,
    so nothing is rounded; it is computed on the mantissas aligned to the
    smaller exponent. *)
Definition fmod_finite (sx : bool) (mx : positive) (ex : Z)
                       (my : positive) (ey : Z) : float :=
  let e := Z.min ex ey in
  let r := Z.rem (Zpos mx * 2 ^ (ex - e)) (Zpos my * 2 ^ (ey - e)) in
  SF2Prim (binary_normalize prec emax (cond_Zopp sx r) e sx).

Definition fmod (x y : float) : float :=
  if is_nan x || is_nan y || is_infinity x || is_zero y then nan
  else if is_infinity y then x
  else if abs x <? abs y then x
  else match Prim2SF x, Prim2SF y with
       | S754_finite sx mx ex, S754_finite _ my ey => fmod_finite sx mx ex my ey
       | _, _ => nan
       end.

(** [float.__mod__] (CPython's [float_rem]): a zero divisor raises, and the
    remainder takes the sign of the divisor. *)
Definition float_rem (vx wx : float) : result float :=
  if wx =? 0 then Raise ZeroDivisionError
  else
    let mod_ := fmod vx wx in
    Ok (if negb (mod_ =? 0)
        then if xorb (wx <? 0) (mod_ <? 0) then mod_ + wx else mod_
        else copysign 0 wx).

(** [float.__truediv__] (CPython's [float_div]). *)
Definition float_div (a b : float) : result float :=
  if b =? 0 then Raise ZeroDivisionError else Ok (a / b).

(** The builtins [min(a, b)] and [max(a, b)]: the first argument is kept
    unless the second is strictly smaller (larger). *)
Definition min2 (a b : float) : float := if b <? a then b else a.
Definition max2 (a b : float) : float := if a <? b then b else a.

(** [lst[i]] for a non-negative index. *)
Definition index {A : Type} (l : list A) (i : nat) : result A :=
  match nth_error l i with
  | Some a => Ok a
  | None => Raise IndexError
  end.

End Py.

Import Py.

Declare Scope py_scope.
Delimit Scope py_scope with py.
Notation "x <- c ;; k" := (Py.bind c (fun x => k))
  (at level 61, c at next level, right associativity) : py_scope.
Notation "a % b" := (Py.float_rem a b) (at level 40, left associativity) : py_scope.
Local Open Scope py_scope.

(** ** The [math] module *)

Module math.

(** [math.pi], the binary64 number nearest to pi. *)
Definition pi : float := 0x1.921fb54442d18p+1.

Section WithLibm.

(** libm's [atan2], reached only for finite [y <> 0] and finite [x]. *)
Variable libm_atan2 : float -> float -> float.

(** CPython's [m_atan2]: the special cases are decided before libm is
    called. *)
Definition m_atan2 (y x : float) : float :=
  if is_nan x || is_nan y then nan
  else if is_infinity y then
    if is_infinity x then
      if copysign 1 x =? 1 then copysign (0.25 * pi) y
      else copysign (0.75 * pi) y
    else copysign (0.5 * pi) y
  else if is_infinity x || (y =? 0) then
    if copysign 1 x =? 1 then copysign 0 y
    else copysign pi y
  else libm_atan2 y x.

(** [math.atan2] ([math_2] around [m_atan2]): a NaN from arguments that are
    numbers is a [ValueError], an infinity from finite arguments an
    [OverflowError]. *)
Definition atan2 (y x : float) : result float :=
  let r := m_atan2 y x in
  if is_nan r && negb (is_nan y) && negb (is_nan x) then Raise ValueError
  else if is_infinity r && is_finite y && is_finite x then Raise OverflowError
  else Ok r.

End WithLibm.

(** [math.degrees]: multiplication by the constant [180.0 / pi]. *)
Definition radToDeg : float := 180 / pi.
Definition degrees (x : float) : float := x * radToDeg.

End math.

(** ** Data: calibration, detections, readings *)

(** The attributes [GaugeReader.__init__] stores on [self]; the pose model
    itself stays outside.  The calibration numbers are floats: an integer
    of the configuration stands for the float it converts to. *)
Record GaugeReader : Type := {
  min_value : float;
  max_value : float;
  min_angle : float;
  max_angle : float;
  unit : string;
  confidence : float
}.

(** A keypoint is the tuple [(x, y, conf)]. *)
Definition keypoint : Type := (float * float * float)%type.

(** One entry of the list [detect_gauge] returns. *)
Record detection : Type := {
  bbox : list float;
  keypoints : list keypoint;
  det_conf : float
}.

(** One entry of the list [read_gauge] returns. *)
Record reading : Type := {
  r_value : float;
  r_angle : float;
  r_unit : string;
  r_bbox : list float;
  r_center : float * float;
  r_needle_tip : float * float;
  r_confidence : float;
  r_kp_center_conf : float;
  r_kp_needle_conf : float
}.

(** ** The methods of [GaugeReader] *)

Section Reader.

Variable libm_atan2 : float -> float -> float.
(** The builtin [round(x, ndigits)] on floats. *)
Variable py_round : float -> Z -> float.
(** The input image and the pose detector behind [detect_gauge]. *)
Variable frame : Type.
Variable detect_gauge : GaugeReader -> frame -> list detection.

Definition compute_angle (center needle_tip : float * float) : result float :=
  let dx := fst needle_tip - fst center in
  let dy := - (snd needle_tip - snd center) in
  r <- math.atan2 libm_atan2 dy dx ;;
  Ok (math.degrees r).

(** The local function [normalize] of [angle_to_value]. *)
Definition normalize (a : float) : result float := a % 360.

Definition angle_to_value (self : GaugeReader) (angle : float) : result float :=
  min_a <- normalize (min_angle self) ;;
  max_a <- normalize (max_angle self) ;;
  needle_a <- normalize angle ;;
  cw_sweep <- (min_a - max_a) % 360 ;;
  cw_needle <- (min_a - needle_a) % 360 ;;
  if cw_sweep <? 0.001 then Ok (min_value self)
  else
    fraction <- float_div cw_needle cw_sweep ;;
    let fraction := max2 0 (min2 1 fraction) in
    let value := min_value self + fraction * (max_value self - min_value self) in
    Ok value.

(** The body of the loop [for det in detections]: [None] is [continue],
    [Some r] is [readings.append(r)]. *)
Definition read_detection (self : GaugeReader) (det : detection)
  : result (option reading) :=
  let kps := keypoints det in
  if (List.length kps <? 2)%nat then Ok None
  else
    kp0 <- index kps 0 ;;
    kp1 <- index kps 1 ;;
    let center := (fst (fst kp0), snd (fst kp0)) in
    let needle_tip := (fst (fst kp1), snd (fst kp1)) in
    let kp_center_conf := snd kp0 in
    let kp_needle_conf := snd kp1 in
    if (kp_center_conf <? 0.3) || (kp_needle_conf <? 0.3) then Ok None
    else
      angle <- compute_angle center needle_tip ;;
      value <- angle_to_value self angle ;;
      Ok (Some {| r_value := py_round value 3;
                  r_angle := py_round angle 2;
                  r_unit := unit self;
                  r_bbox := bbox det;
                  r_center := center;
                  r_needle_tip := needle_tip;
                  r_confidence := det_conf det;
                  r_kp_center_conf := kp_center_conf;
                  r_kp_needle_conf := kp_needle_conf |}).

Fixpoint read_detections (self : GaugeReader) (detections : list detection)
                         (readings : list reading) : result (list reading) :=
  match detections with
  | [] => Ok readings
  | det :: rest =>
      step <- read_detection self det ;;
      match step with
      | None => read_detections self rest readings
      | Some r => read_detections self rest (readings ++ [r])
      end
  end.

Definition read_gauge (self : GaugeReader) (frame_ : frame) : result (list reading) :=
  let detections := detect_gauge self frame_ in
  read_detections self detections [].

End Reader.

(** ** Quantities the statements are written with *)

(** The value of [a % 360]: the divisor is the literal [360], so the
    operator does not raise. *)
Definition rem360 (a : float) : float :=
  let mod_ := fmod a 360 in
  if negb (mod_ =? 0) then (if mod_ <? 0 then mod_ + 360 else mod_) else 0.

(** The locals [cw_sweep] and [cw_needle] of [angle_to_value]. *)
Definition cw_sweep_of (self : GaugeReader) : float :=
  rem360 (rem360 (min_angle self) - rem360 (max_angle self)).

Definition cw_needle_of (self : GaugeReader) (angle : float) : float :=
  rem360 (rem360 (min_angle self) - rem360 angle).

(** [max(0.0, min(1.0, fraction))]. *)
Definition clamp01 (fraction : float) : float := max2 0 (min2 1 fraction).

(** [lo <= v <= hi] with Python's comparisons. *)
Definition within (lo hi v : float) : bool := (lo <=? v) && (v <=? hi).

(** [lo < v <= hi]. *)
Definition within_left_open (lo hi v : float) : bool := (lo <? v) && (v <=? hi).

(** The filter of [read_gauge] in the words of the specification: at least
    two keypoints, both confidences at least [0.3]. *)
Definition passes (det : detection) : bool :=
  match keypoints det with
  | kp0 :: kp1 :: _ => (0.3 <=? snd kp0) && (0.3 <=? snd kp1)
  | _ => false
  end.

(** The detector's contract: keypoint confidences are numbers of [[0, 1]]. *)
Definition well_formed (det : detection) : Prop :=
  Forall (fun kp : keypoint => within 0 1 (snd kp) = true) (keypoints det).

(** libm's contract: [atan2] of finite arguments is a finite number. *)
Definition libm_finite (libm_atan2 : float -> float -> float) : Prop :=
  forall y x, is_finite y = true -> is_finite x = true ->
              is_finite (libm_atan2 y x) = true.

(** libm's contract on the vertical axis (C, Annex F): [atan2(y, 0)] is
    [pi/2] for [y > 0] and [-pi/2] for [y < 0]. *)
Definition libm_vertical (libm_atan2 : float -> float -> float) : Prop :=
  forall y x, (x =? 0) = true ->
    ((0 <? y) = true -> libm_atan2 y x = 0.5 * math.pi) /\
    ((y <? 0) = true -> libm_atan2 y x = - (0.5 * math.pi)).

(** libm's contract on the range: [atan2] of finite arguments lies in
    [[-pi, pi]]. *)
Definition libm_range (libm_atan2 : float -> float -> float) : Prop :=
  forall y x, is_finite y = true -> is_finite x = true ->
              within (- math.pi) math.pi (libm_atan2 y x) = true.

(** A libm stand-in that meets these contracts: exact on the vertical axis,
    accurate to the quadrant elsewhere.  It takes the place of the parameter
    when a statement is evaluated on concrete inputs. *)
Definition atan2_quadrant (y x : float) : float :=
  if is_nan y || is_nan x then nan
  else if x =? 0 then
    if 0 <? y then 0.5 * math.pi
    else if y <? 0 then - (0.5 * math.pi) else 0
  else if 0 <? x then (if y <? 0 then - (0.25 * math.pi) else 0.25 * math.pi)
  else (if y <? 0 then - (0.75 * math.pi) else 0.75 * math.pi).

(** A [round] stand-in for the same purpose. *)
Definition round_identity (x : float) (ndigits : Z) : float := x.

(** A reader with the given calibration; unit and detector confidence are
    the defaults of [__init__]. *)
Definition calibration (min_v max_v min_a max_a : float) : GaugeReader :=
  {| min_value := min_v; max_value := max_v;
     min_angle := min_a; max_angle := max_a;
     unit := "kg/cm2"; confidence := 0.5 |}.

(** A detection with the given keypoints. *)
Definition detected (kps : list keypoint) : detection :=
  {| bbox := [10; 10; 200; 200]; keypoints := kps; det_conf := 0.9 |}.

(** *** The values the methods return, as plain functions *)

Section Values.

Variable libm_atan2 : float -> float -> float.
Variable py_round : float -> Z -> float.

(** The number [compute_angle] returns when [math.atan2] does not raise. *)
Definition needle_angle (center needle_tip : float * float) : float :=
  math.degrees
    (math.m_atan2 libm_atan2 (- (snd needle_tip - snd center))
                  (fst needle_tip - fst center)).

(** The number [angle_to_value] returns. *)
Definition gauge_value (self : GaugeReader) (angle : float) : float :=
  if cw_sweep_of self <? 0.001 then min_value self
  else min_value self
       + clamp01 (cw_needle_of self angle / cw_sweep_of self)
         * (max_value self - min_value self).

(** The dictionary [read_gauge] appends for a detection that passes. *)
Definition reading_of (self : GaugeReader) (det : detection) : reading :=
  let kp0 := nth 0 (keypoints det) (0, 0, 0) in
  let kp1 := nth 1 (keypoints det) (0, 0, 0) in
  let center := (fst (fst kp0), snd (fst kp0)) in
  let needle_tip := (fst (fst kp1), snd (fst kp1)) in
  let angle := needle_angle center needle_tip in
  {| r_value := py_round (gauge_value self angle) 3;
     r_angle := py_round angle 2;
     r_unit := unit self;
     r_bbox := bbox det;
     r_center := center;
     r_needle_tip := needle_tip;
     r_confidence := det_conf det;
     r_kp_center_conf := snd kp0;
     r_kp_needle_conf := snd kp1 |}.

End Values.

(** *** Shapes of binary64 numbers *)

(** An infinity or a non-zero finite number of sign [s]. *)
Definition signed_nonzero (s : bool) (x : spec_float) : Prop :=
  x = S754_infinity s \/ exists m e, x = S754_finite s m e.

(** [+0] or a positive number. *)
Definition nonneg_shape (x : spec_float) : Prop :=
  x = S754_zero false \/ signed_nonzero false x.

(** The number of bits of a mantissa. *)
Abbreviation digits m := (Z.pos (digits2_pos m)).

(** The calibration with [min_angle] and [max_angle] moved by the floats
    [dj] and [dk] (whole turns [360 * j], [360 * k] in the claim). *)
Definition shift_angles (self : GaugeReader) (dj dk : float) : GaugeReader :=
  {| min_value := min_value self; max_value := max_value self;
     min_angle := min_angle self + dj; max_angle := max_angle self + dk;
     unit := unit self; confidence := confidence self |}.

(** [float(n)] for a Python integer [n]: the nearest binary64 number. *)
Definition of_int (n : Z) : float := SF2Prim (binary_normalize prec emax n 0 false).

(** The binary64 number nearest to [n * 2^c]. *)
Definition dyadic (n c : Z) : float := SF2Prim (binary_normalize prec emax n c false).

(** [x] is the number [n * 2^c], with nothing rounded: a zero for [n = 0],
    else the finite number whose signed mantissa and [n] agree on the
    smaller of the two exponents. *)
Definition has_value (x : float) (n c : Z) : bool :=
  match Prim2SF x with
  | S754_zero _ => (n =? 0)%Z
  | S754_finite s m e =>
      (cond_Zopp s (Z.pos m * 2 ^ (e - Z.min c e)) =? n * 2 ^ (c - Z.min c e))%Z
  | _ => false
  end.

(** The float sum [x + float(t)] of a finite [x] and a Python integer [t]
    is exact: on some exponent [c <= 0], [x] is [n * 2^c] and the sum the
    interpreter computes is [(n + t * 2^-c) * 2^c], the number [x + t]. *)
Definition exact_sum (x : float) (t : Z) : Prop :=
  exists n c : Z,
    (c <= 0)%Z /\ has_value x n c = true /\
    has_value (x + of_int t) (n + t * 2 ^ (- c)) c = true.

(** The contract of the builtin [round] that the zero-length needle needs:
    a zero is rounded to a zero ([round(-0.0, 2)] is [-0.0]). *)
Definition round_keeps_zero (py_round : float -> Z -> float) : Prop :=
  forall (x : float) (ndigits : Z),
    (x =? 0) = true -> (py_round x ndigits =? 0) = true.

(** A detector that hands back the list it is given. *)
Definition stub_detector (self : GaugeReader) (detections : list detection)
  : list detection := detections.

(** ** The rest of [GaugeReader]: construction, detection, drawing *)

(** *** [__init__] *)

(** The dictionary [gauge_config], by the five keys [__init__] reads: a key
    that is absent is [None], a key that is present holds a number (a
    string for ["unit"]). *)
Record gauge_config : Type := {
  cfg_min_value : option float;
  cfg_max_value : option float;
  cfg_min_angle : option float;
  cfg_max_angle : option float;
  cfg_unit : option string
}.

(** [d.get(key, default)], on the entry of the key. *)
Definition get {A : Type} (entry : option A) (default : A) : A :=
  match entry with
  | Some v => v
  | None => default
  end.

(** The attributes [__init__] sets; [confidence] is the argument the callers
    pass. *)
Definition __init__ (config : gauge_config) (confidence : float) : GaugeReader :=
  {| min_value := get (cfg_min_value config) 0;
     max_value := get (cfg_max_value config) 10;
     min_angle := get (cfg_min_angle config) 225;
     max_angle := get (cfg_max_angle config) (-45);
     unit := get (cfg_unit config) "kg/cm2"%string;
     confidence := confidence |}.

(** *** [detect_gauge] *)

(** What the pose model returns for a frame, as far as [detect_gauge] reads
    it: [boxes.xyxy] is an array of rows, [boxes.conf] an array of numbers,
    [keypoints.data] an array, per box, of rows [[x, y, conf]]; either
    attribute of a result can be [None]. *)
Module ultralytics.

Record Boxes : Type := { xyxy : list (list float); conf : list float }.

Record Keypoints : Type := { data : list (list (list float)) }.

Record Results : Type := { keypoints : option Keypoints; boxes : option Boxes }.

End ultralytics.

(** A list comprehension [[f(x) for x in l]] whose body can raise. *)
Fixpoint comprehension {A B : Type} (f : A -> result B) (l : list A)
  : result (list B) :=
  match l with
  | [] => Ok []
  | x :: rest =>
      y <- f x ;;
      ys <- comprehension f rest ;;
      Ok (y :: ys)
  end.

(** [(float(kp[0]), float(kp[1]), float(kp[2]))]. *)
Definition keypoint_of (kp : list float) : result keypoint :=
  x <- index kp 0 ;;
  y <- index kp 1 ;;
  c <- index kp 2 ;;
  Ok (x, y, c).

(** The body of [for i in range(len(boxes))]: the dictionary [det]. *)
Definition detection_at (boxes : list (list float)) (confs : list float)
    (keypoints_data : list (list (list float))) (i : nat) : result detection :=
  kps <- index keypoints_data i ;;
  box <- index boxes i ;;
  kpl <- comprehension keypoint_of kps ;;
  c <- index confs i ;;
  Ok {| bbox := box; keypoints := kpl; det_conf := c |}.

(** The loop [for i in range(len(boxes))], over the indices still to come. *)
Fixpoint detections_of_boxes (boxes : list (list float)) (confs : list float)
    (keypoints_data : list (list (list float))) (indices : list nat)
    (detections : list detection) : result (list detection) :=
  match indices with
  | [] => Ok detections
  | i :: rest =>
      det <- detection_at boxes confs keypoints_data i ;;
      detections_of_boxes boxes confs keypoints_data rest (detections ++ [det])
  end.

(** The loop [for result in results]. *)
Fixpoint detections_of_results (results : list ultralytics.Results)
    (detections : list detection) : result (list detection) :=
  match results with
  | [] => Ok detections
  | result :: rest =>
      match ultralytics.keypoints result, ultralytics.boxes result with
      | Some keypoints_, Some boxes_ =>
          let boxes := ultralytics.xyxy boxes_ in
          let confs := ultralytics.conf boxes_ in
          let keypoints_data := ultralytics.data keypoints_ in
          detections' <- detections_of_boxes boxes confs keypoints_data
                           (seq 0 (List.length boxes)) detections ;;
          detections_of_results rest detections'
      | _, _ => detections_of_results rest detections
      end
  end.

(** *** Builtins used by [draw_result] *)

Module builtins.

(** [int(x)] on a float: truncation towards zero; a NaN is a [ValueError],
    an infinity an [OverflowError]. *)
Definition int (x : float) : result Z :=
  match Prim2SF x with
  | S754_nan => Raise ValueError
  | S754_infinity _ => Raise OverflowError
  | S754_zero _ => Ok 0%Z
  | S754_finite s m e =>
      Ok (cond_Zopp s (if (0 <=? e)%Z then Z.pos m * 2 ^ e
                       else Z.pos m / 2 ^ (- e)))%Z
  end.

(** [x1, y1, x2, y2 = map(int, bbox)]: the iterator is advanced four times,
    then once more to see that it is exhausted; too few or too many items
    are a [ValueError]. *)
Definition unpack4_int (bbox : list float) : result (Z * Z * Z * Z) :=
  match bbox with
  | a :: b :: c :: d :: rest =>
      x1 <- int a ;;
      y1 <- int b ;;
      x2 <- int c ;;
      y2 <- int d ;;
      match rest with
      | [] => Ok (x1, y1, x2, y2)
      | e :: _ => _ <- int e ;; Raise ValueError
      end
  | _ => _ <- comprehension int bbox ;; Raise ValueError
  end.

End builtins.

(** *** [draw_result] *)

(** The calls [draw_result] makes on the copy of the frame; what OpenCV does
    with them stays outside. *)
Module cv2.

Definition point : Type := (Z * Z)%type.
Definition color : Type := (Z * Z * Z)%type.

Inductive call : Type :=
| rectangle (pt1 pt2 : point) (col : color) (thickness : Z)
| circle (center : point) (radius : Z) (col : color) (thickness : Z)
| line (pt1 pt2 : point) (col : color) (thickness : Z)
| putText (text : string) (org : point) (fontScale : float) (col : color)
          (thickness : Z).

End cv2.

Section Pipeline.

Variable libm_atan2 : float -> float -> float.
Variable py_round : float -> Z -> float.
(** The input image and the pose model: [self.model(frame, conf=...)]. *)
Variable frame : Type.
Variable model : frame -> float -> list ultralytics.Results.
(** [format(x, spec)] on a float, and [cv2.getTextSize(text, font, scale,
    thickness)[0]]. *)
Variable format : float -> string -> string.
Variable getTextSize : string -> float -> Z -> Z * Z.

Definition detect_gauge (self : GaugeReader) (frame_ : frame)
  : result (list detection) :=
  let results := model frame_ (confidence self) in
  detections_of_results results [].

(** [read_gauge] with [detect_gauge] in its place: an exception of the
    detection loop escapes [read_gauge]. *)
Definition read_gauge_frame (self : GaugeReader) (frame_ : frame)
  : result (list reading) :=
  detections <- detect_gauge self frame_ ;;
  read_detections libm_atan2 py_round self detections [].

(** The body of [for reading in readings]: the calls it adds. *)
Definition draw_reading (reading_ : reading)
    (show_keypoints show_angle show_bbox : bool) : result (list cv2.call) :=
  let bbox := r_bbox reading_ in
  cx <- builtins.int (fst (r_center reading_)) ;;
  cy <- builtins.int (snd (r_center reading_)) ;;
  let center := (cx, cy) in
  tx <- builtins.int (fst (r_needle_tip reading_)) ;;
  ty <- builtins.int (snd (r_needle_tip reading_)) ;;
  let needle_tip := (tx, ty) in
  let value := r_value reading_ in
  let angle := r_angle reading_ in
  let unit := r_unit reading_ in
  let conf := r_confidence reading_ in
  box <- builtins.unpack4_int bbox ;;
  let '(x1, y1, x2, y2) := box in
  let value_text := (format value ".3f" ++ " " ++ unit)%string in
  let text_size := getTextSize value_text 0.9 2 in
  let text_x := x1 in
  let text_y := (y1 - 15)%Z in
  Ok ((if show_bbox
       then [cv2.rectangle (x1, y1) (x2, y2) (0, 255, 0)%Z 2]
       else [])
      ++ (if show_keypoints
          then [cv2.circle center 6 (255, 0, 0)%Z (-1);
                cv2.circle center 8 (255, 255, 255)%Z 2;
                cv2.circle needle_tip 6 (0, 0, 255)%Z (-1);
                cv2.circle needle_tip 8 (255, 255, 255)%Z 2;
                cv2.line center needle_tip (255, 255, 0)%Z 2]
          else [])
      ++ [cv2.rectangle (text_x - 5, text_y - snd text_size - 10)%Z
                        (text_x + fst text_size + 5, text_y + 5)%Z
                        (0, 0, 0)%Z (-1);
          cv2.putText value_text (text_x, text_y) 0.9 (0, 255, 255)%Z 2]
      ++ (if show_angle
          then [cv2.putText ("Angle: " ++ format angle ".1f"
                             ++ " | Conf: " ++ format conf ".2f")%string
                            (x1, y2 + 25)%Z 0.5 (200, 200, 200)%Z 1]
          else [])).

(** [draw_result]: the calls made on [annotated], in order. *)
Fixpoint draw_readings (readings : list reading)
    (show_keypoints show_angle show_bbox : bool) (annotated : list cv2.call)
  : result (list cv2.call) :=
  match readings with
  | [] => Ok annotated
  | reading_ :: rest =>
      calls <- draw_reading reading_ show_keypoints show_angle show_bbox ;;
      draw_readings rest show_keypoints show_angle show_bbox (annotated ++ calls)
  end.

Definition draw_result (readings : list reading)
    (show_keypoints show_angle show_bbox : bool) : result (list cv2.call) :=
  draw_readings readings show_keypoints show_angle show_bbox [].

End Pipeline.

(** *** Quantities the statements about these methods are written with *)

(** The tuple [detect_gauge] builds from a row [[x, y, conf, ...]]. *)
Definition keypoint_row (kp : list float) : keypoint :=
  (nth 0 kp 0, nth 1 kp 0, nth 2 kp 0).

(** The detections of one result: one per box, in the order of the boxes;
    none when [keypoints] or [boxes] is [None]. *)
Definition detections_in (result : ultralytics.Results) : list detection :=
  match ultralytics.keypoints result, ultralytics.boxes result with
  | Some keypoints_, Some boxes_ =>
      map (fun i =>
             {| bbox := nth i (ultralytics.xyxy boxes_) [];
                keypoints := map keypoint_row
                                 (nth i (ultralytics.data keypoints_) []);
                det_conf := nth i (ultralytics.conf boxes_) 0 |})
          (seq 0 (List.length (ultralytics.xyxy boxes_)))
  | _, _ => []
  end.

(** The arrays of a result fit together: a confidence and an array of
    keypoint rows for every box, three numbers at least in every row. *)
Definition shaped (result : ultralytics.Results) : Prop :=
  match ultralytics.keypoints result, ultralytics.boxes result with
  | Some keypoints_, Some boxes_ =>
      let n := List.length (ultralytics.xyxy boxes_) in
      (n <= List.length (ultralytics.data keypoints_))%nat /\
      (n <= List.length (ultralytics.conf boxes_))%nat /\
      Forall (Forall (fun kp : list float => (3 <= List.length kp)%nat))
             (firstn n (ultralytics.data keypoints_))
  | _, _ => True
  end.

(** A box of four finite numbers. *)
Definition finite_box (bbox : list float) : bool :=
  match bbox with
  | [a; b; c; d] => is_finite a && is_finite b && is_finite c && is_finite d
  | _ => false
  end.

(** A reading [draw_result] can convert: finite center and tip, and a box
    of four finite numbers. *)
Definition drawable (reading_ : reading) : bool :=
  is_finite (fst (r_center reading_)) && is_finite (snd (r_center reading_))
  && is_finite (fst (r_needle_tip reading_))
  && is_finite (snd (r_needle_tip reading_))
  && finite_box (r_bbox reading_).

(** The same on a detection: its box and the coordinates of its first two
    keypoints. *)
Definition finite_detection (det : detection) : bool :=
  finite_box (bbox det)
  && match keypoints det with
     | kp0 :: kp1 :: _ =>
         is_finite (fst (fst kp0)) && is_finite (snd (fst kp0))
         && is_finite (fst (fst kp1)) && is_finite (snd (fst kp1))
     | _ => true
     end.

(** The number of calls [draw_result] makes for one reading. *)
Definition calls_per_reading (show_keypoints show_angle show_bbox : bool) : nat :=
  (if show_bbox then 1 else 0) + (if show_keypoints then 5 else 0) + 2
  + (if show_angle then 1 else 0).

(** *** Stand-ins for the witnesses *)

(** A model output for the witnesses: one result without keypoints, one with
    two boxes. *)
Definition two_boxes (frame_ : list float) (conf : float)
  : list ultralytics.Results :=
  [ {| ultralytics.keypoints := None;
       ultralytics.boxes := Some {| ultralytics.xyxy := [[0; 0; 5; 5]];
                                    ultralytics.conf := [0.7] |} |};
    {| ultralytics.keypoints :=
         Some {| ultralytics.data :=
                   [ [[320; 240; 0.9]; [320; 180; 0.8]];
                     [[100; 100; 0.2]; [150; 100; 0.9]] ] |};
       ultralytics.boxes :=
         Some {| ultralytics.xyxy := [[10; 10; 200; 200]; [50; 50; 90; 90]];
                 ultralytics.conf := [0.9; 0.6] |} |} ].

(** [format] and [cv2.getTextSize] stand-ins. *)
Definition format_stub (x : float) (spec : string) : string := spec.

Definition text_size_stub (text : string) (fontScale : float) (thickness : Z)
  : Z * Z := (Z.of_nat (String.length text) * 18, 22)%Z.

(** *** [test_gauge_read.py] *)



(** ** Facts about binary64 numbers *)

Module FloatFacts.


Lemma SFcompare_refl (x : spec_float) :
  x <> S754_nan -> SFcompare x x = Some Eq.
Proof.
  destruct x as [s|s| |s m e]; intros H; try congruence.
  - reflexivity.
  - now destruct s.
  - simpl. rewrite Z.compare_refl, Pos.compare_cont_refl. now destruct s.
Qed.

Lemma SFcompare_antisym (x y : spec_float) :
  SFcompare y x = option_map CompOpp (SFcompare x y).
Proof.
  destruct x as [sx|sx| |sx mx ex], y as [sy|sy| |sy my ey];
    try reflexivity; try (now destruct sx); try (now destruct sy);
    try (now destruct sx, sy).
  assert (Hm : Pos.compare_cont Eq my mx = CompOpp (Pos.compare_cont Eq mx my))
    by (now rewrite Pos.compare_cont_antisym).
  simpl. rewrite (Z.compare_antisym ex ey), Hm.
  destruct sx, sy; simpl; try reflexivity;
    destruct (ex ?= ey)%Z; simpl; try reflexivity;
    now rewrite ?CompOpp_involutive.
Qed.

Lemma is_nan_spec (x : float) : is_nan x = true <-> Prim2SF x = S754_nan.
Proof.
  unfold is_nan. rewrite eqb_spec. unfold SFeqb.
  destruct (Prim2SF x) eqn:E.
  all: try (rewrite SFcompare_refl by congruence; simpl; split; congruence).
  simpl. tauto.
Qed.

Lemma is_nan_false (x : float) : is_nan x = false <-> Prim2SF x <> S754_nan.
Proof.
  rewrite <- is_nan_spec. destruct (is_nan x); split; congruence.
Qed.

Lemma is_infinity_spec (x : float) :
  is_infinity x = true <-> exists s, Prim2SF x = S754_infinity s.
Proof.
  unfold is_infinity. rewrite eqb_spec, abs_spec.
  change (Prim2SF infinity) with (S754_infinity false).
  destruct (Prim2SF x) as [s|s| |s m e]; simpl; split; intros H;
    try discriminate; try (destruct H; discriminate); eauto.
Qed.

Lemma is_zero_spec (x : float) :
  (x =? 0) = true <-> exists s, Prim2SF x = S754_zero s.
Proof.
  rewrite eqb_spec. change (Prim2SF 0) with (S754_zero false).
  destruct (Prim2SF x) as [s|s| |s m e]; unfold SFeqb; simpl; split; intros H;
    try discriminate; try (destruct H; discriminate); eauto;
    destruct s; discriminate.
Qed.

(** The shape of a finite number. *)
Lemma is_finite_spec (x : float) :
  is_finite x = true <->
  (exists s, Prim2SF x = S754_zero s) \/ (exists s m e, Prim2SF x = S754_finite s m e).
Proof.
  unfold is_finite. rewrite negb_true_iff, orb_false_iff.
  rewrite is_nan_false.
  split.
  - intros [Hn Hi]. destruct (Prim2SF x) as [s|s| |s m e] eqn:E; eauto.
    + assert (is_infinity x = true) by (apply is_infinity_spec; eauto). congruence.
    + congruence.
  - intros [[s E]|[s [m [e E]]]]; split; try congruence.
    all: destruct (is_infinity x) eqn:Hi; auto;
      apply is_infinity_spec in Hi; destruct Hi; congruence.
Qed.

Lemma ltb_leb (x y : float) : (x <? y) = true -> (x <=? y) = true.
Proof.
  rewrite ltb_spec, leb_spec. unfold SFltb, SFleb.
  now destruct (SFcompare _ _) as [[]|].
Qed.

Lemma eqb_leb (x y : float) : (x =? y) = true -> (x <=? y) = true.
Proof.
  rewrite eqb_spec, leb_spec. unfold SFeqb, SFleb.
  now destruct (SFcompare _ _) as [[]|].
Qed.

(** On numbers, [not (x < y)] is [y <= x]. *)
Lemma ltb_false_leb (x y : float) :
  is_nan x = false -> is_nan y = false -> (x <? y) = negb (y <=? x).
Proof.
  rewrite !is_nan_false, ltb_spec, leb_spec. unfold SFltb, SFleb.
  rewrite (SFcompare_antisym (Prim2SF x) (Prim2SF y)). intros Hx Hy.
  destruct (Prim2SF x) as [sx|sx| |sx mx ex], (Prim2SF y) as [sy|sy| |sy my ey];
    try congruence;
    destruct (SFcompare _ _) as [[]|] eqn:E; simpl in *; try reflexivity; discriminate.
Qed.

Lemma leb_not_nan (x y : float) :
  (x <=? y) = true -> is_nan x = false /\ is_nan y = false.
Proof.
  rewrite leb_spec, !is_nan_false. unfold SFleb.
  destruct (Prim2SF x), (Prim2SF y); simpl; intros; split; congruence.
Qed.

(** A finite number minus itself is [+0]. *)
Lemma sub_diag (x : float) : is_finite x = true -> x - x = 0.
Proof.
  intros H. apply Prim2SF_inj. rewrite sub_spec.
  change (Prim2SF 0) with (S754_zero false).
  apply is_finite_spec in H.
  destruct H as [[s E]|[s [m [e E]]]]; rewrite E.
  - now destruct s.
  - unfold SF64sub, SFsub. rewrite Z.sub_diag. reflexivity.
Qed.

End FloatFacts.

Import FloatFacts.

(** ** Rounding to binary64, on the integer mantissas *)

Module Rounding.

Local Open Scope Z_scope.



Lemma digits_bounds (m : positive) :
  2 ^ (digits m - 1) <= Z.pos m < 2 ^ digits m.
Proof.
  induction m as [m IH|m IH|]; cbn [digits2_pos];
    [| |vm_compute; split; [discriminate|reflexivity]].
  all: rewrite Pos2Z.inj_succ, Z.pow_succ_r by lia.
  all: replace (Z.succ (digits m) - 1) with (Z.succ (digits m - 1)) by lia.
  all: rewrite Z.pow_succ_r by lia.
  - rewrite (Pos2Z.inj_xI m). lia.
  - rewrite (Pos2Z.inj_xO m). lia.
Qed.

Lemma digits_unique (m : positive) (d : Z) :
  2 ^ (d - 1) <= Z.pos m < 2 ^ d -> digits m = d.
Proof.
  intros [L U]. destruct (digits_bounds m) as [L' U'].
  assert (d - 1 < digits m).
  { apply (Z.pow_lt_mono_r_iff 2); lia. }
  assert (digits m - 1 < d).
  { apply (Z.pow_lt_mono_r_iff 2); try lia.
    destruct (Z.le_gt_cases 0 d); [lia|].
    rewrite (Z.pow_neg_r 2 d) in U by lia. lia. }
  lia.
Qed.

Lemma digits_shift (m : positive) (k : Z) (n : positive) :
  0 <= k -> Z.pos n = Z.pos m * 2 ^ k -> digits n = digits m + k.
Proof.
  intros Hk E. apply digits_unique. rewrite E.
  destruct (digits_bounds m) as [L U].
  replace (digits m + k - 1) with ((digits m - 1) + k) by lia.
  rewrite !Z.pow_add_r by lia.
  assert (0 < 2 ^ k) by (apply Z.pow_pos_nonneg; lia).
  nia.
Qed.

(** *** Right shifts *)

Lemma shr_1_m (mrs : shr_record) :
  0 <= shr_m mrs -> shr_m (shr_1 mrs) = shr_m mrs / 2.
Proof.
  destruct mrs as [m r s]. cbn [shr_m shr_1]. intros H.
  destruct m as [|p|p]; [reflexivity| |lia].
  destruct p as [p|p|]; cbn [shr_m].
  - rewrite (Pos2Z.inj_xI p). apply Z.div_unique with (r := 1); lia.
  - rewrite (Pos2Z.inj_xO p). apply Z.div_unique with (r := 0); lia.
  - reflexivity.
Qed.

Lemma iter_shr_1_m (p : positive) :
  forall mrs, 0 <= shr_m mrs ->
              shr_m (iter_pos shr_1 p mrs) = shr_m mrs / 2 ^ Z.pos p.
Proof.
  assert (P2 : forall q : positive, 0 < 2 ^ Z.pos q) by (intros; apply Z.pow_pos_nonneg; lia).
  induction p as [p IH|p IH|]; intros mrs H; cbn [iter_pos].
  - assert (H1 : 0 <= shr_m (shr_1 mrs))
      by (rewrite shr_1_m by lia; apply Z.div_pos; lia).
    assert (H2 : 0 <= shr_m (iter_pos shr_1 p (shr_1 mrs)))
      by (rewrite IH by lia; apply Z.div_pos; auto).
    rewrite IH, IH, shr_1_m by lia.
    rewrite !Z.div_div by (auto; lia).
    f_equal. replace (Z.pos p~1) with (1 + Z.pos p + Z.pos p) by lia.
    rewrite !Z.pow_add_r by lia. change (2 ^ 1) with 2. ring.
  - assert (H2 : 0 <= shr_m (iter_pos shr_1 p mrs))
      by (rewrite IH by lia; apply Z.div_pos; auto).
    rewrite IH, IH by lia.
    rewrite !Z.div_div by (auto; lia).
    f_equal. replace (Z.pos p~0) with (Z.pos p + Z.pos p) by lia.
    rewrite !Z.pow_add_r by lia. ring.
  - rewrite shr_1_m by lia. reflexivity.
Qed.

(** An exact record shifted by as many bits as it has trailing zeros stays
    exact. *)
Lemma shr_1_exact (n : Z) :
  shr_1 {| shr_m := 2 * n; shr_r := false; shr_s := false |}
  = {| shr_m := n; shr_r := false; shr_s := false |}.
Proof. now destruct n. Qed.

Lemma iter_shr_1_exact (p : positive) :
  forall n, iter_pos shr_1 p {| shr_m := 2 ^ Z.pos p * n; shr_r := false; shr_s := false |}
            = {| shr_m := n; shr_r := false; shr_s := false |}.
Proof.
  induction p as [p IH|p IH|]; intros n; cbn [iter_pos].
  - replace (2 ^ Z.pos p~1 * n) with (2 * (2 ^ Z.pos p * (2 ^ Z.pos p * n))).
    + now rewrite shr_1_exact, !IH.
    + replace (Z.pos p~1) with (1 + Z.pos p + Z.pos p) by lia.
      rewrite !Z.pow_add_r by lia. change (2 ^ 1) with 2. ring.
  - replace (2 ^ Z.pos p~0 * n) with (2 ^ Z.pos p * (2 ^ Z.pos p * n)).
    + now rewrite !IH.
    + replace (Z.pos p~0) with (Z.pos p + Z.pos p) by lia.
      rewrite !Z.pow_add_r by lia. ring.
  - apply shr_1_exact.
Qed.


Lemma shr_record_of_loc_m (m : Z) (l : location) :
  shr_m (shr_record_of_loc m l) = m.
Proof. now destruct l as [|[]]. Qed.

Lemma fexp_eq (x : Z) : fexp prec emax x = Z.max (x - 53) (-1074).
Proof. reflexivity. Qed.

(** Shifting a positive mantissa to its target exponent leaves it
    positive, as long as the exponent is not below [emin]. *)
Lemma shr_fexp_pos (m : positive) (e : Z) (l : location) (mrs : shr_record) (e' : Z) :
  -1074 <= e ->
  shr_fexp prec emax (Z.pos m) e l = (mrs, e') ->
  0 < shr_m mrs /\ -1074 <= e'.
Proof.
  intros He. unfold shr_fexp, shr. rewrite fexp_eq. cbn [Zdigits2].
  destruct (digits_bounds m) as [L U].
  destruct (Z.max (digits m + e - 53) (-1074) - e) as [|p|p] eqn:K;
    intros E; inversion E; subst; clear E;
    rewrite ?shr_record_of_loc_m; try lia.
  rewrite iter_shr_1_m by (rewrite shr_record_of_loc_m; lia).
  rewrite shr_record_of_loc_m. split; [|lia].
  assert (Z.pos p <= digits m - 1) by lia.
  assert (2 ^ Z.pos p <= 2 ^ (digits m - 1)) by (apply Z.pow_le_mono_r; lia).
  apply Z.div_str_pos. split; [apply Z.pow_pos_nonneg; lia|lia].
Qed.

Lemma round_nearest_even_pos (m : Z) (l : location) :
  0 < m -> 0 < round_nearest_even m l.
Proof.
  intros H. destruct l as [|[]]; cbn [round_nearest_even]; try lia.
  destruct (Z.even m); lia.
Qed.

Lemma binary_round_aux_sign (s : bool) (m : positive) (e : Z) (l : location) :
  -1074 <= e -> signed_nonzero s (binary_round_aux prec emax s (Z.pos m) e l).
Proof.
  intros He. unfold binary_round_aux.
  destruct (shr_fexp prec emax (Z.pos m) e l) as [mrs' e'] eqn:E1.
  destruct (shr_fexp_pos _ _ _ _ _ He E1) as [P1 He'].
  pose proof (round_nearest_even_pos _ (loc_of_shr_record mrs') P1) as P2.
  destruct (round_nearest_even (shr_m mrs') (loc_of_shr_record mrs')) as [|q|q];
    try lia.
  destruct (shr_fexp prec emax (Z.pos q) e' loc_Exact) as [mrs'' e''] eqn:E2.
  destruct (shr_fexp_pos _ _ _ _ _ He' E2) as [P3 _].
  destruct (shr_m mrs'') as [|r|r]; try lia.
  destruct (e'' <=? emax - prec); [right; eauto|now left].
Qed.

Lemma shl_align_value (m : positive) (e e' : Z) :
  e' <= e ->
  Z.pos (fst (shl_align m e e')) = Z.pos m * 2 ^ (e - e') /\
  snd (shl_align m e e') = e'.
Proof.
  intros H. unfold shl_align.
  destruct (e' - e) as [|d|d] eqn:K; cbn [fst snd]; try lia.
  - replace (e - e') with 0 by lia. split; lia.
  - replace (e - e') with (Z.pos d) by lia.
    change (Pos.iter xO m d) with (shift_pos d m).
    rewrite shift_pos_correct. split; [|reflexivity].
    change (Z.pow_pos 2 d) with (2 ^ Z.pos d). ring.
Qed.

Lemma binary_round_sign (s : bool) (m : positive) (e : Z) :
  -1074 <= e -> signed_nonzero s (binary_round prec emax s m e).
Proof.
  intros He. unfold binary_round.
  destruct (shl_align m e (fexp prec emax (digits m + e))) as [mz ez] eqn:E.
  apply binary_round_aux_sign.
  unfold shl_align in E. rewrite fexp_eq in E.
  destruct (Z.max (digits m + e - 53) (-1074) - e) eqn:K;
    inversion E; subst; lia.
Qed.

(** *** Canonical representations *)

Lemma valid_finite (s : bool) (m : positive) (e : Z) :
  valid_binary (S754_finite s m e) = true ->
  Z.max (digits m + e - 53) (-1074) = e /\ e <= 971.
Proof.
  cbn [SpecFloat.valid_binary]. unfold bounded, canonical_mantissa.
  rewrite andb_true_iff, Z.eqb_eq, Z.leb_le, fexp_eq. tauto.
Qed.

(** Among canonical numbers the order of (exponent, mantissa) is the order
    of the values. *)
Lemma canonical_lt (m1 : positive) (e1 : Z) (m2 : positive) (e2 : Z) :
  Z.max (digits m1 + e1 - 53) (-1074) = e1 ->
  Z.max (digits m2 + e2 - 53) (-1074) = e2 ->
  e1 < e2 \/ (e1 = e2 /\ Z.pos m1 < Z.pos m2) ->
  Z.pos m1 * 2 ^ (e1 - Z.min e1 e2) < Z.pos m2 * 2 ^ (e2 - Z.min e1 e2).
Proof.
  intros C1 C2 [H|[H1 H2]].
  - rewrite Z.min_l by lia. replace (e1 - e1) with 0 by lia.
    destruct (digits_bounds m1) as [_ U1]. destruct (digits_bounds m2) as [L2 _].
    assert (D : digits m1 <= (digits m2 - 1) + (e2 - e1)) by lia.
    assert (2 ^ digits m1 <= 2 ^ ((digits m2 - 1) + (e2 - e1)))
      by (apply Z.pow_le_mono_r; lia).
    rewrite Z.pow_add_r in * by lia.
    assert (0 < 2 ^ (e2 - e1)) by (apply Z.pow_pos_nonneg; lia).
    change (2 ^ 0) with 1. nia.
  - subst e2. rewrite Z.min_id, Z.sub_diag. change (2 ^ 0) with 1. lia.
Qed.

Lemma compare_fin_lt (m1 : positive) (e1 : Z) (m2 : positive) (e2 : Z) :
  match (e1 ?= e2) with
  | Lt => Lt | Gt => Gt | Eq => Pos.compare_cont Eq m1 m2 end = Lt ->
  e1 < e2 \/ (e1 = e2 /\ Z.pos m1 < Z.pos m2).
Proof.
  destruct (Z.compare_spec e1 e2) as [E|L|G]; intros H; try discriminate; auto.
Qed.


Lemma compare_fin_gt (m1 : positive) (e1 : Z) (m2 : positive) (e2 : Z) :
  match (e1 ?= e2) with
  | Lt => Gt | Gt => Lt | Eq => CompOpp (Pos.compare_cont Eq m1 m2) end = Lt ->
  e2 < e1 \/ (e2 = e1 /\ Z.pos m2 < Z.pos m1).
Proof.
  destruct (Z.compare_spec e1 e2) as [E|L|G]; intros H; try discriminate; auto.
  right. split; [auto|].
  apply Pos.compare_gt_iff. unfold Pos.compare.
  destruct (Pos.compare_cont Eq m1 m2); simpl in H; congruence.
Qed.

(** *** Subtraction of ordered numbers *)

Lemma SFsub_lt (X Y : spec_float) :
  valid_binary X = true -> valid_binary Y = true ->
  SFcompare X Y = Some Lt ->
  signed_nonzero true (SF64sub X Y) /\ signed_nonzero false (SF64sub Y X).
Proof.
  unfold signed_nonzero.
  destruct X as [sx|sx| |sx mx ex], Y as [sy|sy| |sy my ey]; intros Vx Vy H;
    try discriminate H;
    try (destruct sx; try discriminate H); try (destruct sy; try discriminate H);
    try (cbn; split; eauto; fail).
  all: destruct (valid_finite _ _ _ Vx) as [Cx Bx];
    destruct (valid_finite _ _ _ Vy) as [Cy By].
  all: unfold SF64sub, SFsub; cbv zeta.
  all: rewrite (Z.min_comm ey ex).
  all: destruct (shl_align_value mx ex (Z.min ex ey) ltac:(lia)) as [Ax _];
    destruct (shl_align_value my ey (Z.min ex ey) ltac:(lia)) as [Ay _].
  all: rewrite Ax, Ay; cbn [cond_Zopp].
  all: assert (Pa : 0 < Z.pos mx * 2 ^ (ex - Z.min ex ey))
      by (apply Z.mul_pos_pos; [lia|apply Z.pow_pos_nonneg; lia]).
  all: assert (Pb : 0 < Z.pos my * 2 ^ (ey - Z.min ex ey))
      by (apply Z.mul_pos_pos; [lia|apply Z.pow_pos_nonneg; lia]).
  all: apply (f_equal (fun o => match o with Some c => c | None => Eq end)) in H;
    cbn [SFcompare] in H.
  all: assert (Hez : -1074 <= Z.min ex ey) by lia.
  all: assert (R : forall s n, n <> 0 -> s = (n <? 0) ->
                 signed_nonzero s (binary_normalize prec emax n (Z.min ex ey) false)).
  1, 3, 5: intros s [|p|p] Hn ->; try congruence; cbn [binary_normalize Z.ltb Z.compare];
    apply binary_round_sign; exact Hez.
  all: unfold signed_nonzero in R.
  - apply compare_fin_gt in H.
    pose proof (canonical_lt _ _ _ _ Cy Cx H) as O.
    rewrite (Z.min_comm ey ex) in O.
    split; (apply R; [lia|symmetry]); [apply Z.ltb_lt|apply Z.ltb_ge]; lia.
  - split; (apply R; [lia|symmetry]); [apply Z.ltb_lt|apply Z.ltb_ge]; lia.
  - apply compare_fin_lt in H.
    pose proof (canonical_lt _ _ _ _ Cx Cy H) as O.
    split; (apply R; [lia|symmetry]); [apply Z.ltb_lt|apply Z.ltb_ge]; lia.
Qed.

(** *** Multiplication by one *)

Lemma SFmul_1_l (X : spec_float) :
  valid_binary X = true -> SF64mul (Prim2SF 1) X = X.
Proof.
  change (Prim2SF 1) with (S754_finite false 4503599627370496 (-52)).
  destruct X as [s|s| |s m e]; intros V; try reflexivity.
  destruct (valid_finite _ _ _ V) as [C B].
  unfold SF64mul, SFmul. cbn [xorb].
  assert (K : Z.pos (4503599627370496 * m) = 2 ^ 52 * Z.pos m) by reflexivity.
  assert (D : digits (4503599627370496 * m) = digits m + 52)
    by (apply digits_shift; lia).
  assert (E1 : shr_fexp prec emax (Z.pos (4503599627370496 * m)) (-52 + e) loc_Exact
               = ({| shr_m := Z.pos m; shr_r := false; shr_s := false |}, e)).
  { unfold shr_fexp. rewrite fexp_eq. cbn [Zdigits2]. rewrite D.
    replace (Z.max (digits m + 52 + (-52 + e) - 53) (-1074) - (-52 + e)) with 52 by lia.
    unfold shr. cbn [shr_record_of_loc]. rewrite K.
    rewrite (iter_shr_1_exact 52 (Z.pos m)). f_equal. lia. }
  assert (E2 : shr_fexp prec emax (Z.pos m) e loc_Exact
               = ({| shr_m := Z.pos m; shr_r := false; shr_s := false |}, e)).
  { unfold shr_fexp. rewrite fexp_eq. cbn [Zdigits2].
    replace (Z.max (digits m + e - 53) (-1074) - e) with 0 by lia.
    reflexivity. }
  unfold binary_round_aux. rewrite E1.
  cbn [shr_m loc_of_shr_record round_nearest_even]. rewrite E2. cbn [shr_m].
  replace (e <=? emax - prec) with true; [reflexivity|].
  symmetry. apply Z.leb_le. change (emax - prec) with 971. lia.
Qed.



(** A mantissa of at most 53 bits at a representable exponent is rounded
    to itself, shifted to the canonical exponent. *)
Lemma binary_round_exact (s : bool) (p : positive) (e : Z) :
  -1074 <= e <= 971 -> digits p <= 53 ->
  exists p' e',
    binary_round prec emax s p e = S754_finite s p' e' /\
    valid_binary (S754_finite s p' e') = true /\
    e' <= e /\ Z.pos p' = Z.pos p * 2 ^ (e - e').
Proof.
  intros He Hd. unfold binary_round. rewrite fexp_eq.
  set (e' := Z.max (digits p + e - 53) (-1074)).
  assert (Le : e' <= e) by lia.
  destruct (shl_align_value p e e' Le) as [V E'].
  destruct (shl_align p e e') as [mz ez]. cbn [fst snd] in V, E'. subst ez.
  exists mz, e'.
  assert (D : digits mz = digits p + (e - e')) by (apply digits_shift; lia).
  assert (C : Z.max (digits mz + e' - 53) (-1074) = e') by lia.
  assert (E2 : shr_fexp prec emax (Z.pos mz) e' loc_Exact
               = ({| shr_m := Z.pos mz; shr_r := false; shr_s := false |}, e')).
  { unfold shr_fexp. rewrite fexp_eq. cbn [Zdigits2].
    replace (Z.max (digits mz + e' - 53) (-1074) - e') with 0 by lia.
    reflexivity. }
  assert (B : (e' <=? emax - prec) = true)
    by (apply Z.leb_le; change (emax - prec) with 971; lia).
  repeat split; try assumption.
  - unfold binary_round_aux. rewrite E2.
    cbn [shr_m loc_of_shr_record round_nearest_even]. rewrite E2. cbn [shr_m].
    now rewrite B.
  - cbn [SpecFloat.valid_binary]. unfold bounded, canonical_mantissa.
    rewrite fexp_eq, C, Z.eqb_refl, B. reflexivity.
Qed.

(** The order of two canonical positive numbers, from the order of their
    values on a common exponent [c]. *)
Lemma canonical_compare_lt (m1 : positive) (e1 : Z) (m2 : positive) (e2 c : Z) :
  valid_binary (S754_finite false m1 e1) = true ->
  valid_binary (S754_finite false m2 e2) = true ->
  c <= e1 -> c <= e2 ->
  Z.pos m1 * 2 ^ (e1 - c) < Z.pos m2 * 2 ^ (e2 - c) ->
  SFcompare (S754_finite false m1 e1) (S754_finite false m2 e2) = Some Lt.
Proof.
  intros V1 V2 L1 L2 H.
  destruct (valid_finite _ _ _ V1) as [C1 _], (valid_finite _ _ _ V2) as [C2 _].
  assert (S : forall m e, c <= e -> Z.min e1 e2 <= e ->
              Z.pos m * 2 ^ (e - c) = Z.pos m * 2 ^ (e - Z.min e1 e2) * 2 ^ (Z.min e1 e2 - c)).
  { intros m e Hc Hm. rewrite <- Z.mul_assoc, <- Z.pow_add_r by lia.
    do 2 f_equal. lia. }
  rewrite (S m1 e1), (S m2 e2) in H by lia.
  assert (P : 0 < 2 ^ (Z.min e1 e2 - c)) by (apply Z.pow_pos_nonneg; lia).
  assert (H' : Z.pos m1 * 2 ^ (e1 - Z.min e1 e2) < Z.pos m2 * 2 ^ (e2 - Z.min e1 e2))
    by nia.
  clear H S. cbn [SFcompare]. f_equal.
  destruct (Z.compare_spec e1 e2) as [E|L|G]; [| reflexivity |].
  - subst e2. rewrite Z.min_id, Z.sub_diag in H'. change (2 ^ 0) with 1 in H'.
    apply Pos.compare_lt_iff. lia.
  - exfalso.
    pose proof (canonical_lt m2 e2 m1 e1 C2 C1 (or_introl G)) as O.
    rewrite (Z.min_comm e2 e1) in O. lia.
Qed.

Lemma SFadd_as_sub (X Y : spec_float) :
  SF64add X Y = SF64sub Y (SFopp X).
Proof.
  destruct X as [sx|sx| |sx mx ex], Y as [sy|sy| |sy my ey];
    try reflexivity; try (now destruct sx, sy); try (now destruct sx); try (now destruct sy).
  unfold SF64add, SF64sub, SFadd, SFsub, SFopp. cbv zeta.
  rewrite (Z.min_comm ey ex). f_equal.
  destruct sx, sy; cbn [cond_Zopp negb]; lia.
Qed.

(** *** Rounding against a representable bound *)

Lemma round_nearest_even_bounds (m : Z) (l : location) :
  m <= round_nearest_even m l <= m + 1.
Proof.
  destruct l as [|[]]; cbn [round_nearest_even]; try lia.
  destruct (Z.even m); lia.
Qed.

(** The mantissa after the first shift and rounding, for a shift by [k >= 0]
    bits: it is [M / 2^k] rounded to a neighbour, and it is [M / 2^k] itself
    when the division is exact. *)
Lemma shift_round_bounds (M : positive) (E k : Z) (mrs : shr_record) (e' : Z) :
  0 <= k ->
  shr (shr_record_of_loc (Z.pos M) loc_Exact) E k = (mrs, e') ->
  let r := round_nearest_even (shr_m mrs) (loc_of_shr_record mrs) in
  e' = E + k /\ 0 <= r /\ (r - 1) * 2 ^ k < Z.pos M < (r + 1) * 2 ^ k.
Proof.
  intros Hk. unfold shr. cbn [shr_record_of_loc].
  destruct k as [|p|p]; [| |lia]; intros H; inversion H; subst; clear H; cbv zeta.
  - cbn [shr_m loc_of_shr_record round_nearest_even]. change (2 ^ 0) with 1. lia.
  - split; [reflexivity|].
    assert (P : 0 < 2 ^ Z.pos p) by (apply Z.pow_pos_nonneg; lia).
    pose proof (Z.div_mod (Z.pos M) (2 ^ Z.pos p) ltac:(lia)) as DM.
    pose proof (Z.mod_pos_bound (Z.pos M) (2 ^ Z.pos p) P) as MB.
    destruct (Z.eq_dec (Z.pos M mod 2 ^ Z.pos p) 0) as [Z|NZ].
    + rewrite Z, Z.add_0_r in DM.
      set (q := Z.pos M / 2 ^ Z.pos p) in *.
      replace {| shr_m := Z.pos M; shr_r := false; shr_s := false |}
        with {| shr_m := 2 ^ Z.pos p * q; shr_r := false; shr_s := false |}
        by (now rewrite <- DM).
      rewrite iter_shr_1_exact.
      cbn [shr_m loc_of_shr_record round_nearest_even].
      nia.
    + set (mrs := iter_pos shr_1 p _).
      assert (Hm : shr_m mrs = Z.pos M / 2 ^ Z.pos p)
        by (unfold mrs; rewrite iter_shr_1_m; cbn [shr_m]; [reflexivity|lia]).
      pose proof (round_nearest_even_bounds (shr_m mrs) (loc_of_shr_record mrs)) as B.
      rewrite Hm in B |- *.
      assert (0 <= Z.pos M / 2 ^ Z.pos p) by (apply Z.div_pos; lia).
      nia.
Qed.

Lemma digits_ge (q : positive) (n : Z) : 0 <= n -> 2 ^ n <= Z.pos q -> n + 1 <= digits q.
Proof.
  intros Hn H. destruct (digits_bounds q) as [_ U].
  assert (n < digits q); [|lia].
  apply (Z.pow_lt_mono_r_iff 2); lia.
Qed.

Lemma digits_le (q : positive) (n : Z) : 0 <= n -> Z.pos q < 2 ^ n -> digits q <= n.
Proof.
  intros Hn H. destruct (digits_bounds q) as [L _].
  assert (digits q - 1 < n); [|lia].
  apply (Z.pow_lt_mono_r_iff 2); lia.
Qed.

(** What [binary_round_aux] returns on an exact mantissa that needs no left
    shift: zero, or the canonical number whose mantissa is [M / 2^k] rounded
    to a neighbour ([k] the distance to the target exponent), or an
    infinity when its exponent is too large. *)
Lemma round_aux_structure (s : bool) (M : positive) (E : Z) :
  let f1 := Z.max (digits M + E - 53) (-1074) in
  E <= f1 ->
  exists r,
    (r - 1) * 2 ^ (f1 - E) < Z.pos M < (r + 1) * 2 ^ (f1 - E) /\
    ((r = 0 /\ binary_round_aux prec emax s (Z.pos M) E loc_Exact = S754_zero s) \/
     (exists m e,
        Z.pos m * 2 ^ (e - f1) = r /\ f1 <= e <= f1 + 1 /\
        Z.max (digits m + e - 53) (-1074) = e /\
        binary_round_aux prec emax s (Z.pos M) E loc_Exact
        = if e <=? 971 then S754_finite s m e else S754_infinity s)).
Proof.
  intros f1 Hk.
  assert (Hf : -1074 <= f1 /\ digits M + E - 53 <= f1 /\
               (f1 = digits M + E - 53 \/ f1 = -1074)) by (unfold f1; lia).
  remember (binary_round_aux prec emax s (Z.pos M) E loc_Exact) as R eqn:HR.
  unfold binary_round_aux in HR.
  unfold shr_fexp at 1 in HR. rewrite fexp_eq in HR. cbn [Zdigits2] in HR. fold f1 in HR.
  destruct (shr (shr_record_of_loc (Z.pos M) loc_Exact) E (f1 - E)) as [mrs' e'] eqn:S1.
  destruct (shift_round_bounds M E (f1 - E) mrs' e' ltac:(lia) S1) as [He' [R0 RB]].
  set (r := round_nearest_even (shr_m mrs') (loc_of_shr_record mrs')) in *.
  assert (He : e' = f1) by lia. clear He'. subst e'.
  exists r. split; [exact RB|].
  clearbody f1.
  remember (f1 - E) as k eqn:Hkd.
  assert (Pk : 0 < 2 ^ k) by (apply Z.pow_pos_nonneg; lia).
  destruct (digits_bounds M) as [LM UM].
  unfold shr_fexp in HR. rewrite fexp_eq in HR.
  destruct r as [|q|q] eqn:Hr; [left|right|lia].
  - split; [reflexivity|].
    cbn [Zdigits2 shr_record_of_loc] in HR. unfold shr in HR.
    destruct (Z.max (0 + f1 - 53) (-1074) - f1) as [|p|p] eqn:K; try exact HR.
    lia.
  - assert (A : Z.pos q <= 2 ^ 53 /\ (f1 = -1074 \/ 2 ^ 52 <= Z.pos q)).
    { destruct (Z.le_gt_cases k (digits M)) as [Hd|Hd].
      - assert (E2 : 2 ^ digits M = 2 ^ (digits M - k) * 2 ^ k)
          by (rewrite <- Z.pow_add_r by lia; f_equal; lia).
        assert (Z.pos q - 1 < 2 ^ (digits M - k)) by nia.
        assert (2 ^ (digits M - k) <= 2 ^ 53) by (apply Z.pow_le_mono_r; lia).
        split; [lia|].
        destruct (Z.eq_dec f1 (-1074)) as [F|F]; [now left|right].
        assert (K : k = digits M - 53) by lia.
        assert (E3 : 2 ^ (digits M - 1) = 2 ^ 52 * 2 ^ k)
          by (rewrite <- Z.pow_add_r by lia; f_equal; lia).
        nia.
      - assert (2 ^ digits M < 2 ^ k) by (apply Z.pow_lt_mono_r; lia).
        assert (Z.pos q <= 1) by nia.
        change (2 ^ 53) with 9007199254740992. change (2 ^ 52) with 4503599627370496.
        split; lia. }
    destruct A as [A1 A2].
    cbn [Zdigits2 shr_record_of_loc] in HR.
    change (emax - prec) with 971 in HR.
    destruct (Z.eq_dec (Z.pos q) (2 ^ 53)) as [Q|Q].
    + assert (q = 9007199254740992%positive) by (change (2 ^ 53) with 9007199254740992 in Q; lia).
      subst q.
      exists 4503599627370496%positive, (f1 + 1).
      replace (f1 + 1 - f1) with 1 by lia.
      split; [reflexivity|]. split; [lia|]. split.
      { change (digits 4503599627370496) with 53. lia. }
      change (digits 9007199254740992) with 54 in HR.
      replace (Z.max (54 + f1 - 53) (-1074) - f1) with 1 in HR by lia.
      exact HR.
    + exists q, f1. rewrite Z.sub_diag. change (2 ^ 0) with 1.
      split; [lia|]. split; [lia|].
      assert (D1 : digits q <= 53) by (apply digits_le; lia).
      assert (C : Z.max (digits q + f1 - 53) (-1074) = f1).
      { destruct A2 as [F|G]; [lia|].
        assert (53 <= digits q) by (apply (digits_ge q 52); lia).
        lia. }
      split; [exact C|].
      rewrite C, Z.sub_diag in HR. exact HR.
Qed.

(** Comparing [m1 * 2^e1] with [m2 * 2^e2] on any common exponent. *)
Lemma scale_cmp (m1 e1 m2 e2 c c' : Z) :
  c <= e1 -> c <= e2 -> c' <= c ->
  (m1 * 2 ^ (e1 - c) <= m2 * 2 ^ (e2 - c) <->
   m1 * 2 ^ (e1 - c') <= m2 * 2 ^ (e2 - c')) /\
  (m1 * 2 ^ (e1 - c) < m2 * 2 ^ (e2 - c) <->
   m1 * 2 ^ (e1 - c') < m2 * 2 ^ (e2 - c')).
Proof.
  intros H1 H2 Hc.
  replace (e1 - c') with ((e1 - c) + (c - c')) by lia.
  replace (e2 - c') with ((e2 - c) + (c - c')) by lia.
  rewrite !Z.pow_add_r by lia.
  assert (0 < 2 ^ (c - c')) by (apply Z.pow_pos_nonneg; lia).
  split; split; intros; nia.
Qed.

Lemma canonical_compare_le (m1 : positive) (e1 : Z) (m2 : positive) (e2 c : Z) :
  valid_binary (S754_finite false m1 e1) = true ->
  valid_binary (S754_finite false m2 e2) = true ->
  c <= e1 -> c <= e2 ->
  Z.pos m1 * 2 ^ (e1 - c) <= Z.pos m2 * 2 ^ (e2 - c) ->
  SFleb (S754_finite false m1 e1) (S754_finite false m2 e2) = true.
Proof.
  intros V1 V2 L1 L2 H. unfold SFleb.
  destruct (Z_le_lt_eq_dec _ _ H) as [Lt|Eq].
  - now rewrite (canonical_compare_lt m1 e1 m2 e2 c).
  - destruct (valid_finite _ _ _ V1) as [C1 _], (valid_finite _ _ _ V2) as [C2 _].
    assert (e1 = e2).
    { destruct (Z.lt_total e1 e2) as [L|[E|G]]; [exfalso|exact E|exfalso].
      - pose proof (canonical_lt m1 e1 m2 e2 C1 C2 (or_introl L)) as O.
        apply (proj2 (scale_cmp (Z.pos m1) e1 (Z.pos m2) e2 (Z.min e1 e2) c
                        ltac:(lia) ltac:(lia) ltac:(lia))) in O. lia.
      - pose proof (canonical_lt m2 e2 m1 e1 C2 C1 (or_introl G)) as O.
        apply (proj2 (scale_cmp (Z.pos m2) e2 (Z.pos m1) e1 (Z.min e2 e1) c
                        ltac:(lia) ltac:(lia) ltac:(lia))) in O. lia. }
    subst e2.
    assert (0 < 2 ^ (e1 - c)) by (apply Z.pow_pos_nonneg; lia).
    assert (m1 = m2) by nia. subst m2.
    cbn [SFcompare]. now rewrite Z.compare_refl, Pos.compare_cont_refl.
Qed.

Lemma valid_of_canonical (s : bool) (m : positive) (e : Z) :
  Z.max (digits m + e - 53) (-1074) = e -> e <= 971 ->
  valid_binary (S754_finite s m e) = true.
Proof.
  intros C B. cbn [SpecFloat.valid_binary]. unfold bounded, canonical_mantissa.
  rewrite fexp_eq, C, Z.eqb_refl. apply Z.leb_le. change (emax - prec) with 971. lia.
Qed.

(** Rounding does not cross a representable number: from above... *)
Lemma round_aux_le (s : bool) (M : positive) (E : Z) (mf : positive) (ef c : Z) :
  E <= Z.max (digits M + E - 53) (-1074) ->
  valid_binary (S754_finite false mf ef) = true ->
  c <= E -> c <= ef ->
  Z.pos M * 2 ^ (E - c) <= Z.pos mf * 2 ^ (ef - c) ->
  binary_round_aux prec emax s (Z.pos M) E loc_Exact = S754_zero s \/
  exists m e,
    binary_round_aux prec emax s (Z.pos M) E loc_Exact = S754_finite s m e /\
    valid_binary (S754_finite s m e) = true /\
    SFleb (S754_finite false m e) (S754_finite false mf ef) = true.
Proof.
  intros Hk V Lc1 Lc2 H.
  destruct (valid_finite _ _ _ V) as [CF BF].
  destruct (round_aux_structure s M E Hk) as [r [RB [[R0 HR]|[m [e [Hm [He [C HR]]]]]]]];
    [now left|right].
  remember (Z.max (digits M + E - 53) (-1074)) as f1 eqn:Hf1.
  destruct (digits_bounds M) as [LM UM]. destruct (digits_bounds mf) as [LF UF].
  assert (Pc : 0 < 2 ^ (E - c)) by (apply Z.pow_pos_nonneg; lia).
  assert (F1 : f1 <= ef).
  { destruct (Z.le_gt_cases f1 ef) as [L|G]; [exact L|exfalso].
    assert (D : digits mf + ef <= digits M - 1 + E) by lia.
    assert (2 ^ (digits mf + (ef - c)) <= 2 ^ (digits M - 1 + (E - c)))
      by (apply Z.pow_le_mono_r; lia).
    rewrite !Z.pow_add_r in * by lia.
    assert (0 < 2 ^ (ef - c)) by (apply Z.pow_pos_nonneg; lia).
    nia. }
  assert (Pk : 0 < 2 ^ (f1 - E)) by (apply Z.pow_pos_nonneg; lia).
  assert (RG : r <= Z.pos mf * 2 ^ (ef - f1)).
  { replace (ef - c) with ((ef - f1) + (f1 - E) + (E - c)) in H by lia.
    rewrite !Z.pow_add_r in H by lia.
    assert (Z.pos M <= Z.pos mf * 2 ^ (ef - f1) * 2 ^ (f1 - E)) by nia.
    nia. }
  assert (VL : Z.pos m * 2 ^ (e - f1) <= Z.pos mf * 2 ^ (ef - f1)) by lia.
  assert (Ee : e <= ef).
  { destruct (Z.le_gt_cases e ef) as [L|G]; [exact L|exfalso].
    pose proof (canonical_lt mf ef m e CF C (or_introl G)) as O.
    apply (proj2 (scale_cmp (Z.pos mf) ef (Z.pos m) e (Z.min ef e) f1
                    ltac:(lia) ltac:(lia) ltac:(lia))) in O. lia. }
  exists m, e.
  replace (e <=? 971) with true in HR by (symmetry; apply Z.leb_le; lia).
  split; [exact HR|]. split.
  - apply valid_of_canonical; [exact C|lia].
  - apply (canonical_compare_le m e mf ef f1); try lia; try assumption.
    apply valid_of_canonical; [exact C|lia].
Qed.

(** ... and from below. *)
Lemma round_aux_ge (s : bool) (M : positive) (E : Z) (mf : positive) (ef c : Z) :
  E <= Z.max (digits M + E - 53) (-1074) ->
  valid_binary (S754_finite false mf ef) = true ->
  c <= E -> c <= ef ->
  Z.pos mf * 2 ^ (ef - c) <= Z.pos M * 2 ^ (E - c) ->
  binary_round_aux prec emax s (Z.pos M) E loc_Exact = S754_infinity s \/
  exists m e,
    binary_round_aux prec emax s (Z.pos M) E loc_Exact = S754_finite s m e /\
    valid_binary (S754_finite s m e) = true /\
    SFleb (S754_finite false mf ef) (S754_finite false m e) = true.
Proof.
  intros Hk V Lc1 Lc2 H.
  destruct (valid_finite _ _ _ V) as [CF BF].
  destruct (round_aux_structure s M E Hk) as [r [RB [[R0 HR]|[m [e [Hm [He [C HR]]]]]]]].
  - exfalso. subst r.
    remember (Z.max (digits M + E - 53) (-1074)) as f1 eqn:Hf1.
    destruct (digits_bounds M) as [LM UM].
    assert (Pc : 0 < 2 ^ (E - c)) by (apply Z.pow_pos_nonneg; lia).
    assert (Pf : 0 < 2 ^ (ef - c)) by (apply Z.pow_pos_nonneg; lia).
    assert (B : 2 ^ (ef - c) < 2 ^ (f1 - c)).
    { replace (f1 - c) with ((f1 - E) + (E - c)) by lia.
      rewrite Z.pow_add_r by lia. nia. }
    apply Z.pow_lt_mono_r_iff in B; try lia.
    assert (K : f1 - E = digits M - 53) by lia.
    assert (2 ^ (f1 - E) <= 2 ^ (digits M - 1)) by (apply Z.pow_le_mono_r; lia).
    lia.
  - remember (Z.max (digits M + E - 53) (-1074)) as f1 eqn:Hf1.
    destruct (e <=? 971) eqn:B971; [right|now left].
    apply Z.leb_le in B971.
    exists m, e. split; [exact HR|].
    assert (Vm : valid_binary (S754_finite s m e) = true)
      by (apply valid_of_canonical; assumption).
    split; [exact Vm|].
    destruct (Z.le_gt_cases f1 ef) as [L|G].
    + assert (Pc : 0 < 2 ^ (E - c)) by (apply Z.pow_pos_nonneg; lia).
      assert (Pk : 0 < 2 ^ (f1 - E)) by (apply Z.pow_pos_nonneg; lia).
      assert (RG : Z.pos mf * 2 ^ (ef - f1) <= r).
      { replace (ef - c) with ((ef - f1) + (f1 - E) + (E - c)) in H by lia.
        rewrite !Z.pow_add_r in H by lia.
        assert (Z.pos mf * 2 ^ (ef - f1) * 2 ^ (f1 - E) <= Z.pos M) by nia.
        nia. }
      apply (canonical_compare_le mf ef m e f1); try lia; assumption.
    + unfold SFleb. cbn [SFcompare].
      now replace (ef ?= e) with Lt by (symmetry; apply Z.compare_lt_iff; lia).
Qed.

(** [binary_round] first shifts the mantissa left to the target exponent
    when it is too short; the value is kept and no left shift remains. *)
Lemma shl_align_fexp_spec (N : positive) (e : Z) (mz : positive) (ez : Z) :
  shl_align N e (fexp prec emax (digits N + e)) = (mz, ez) ->
  ez <= e /\ Z.pos mz = Z.pos N * 2 ^ (e - ez) /\
  ez <= Z.max (digits mz + ez - 53) (-1074) /\
  (-1074 <= e -> -1074 <= ez).
Proof.
  rewrite fexp_eq. intros H.
  destruct (Z.le_gt_cases e (Z.max (digits N + e - 53) (-1074))) as [L|G].
  - assert (E : shl_align N e (Z.max (digits N + e - 53) (-1074)) = (N, e)).
    { unfold shl_align.
      destruct (Z.max (digits N + e - 53) (-1074) - e) eqn:K; try reflexivity. lia. }
    rewrite E in H. inversion H; subst.
    rewrite Z.sub_diag. change (2 ^ 0) with 1. repeat split; lia.
  - destruct (shl_align_value N e (Z.max (digits N + e - 53) (-1074)) ltac:(lia)) as [V S].
    rewrite H in V, S. cbn [fst snd] in V, S. subst ez.
    assert (D : digits mz = digits N + (e - Z.max (digits N + e - 53) (-1074)))
      by (apply digits_shift; lia).
    repeat split; lia.
Qed.

Lemma round_le (s : bool) (N : positive) (e : Z) (mf : positive) (ef c : Z) :
  valid_binary (S754_finite false mf ef) = true ->
  c <= e -> c <= ef ->
  Z.pos N * 2 ^ (e - c) <= Z.pos mf * 2 ^ (ef - c) ->
  binary_round prec emax s N e = S754_zero s \/
  exists m e',
    binary_round prec emax s N e = S754_finite s m e' /\
    valid_binary (S754_finite s m e') = true /\
    SFleb (S754_finite false m e') (S754_finite false mf ef) = true.
Proof.
  intros V L1 L2 H. unfold binary_round.
  destruct (shl_align N e (fexp prec emax (digits N + e))) as [mz ez] eqn:S.
  destruct (shl_align_fexp_spec _ _ _ _ S) as [Le [Vz [K _]]].
  apply (round_aux_le s mz ez mf ef (Z.min c ez)); try assumption; try lia.
  apply (proj1 (scale_cmp (Z.pos N) e (Z.pos mf) ef c (Z.min c ez)
                  ltac:(lia) ltac:(lia) ltac:(lia))) in H.
  rewrite Vz. rewrite <- Z.mul_assoc, <- Z.pow_add_r by lia.
  now replace (e - ez + (ez - Z.min c ez)) with (e - Z.min c ez) by lia.
Qed.

Lemma round_ge (s : bool) (N : positive) (e : Z) (mf : positive) (ef c : Z) :
  valid_binary (S754_finite false mf ef) = true ->
  c <= e -> c <= ef ->
  Z.pos mf * 2 ^ (ef - c) <= Z.pos N * 2 ^ (e - c) ->
  binary_round prec emax s N e = S754_infinity s \/
  exists m e',
    binary_round prec emax s N e = S754_finite s m e' /\
    valid_binary (S754_finite s m e') = true /\
    SFleb (S754_finite false mf ef) (S754_finite false m e') = true.
Proof.
  intros V L1 L2 H. unfold binary_round.
  destruct (shl_align N e (fexp prec emax (digits N + e))) as [mz ez] eqn:S.
  destruct (shl_align_fexp_spec _ _ _ _ S) as [Le [Vz [K _]]].
  apply (round_aux_ge s mz ez mf ef (Z.min c ez)); try assumption; try lia.
  apply (proj1 (scale_cmp (Z.pos mf) ef (Z.pos N) e c (Z.min c ez)
                  ltac:(lia) ltac:(lia) ltac:(lia))) in H.
  rewrite Vz. rewrite <- Z.mul_assoc, <- Z.pow_add_r by lia.
  now replace (e - ez + (ez - Z.min c ez)) with (e - Z.min c ez) by lia.
Qed.

Lemma digits_mul_ge (a b : positive) : digits a + digits b - 1 <= digits (a * b).
Proof.
  destruct (digits_bounds a) as [La _], (digits_bounds b) as [Lb _].
  assert (2 ^ (digits a - 1 + (digits b - 1)) <= Z.pos (a * b)).
  { rewrite Z.pow_add_r by lia. rewrite Pos2Z.inj_mul.
    assert (0 < 2 ^ (digits a - 1)) by (apply Z.pow_pos_nonneg; lia).
    assert (0 < 2 ^ (digits b - 1)) by (apply Z.pow_pos_nonneg; lia).
    nia. }
  pose proof (digits_ge (a * b) (digits a - 1 + (digits b - 1)) ltac:(lia) H). lia.
Qed.

(** The product of two canonical mantissas needs no left shift. *)
Lemma mul_shift_ok (mx : positive) (ex : Z) (my : positive) (ey : Z) :
  Z.max (digits mx + ex - 53) (-1074) = ex ->
  Z.max (digits my + ey - 53) (-1074) = ey ->
  ex + ey <= Z.max (digits (mx * my) + (ex + ey) - 53) (-1074).
Proof. intros Cx Cy. pose proof (digits_mul_ge mx my). lia. Qed.

(** The order of two negative numbers is the reverse order of their
    magnitudes. *)
Lemma SFleb_neg (a : positive) (ea : Z) (b : positive) (eb : Z) :
  SFleb (S754_finite true a ea) (S754_finite true b eb)
  = SFleb (S754_finite false b eb) (S754_finite false a ea).
Proof.
  unfold SFleb. rewrite (SFcompare_antisym (S754_finite false a ea) (S754_finite false b eb)).
  cbn [SFcompare option_map].
  destruct (ea ?= eb); try reflexivity.
Qed.

(** *** Rounding a quotient: mantissas with a location *)

(** As [shift_round_bounds], for a mantissa that stands for a number of
    [[M, M + 1)]. *)
Lemma shift_round_bounds_loc (M : positive) (l : location) (E k : Z)
    (mrs : shr_record) (e' : Z) :
  0 <= k ->
  shr (shr_record_of_loc (Z.pos M) l) E k = (mrs, e') ->
  let r := round_nearest_even (shr_m mrs) (loc_of_shr_record mrs) in
  e' = E + k /\ 0 <= r /\ (r - 1) * 2 ^ k <= Z.pos M < (r + 1) * 2 ^ k.
Proof.
  intros Hk. unfold shr.
  destruct k as [|p|p]; [| |lia]; intros H; inversion H; subst; clear H; cbv zeta.
  - pose proof (round_nearest_even_bounds
                  (shr_m (shr_record_of_loc (Z.pos M) l))
                  (loc_of_shr_record (shr_record_of_loc (Z.pos M) l))) as B.
    rewrite shr_record_of_loc_m in B |- *. change (2 ^ 0) with 1. lia.
  - split; [reflexivity|].
    assert (P : 0 < 2 ^ Z.pos p) by (apply Z.pow_pos_nonneg; lia).
    pose proof (Z.div_mod (Z.pos M) (2 ^ Z.pos p) ltac:(lia)) as DM.
    pose proof (Z.mod_pos_bound (Z.pos M) (2 ^ Z.pos p) P) as MB.
    set (mrs := iter_pos shr_1 p _).
    assert (Hm : shr_m mrs = Z.pos M / 2 ^ Z.pos p)
      by (unfold mrs; rewrite iter_shr_1_m; rewrite shr_record_of_loc_m;
          [reflexivity|lia]).
    pose proof (round_nearest_even_bounds (shr_m mrs) (loc_of_shr_record mrs)) as B.
    rewrite Hm in B |- *.
    assert (0 <= Z.pos M / 2 ^ Z.pos p) by (apply Z.div_pos; lia).
    nia.
Qed.

(** As [round_aux_structure], for any location. *)
Lemma round_aux_structure_loc (s : bool) (M : positive) (E : Z) (l : location) :
  let f1 := Z.max (digits M + E - 53) (-1074) in
  E <= f1 ->
  exists r,
    (r - 1) * 2 ^ (f1 - E) <= Z.pos M < (r + 1) * 2 ^ (f1 - E) /\
    ((r = 0 /\ binary_round_aux prec emax s (Z.pos M) E l = S754_zero s) \/
     (exists m e,
        Z.pos m * 2 ^ (e - f1) = r /\ f1 <= e <= f1 + 1 /\
        Z.max (digits m + e - 53) (-1074) = e /\
        binary_round_aux prec emax s (Z.pos M) E l
        = if e <=? 971 then S754_finite s m e else S754_infinity s)).
Proof.
  intros f1 Hk.
  assert (Hf : -1074 <= f1 /\ digits M + E - 53 <= f1 /\
               (f1 = digits M + E - 53 \/ f1 = -1074)) by (unfold f1; lia).
  remember (binary_round_aux prec emax s (Z.pos M) E l) as R eqn:HR.
  unfold binary_round_aux in HR.
  unfold shr_fexp at 1 in HR. rewrite fexp_eq in HR. cbn [Zdigits2] in HR. fold f1 in HR.
  destruct (shr (shr_record_of_loc (Z.pos M) l) E (f1 - E)) as [mrs' e'] eqn:S1.
  destruct (shift_round_bounds_loc M l E (f1 - E) mrs' e' ltac:(lia) S1) as [He' [R0 RB]].
  set (r := round_nearest_even (shr_m mrs') (loc_of_shr_record mrs')) in *.
  assert (He : e' = f1) by lia. clear He'. subst e'.
  exists r. split; [exact RB|].
  clearbody f1.
  remember (f1 - E) as k eqn:Hkd.
  assert (Pk : 0 < 2 ^ k) by (apply Z.pow_pos_nonneg; lia).
  destruct (digits_bounds M) as [LM UM].
  unfold shr_fexp in HR. rewrite fexp_eq in HR.
  destruct r as [|q|q] eqn:Hr; [left|right|lia].
  - split; [reflexivity|].
    cbn [Zdigits2 shr_record_of_loc] in HR. unfold shr in HR.
    destruct (Z.max (0 + f1 - 53) (-1074) - f1) as [|p|p] eqn:K; try exact HR.
    lia.
  - assert (A : Z.pos q <= 2 ^ 53 /\ (f1 = -1074 \/ 2 ^ 52 <= Z.pos q)).
    { destruct (Z.le_gt_cases k (digits M)) as [Hd|Hd].
      - assert (E2 : 2 ^ digits M = 2 ^ (digits M - k) * 2 ^ k)
          by (rewrite <- Z.pow_add_r by lia; f_equal; lia).
        assert (Z.pos q - 1 < 2 ^ (digits M - k)) by nia.
        assert (2 ^ (digits M - k) <= 2 ^ 53) by (apply Z.pow_le_mono_r; lia).
        split; [lia|].
        destruct (Z.eq_dec f1 (-1074)) as [F|F]; [now left|right].
        assert (K : k = digits M - 53) by lia.
        assert (E3 : 2 ^ (digits M - 1) = 2 ^ 52 * 2 ^ k)
          by (rewrite <- Z.pow_add_r by lia; f_equal; lia).
        nia.
      - assert (2 ^ digits M < 2 ^ k) by (apply Z.pow_lt_mono_r; lia).
        assert (Z.pos q <= 1) by nia.
        change (2 ^ 53) with 9007199254740992. change (2 ^ 52) with 4503599627370496.
        split; lia. }
    destruct A as [A1 A2].
    cbn [Zdigits2 shr_record_of_loc] in HR.
    change (emax - prec) with 971 in HR.
    destruct (Z.eq_dec (Z.pos q) (2 ^ 53)) as [Q|Q].
    + assert (q = 9007199254740992%positive) by (change (2 ^ 53) with 9007199254740992 in Q; lia).
      subst q.
      exists 4503599627370496%positive, (f1 + 1).
      replace (f1 + 1 - f1) with 1 by lia.
      split; [reflexivity|]. split; [lia|]. split.
      { change (digits 4503599627370496) with 53. lia. }
      change (digits 9007199254740992) with 54 in HR.
      replace (Z.max (54 + f1 - 53) (-1074) - f1) with 1 in HR by lia.
      exact HR.
    + exists q, f1. rewrite Z.sub_diag. change (2 ^ 0) with 1.
      split; [lia|]. split; [lia|].
      assert (D1 : digits q <= 53) by (apply digits_le; lia).
      assert (C : Z.max (digits q + f1 - 53) (-1074) = f1).
      { destruct A2 as [F|G]; [lia|].
        assert (53 <= digits q) by (apply (digits_ge q 52); lia).
        lia. }
      split; [exact C|].
      rewrite C, Z.sub_diag in HR. exact HR.
Qed.

(** Rounding does not go below a representable number that the mantissa
    reaches, whatever lies behind the mantissa. *)
Lemma round_aux_ge_loc (s : bool) (M : positive) (E : Z) (l : location)
    (mf : positive) (ef c : Z) :
  E <= Z.max (digits M + E - 53) (-1074) ->
  valid_binary (S754_finite false mf ef) = true ->
  c <= E -> c <= ef ->
  Z.pos mf * 2 ^ (ef - c) <= Z.pos M * 2 ^ (E - c) ->
  binary_round_aux prec emax s (Z.pos M) E l = S754_infinity s \/
  exists m e,
    binary_round_aux prec emax s (Z.pos M) E l = S754_finite s m e /\
    valid_binary (S754_finite s m e) = true /\
    SFleb (S754_finite false mf ef) (S754_finite false m e) = true.
Proof.
  intros Hk V Lc1 Lc2 H.
  destruct (valid_finite _ _ _ V) as [CF BF].
  destruct (round_aux_structure_loc s M E l Hk) as [r [RB [[R0 HR]|[m [e [Hm [He [C HR]]]]]]]].
  - exfalso. subst r.
    remember (Z.max (digits M + E - 53) (-1074)) as f1 eqn:Hf1.
    destruct (digits_bounds M) as [LM UM].
    assert (Pc : 0 < 2 ^ (E - c)) by (apply Z.pow_pos_nonneg; lia).
    assert (Pf : 0 < 2 ^ (ef - c)) by (apply Z.pow_pos_nonneg; lia).
    assert (B : 2 ^ (ef - c) < 2 ^ (f1 - c)).
    { replace (f1 - c) with ((f1 - E) + (E - c)) by lia.
      rewrite Z.pow_add_r by lia. nia. }
    apply Z.pow_lt_mono_r_iff in B; try lia.
    assert (K : f1 - E = digits M - 53) by lia.
    assert (2 ^ (f1 - E) <= 2 ^ (digits M - 1)) by (apply Z.pow_le_mono_r; lia).
    lia.
  - remember (Z.max (digits M + E - 53) (-1074)) as f1 eqn:Hf1.
    destruct (e <=? 971) eqn:B971; [right|now left].
    apply Z.leb_le in B971.
    exists m, e. split; [exact HR|].
    assert (Vm : valid_binary (S754_finite s m e) = true)
      by (apply valid_of_canonical; assumption).
    split; [exact Vm|].
    destruct (Z.le_gt_cases f1 ef) as [L|G].
    + assert (Pc : 0 < 2 ^ (E - c)) by (apply Z.pow_pos_nonneg; lia).
      assert (Pk : 0 < 2 ^ (f1 - E)) by (apply Z.pow_pos_nonneg; lia).
      assert (RG : Z.pos mf * 2 ^ (ef - f1) <= r).
      { replace (ef - c) with ((ef - f1) + (f1 - E) + (E - c)) in H by lia.
        rewrite !Z.pow_add_r in H by lia.
        assert (Z.pos mf * 2 ^ (ef - f1) * 2 ^ (f1 - E) <= Z.pos M) by nia.
        nia. }
      apply (canonical_compare_le mf ef m e f1); try lia; assumption.
    + unfold SFleb. cbn [SFcompare].
      now replace (ef ?= e) with Lt by (symmetry; apply Z.compare_lt_iff; lia).
Qed.

End Rounding.

Import Rounding.



Lemma mul_1_l (x : float) : 1 * x = x.
Proof.
  apply Prim2SF_inj. rewrite mul_spec. apply SFmul_1_l, Prim2SF_valid.
Qed.

Lemma signed_neg_lt0 (X : spec_float) :
  signed_nonzero true X -> SFltb X (S754_zero false) = true.
Proof. intros [->|[m [e ->]]]; reflexivity. Qed.

Lemma signed_pos_gt0 (X : spec_float) :
  signed_nonzero false X -> SFltb (S754_zero false) X = true.
Proof. intros [->|[m [e ->]]]; reflexivity. Qed.

Lemma ltb_sub (x y : float) :
  (x <? y) = true -> (x - y <? 0) = true /\ (0 <? y - x) = true.
Proof.
  rewrite !ltb_spec, !sub_spec. change (Prim2SF 0) with (S754_zero false).
  unfold SFltb at 1. intros H.
  destruct (SFcompare (Prim2SF x) (Prim2SF y)) as [[]|] eqn:E; try discriminate.
  destruct (SFsub_lt _ _ (Prim2SF_valid x) (Prim2SF_valid y) E) as [N P].
  split; [now apply signed_neg_lt0|now apply signed_pos_gt0].
Qed.

(** ** Facts about the runtime operators *)

Lemma normalize_eq (a : float) : normalize a = Ok (rem360 a).
Proof. reflexivity. Qed.

Lemma zero_lt_threshold (x : float) : (x =? 0) = true -> (x <? 0.001) = true.
Proof.
  intros H. apply is_zero_spec in H. destruct H as [s E].
  rewrite ltb_spec, E. reflexivity.
Qed.

Lemma float_div_guarded (a b : float) :
  (b <? 0.001) = false -> float_div a b = Ok (a / b).
Proof.
  intros H. unfold float_div.
  destruct (b =? 0) eqn:E; [|reflexivity].
  apply zero_lt_threshold in E. congruence.
Qed.

Lemma angle_to_value_cases (self : GaugeReader) (angle : float) :
  angle_to_value self angle =
  Ok (if cw_sweep_of self <? 0.001 then min_value self
      else min_value self
           + clamp01 (cw_needle_of self angle / cw_sweep_of self)
             * (max_value self - min_value self)).
Proof.
  change (angle_to_value self angle) with
    (if cw_sweep_of self <? 0.001 then Ok (min_value self)
     else fraction <- float_div (cw_needle_of self angle) (cw_sweep_of self) ;;
          Ok (min_value self + clamp01 fraction * (max_value self - min_value self))).
  destruct (cw_sweep_of self <? 0.001) eqn:E; [reflexivity|].
  now rewrite (float_div_guarded _ _ E).
Qed.

Lemma clamp01_range (f : float) : within 0 1 (clamp01 f) = true.
Proof.
  unfold within, clamp01, min2, max2.
  destruct (f <? 1) eqn:E1.
  - destruct (0 <? f) eqn:E0.
    + now rewrite (ltb_leb _ _ E0), (ltb_leb _ _ E1).
    + reflexivity.
  - reflexivity.
Qed.

Lemma rem360_nan_inf (x : float) :
  is_finite x = false -> rem360 x = nan.
Proof.
  unfold is_finite, rem360, fmod. intros H.
  apply negb_false_iff in H.
  destruct (is_nan x); [reflexivity|].
  simpl in H. rewrite H. reflexivity.
Qed.

Lemma rem360_number_finite (x : float) :
  is_nan (rem360 x) = false -> is_finite x = true.
Proof.
  intros H. destruct (is_finite x) eqn:F; [reflexivity|].
  rewrite (rem360_nan_inf _ F) in H. discriminate.
Qed.

Lemma sub_finite (x y : float) :
  is_finite (x - y) = true -> is_finite x = true /\ is_finite y = true.
Proof.
  rewrite !is_finite_spec, sub_spec. unfold SF64sub.
  destruct (Prim2SF x) as [sx|sx| |sx mx ex], (Prim2SF y) as [sy|sy| |sy my ey];
    simpl; intros H; split; eauto 6;
    try (destruct sx, sy; simpl in H);
    destruct H as [[s H]|[s [m [e H]]]]; discriminate.
Qed.

(** The shape of a number at or above the degeneracy threshold. *)
Lemma above_threshold (s : float) :
  (0.001 <=? s) = true ->
  Prim2SF s = S754_infinity false \/ exists m e, Prim2SF s = S754_finite false m e.
Proof.
  rewrite leb_spec. unfold SFleb.
  change (Prim2SF 0.001) with (S754_finite false 4611686018427388 (-62)).
  destruct (Prim2SF s) as [sg|sg| |sg m e]; simpl; try discriminate.
  - destruct sg; [discriminate|auto].
  - destruct sg; [discriminate|eauto].
Qed.

Lemma div_zero_above (s : float) : (0.001 <=? s) = true -> 0 / s = 0.
Proof.
  intros H. apply Prim2SF_inj. rewrite div_spec.
  change (Prim2SF 0) with (S754_zero false).
  destruct (above_threshold _ H) as [E|[m [e E]]]; rewrite E; reflexivity.
Qed.

Lemma SFdiv_diag (s : bool) (m : positive) (e : Z) :
  SF64div (S754_finite s m e) (S754_finite s m e) = Prim2SF 1.
Proof.
  unfold SF64div, SFdiv, SFdiv_core_binary.
  rewrite !Z.sub_diag.
  change (Z.min (fexp prec emax 0) 0) with (-53)%Z.
  change (0 - -53)%Z with 53%Z.
  cbv iota.
  rewrite Z.shiftl_mul_pow2 by lia.
  assert (Hd : Z.div_eucl (Z.pos m * 2 ^ 53) (Z.pos m) = (2 ^ 53, 0)%Z).
  { transitivity ((Z.pos m * 2 ^ 53) / Z.pos m, (Z.pos m * 2 ^ 53) mod Z.pos m)%Z.
    - unfold Z.div, Z.modulo. now destruct (Z.div_eucl _ _).
    - rewrite (Z.mul_comm (Z.pos m)), Z.div_mul, Z.mod_mul by lia. reflexivity. }
  rewrite Hd.
  replace (new_location (Z.pos m) 0) with loc_Exact
    by (unfold new_location; now destruct (Z.even _)).
  rewrite xorb_nilpotent. reflexivity.
Qed.

Lemma div_diag_above (s : float) :
  (0.001 <=? s) = true -> clamp01 (s / s) = 1.
Proof.
  intros H.
  destruct (above_threshold _ H) as [E|[m [e E]]].
  - assert (s / s = nan) as ->; [|reflexivity].
    apply Prim2SF_inj. rewrite div_spec, E. reflexivity.
  - assert (s / s = 1) as ->; [|reflexivity].
    apply Prim2SF_inj. rewrite div_spec, E. apply SFdiv_diag.
Qed.

Lemma mul_zero_finite (d : float) :
  is_finite d = true -> exists s, Prim2SF (0 * d) = S754_zero s.
Proof.
  rewrite is_finite_spec, mul_spec.
  change (Prim2SF 0) with (S754_zero false).
  intros [[s E]|[s [m [e E]]]]; rewrite E; simpl; eauto.
Qed.

Lemma add_zero_eq (x z : float) :
  is_finite x = true -> (exists s, Prim2SF z = S754_zero s) -> (x + z =? x) = true.
Proof.
  rewrite is_finite_spec, eqb_spec, add_spec.
  intros [[s E]|[s [m [e E]]]] [sz Ez]; rewrite E, Ez; unfold SFeqb.
  - now destruct s, sz.
  - simpl SF64add. now rewrite SFcompare_refl.
Qed.

Lemma leb_ltb_false (x y : float) : (x <=? y) = true -> (y <? x) = false.
Proof.
  intros H. destruct (leb_not_nan _ _ H) as [Hx Hy].
  rewrite (ltb_false_leb _ _ Hy Hx), H. reflexivity.
Qed.

Lemma digits_le_53 (p : positive) : (Z.pos p < 2 ^ 53)%Z -> (digits p <= 53)%Z.
Proof.
  intros H. destruct (digits_bounds p) as [L _].
  assert (digits p - 1 < 53)%Z; [|lia].
  apply (Z.pow_lt_mono_r_iff 2); lia.
Qed.

Lemma fmod_finite_360_bound (sx : bool) (mx : positive) (ex : Z) :
  valid_binary (S754_finite sx mx ex) = true ->
  (abs (fmod_finite sx mx ex 6333186975989760 (-44)) <? 360) = true.
Proof.
  intros V. destruct (valid_finite _ _ _ V) as [C B].
  unfold fmod_finite.
  set (e := Z.min ex (-44)).
  set (X := (Z.pos mx * 2 ^ (ex - e))%Z).
  set (Y := (6333186975989760 * 2 ^ (-44 - e))%Z).
  assert (PX : (0 < X)%Z) by (apply Z.mul_pos_pos; [lia|apply Z.pow_pos_nonneg; lia]).
  assert (PY : (0 < Y)%Z) by (apply Z.mul_pos_pos; [lia|apply Z.pow_pos_nonneg; lia]).
  pose proof (Z.rem_bound_pos X Y ltac:(lia) PY) as [R0 RY].
  pose proof (Z.rem_le X Y ltac:(lia) PY) as RX.
  destruct (Z.rem X Y) as [|p|p] eqn:R; [| |lia].
  { destruct sx; reflexivity. }
  assert (Hp : (Z.pos p < 2 ^ 53)%Z).
  { destruct (Z.le_gt_cases (-44) ex) as [G|G].
    - assert (e = (-44)%Z) by (unfold e; lia).
      unfold Y in RY. replace (-44 - e)%Z with 0%Z in RY by lia.
      change (2 ^ 0)%Z with 1%Z in RY. 
      assert (6333186975989760 < 2 ^ 53)%Z by reflexivity. lia.
    - assert (e = ex) by (unfold e; lia).
      unfold X in RX. replace (ex - e)%Z with 0%Z in RX by lia.
      change (2 ^ 0)%Z with 1%Z in RX.
      destruct (digits_bounds mx) as [_ U].
      assert (2 ^ digits mx <= 2 ^ 53)%Z by (apply Z.pow_le_mono_r; lia).
      lia. }
  assert (He : (-1074 <= e <= 971)%Z) by (unfold e; lia).
  destruct (binary_round_exact sx p e He (digits_le_53 _ Hp)) as [p' [e' [E [V' [Le Vp]]]]].
  assert (N : binary_normalize prec emax (cond_Zopp sx (Z.pos p)) e sx
              = S754_finite sx p' e').
  { rewrite <- E. now destruct sx. }
  rewrite N, ltb_spec, abs_spec, (Prim2SF_SF2Prim _ V').
  change (Prim2SF 360) with (S754_finite false 6333186975989760 (-44)).
  unfold SFltb. cbn [SFabs].
  rewrite (canonical_compare_lt p' e' 6333186975989760 (-44) e'); try reflexivity; try lia.
  - exact V'.
  - rewrite Vp, Z.sub_diag, Z.mul_1_r.
    unfold Y in RY.
    replace (-44 - e')%Z with ((-44 - e) + (e - e'))%Z by lia.
    rewrite Z.pow_add_r by lia.
    assert (0 < 2 ^ (e - e'))%Z by (apply Z.pow_pos_nonneg; lia).
    nia.
Qed.

Lemma fmod_360_bound (x : float) :
  is_nan (fmod x 360) = true \/ (abs (fmod x 360) <? 360) = true.
Proof.
  unfold fmod.
  destruct (is_nan x || is_nan 360 || is_infinity x || is_zero 360); [now left|].
  change (is_infinity 360) with false. cbv iota.
  destruct (abs x <? abs 360) eqn:G; [now right|].
  pose proof (Prim2SF_valid x) as V.
  change (Prim2SF 360) with (S754_finite false 6333186975989760 (-44)).
  destruct (Prim2SF x) as [s|s| |s m e]; try (now left).
  right. now apply fmod_finite_360_bound.
Qed.

(** The results of [a % 360]: NaN, [+0], or a positive number. *)
Lemma ltb_shape_pos (m : float) :
  (0 <? m) = true -> signed_nonzero false (Prim2SF m).
Proof.
  rewrite ltb_spec. change (Prim2SF 0) with (S754_zero false).
  unfold signed_nonzero.
  destruct (Prim2SF m) as [s|s| |s p e]; cbn; try discriminate;
    destruct s; try discriminate; eauto.
Qed.

Lemma ltb_shape_neg (m : float) :
  (m <? 0) = true -> signed_nonzero true (Prim2SF m).
Proof.
  rewrite ltb_spec. change (Prim2SF 0) with (S754_zero false).
  unfold signed_nonzero.
  destruct (Prim2SF m) as [s|s| |s p e]; cbn; try discriminate;
    destruct s; try discriminate; eauto.
Qed.

Lemma rem360_shape (a : float) :
  Prim2SF (rem360 a) = S754_nan \/ nonneg_shape (Prim2SF (rem360 a)).
Proof.
  unfold rem360. cbv zeta.
  destruct (fmod_360_bound a) as [N|B].
  { apply is_nan_spec in N.
    assert (E : fmod a 360 = nan) by (apply Prim2SF_inj; rewrite N; reflexivity).
    rewrite E. left. reflexivity. }
  destruct (fmod a 360 =? 0) eqn:Z; cbn [negb].
  { right. left. reflexivity. }
  destruct (fmod a 360 <? 0) eqn:L.
  - right. right.
    rewrite add_spec, SFadd_as_sub.
    rewrite ltb_spec, abs_spec in B.
    pose proof (Prim2SF_valid (fmod a 360)) as V.
    destruct (ltb_shape_neg _ L) as [E|[p [e E]]]; rewrite E in *.
    + discriminate B.
    + apply (SFsub_lt (S754_finite false p e) (Prim2SF 360)).
      * exact V.
      * apply Prim2SF_valid.
      * cbn [SFabs] in B. unfold SFltb in B.
        destruct (SFcompare _ _) as [[]|]; congruence.
  - rewrite ltb_spec in L. rewrite eqb_spec in Z.
    change (Prim2SF 0) with (S754_zero false) in *.
    unfold nonneg_shape, signed_nonzero.
    destruct (Prim2SF (fmod a 360)) as [s|s| |s p e]; auto;
      destruct s; try discriminate; eauto 6.
Qed.

Lemma rem360_fixed (r : float) :
  nonneg_shape (Prim2SF r) -> (r <? 360) = true -> rem360 r = r.
Proof.
  intros S L.
  assert (A : abs r = r).
  { apply Prim2SF_inj. rewrite abs_spec.
    destruct S as [->|[->|[m [e ->]]]]; reflexivity. }
  assert (Hn : is_nan r = false).
  { apply is_nan_false. destruct S as [->|[->|[m [e ->]]]]; discriminate. }
  assert (Hi : is_infinity r = false).
  { unfold is_infinity. rewrite A, eqb_spec. rewrite ltb_spec in L.
    change (Prim2SF 360) with (S754_finite false 6333186975989760 (-44)) in L.
    destruct S as [->|[E|[m [e ->]]]]; try reflexivity.
    rewrite E in L. discriminate L. }
  assert (F : fmod r 360 = r).
  { unfold fmod. rewrite Hn, Hi.
    change (false || is_nan 360 || false || is_zero 360) with false.
    change (is_infinity 360) with false. change (abs 360) with 360.
    cbv iota. now rewrite A, L. }
  unfold rem360. rewrite F. cbv zeta.
  destruct (r =? 0) eqn:Z; cbn [negb].
  - apply is_zero_spec in Z. destruct Z as [s Z].
    apply Prim2SF_inj. rewrite Z.
    destruct S as [E|[E|[m [e E]]]]; rewrite E in Z; try discriminate.
    now rewrite <- Z.
  - replace (r <? 0) with false; [reflexivity|].
    symmetry. rewrite ltb_spec. change (Prim2SF 0) with (S754_zero false).
    destruct S as [->|[->|[m [e ->]]]]; reflexivity.
Qed.

Lemma rem360_idem (a : float) :
  (rem360 a <? 360) = true -> rem360 (rem360 a) = rem360 a.
Proof.
  intros L. apply rem360_fixed; [|exact L].
  destruct (rem360_shape a) as [N|S]; [|exact S].
  rewrite ltb_spec, N in L. discriminate L.
Qed.

(** ** Facts about [math.atan2] *)

(** What the tests of [m_atan2] answer on a number of known sign. *)
Lemma signed_tests (s : bool) (x : float) :
  signed_nonzero s (Prim2SF x) ->
  is_nan x = false /\ (x =? 0) = false /\ get_sign x = s.
Proof.
  intros S.
  assert (N : is_nan x = false)
    by (apply is_nan_false; destruct S as [->|[m [e ->]]]; discriminate).
  assert (Z : (x =? 0) = false).
  { rewrite eqb_spec. change (Prim2SF 0) with (S754_zero false).
    destruct S as [->|[m [e ->]]]; now destruct s. }
  repeat split; try assumption.
  unfold get_sign, is_zero. change zero with 0. rewrite Z, ltb_spec.
  change (Prim2SF 0) with (S754_zero false).
  destruct S as [->|[m [e ->]]]; now destruct s.
Qed.

Lemma opp_neg_pos (a : float) : (a <? 0) = true -> (0 <? - a) = true.
Proof.
  intros H. apply ltb_shape_neg in H.
  rewrite ltb_spec, opp_spec. change (Prim2SF 0) with (S754_zero false).
  destruct H as [->|[m [e ->]]]; reflexivity.
Qed.

Lemma opp_pos_neg (a : float) : (0 <? a) = true -> (- a <? 0) = true.
Proof.
  intros H. apply ltb_shape_pos in H.
  rewrite ltb_spec, opp_spec. change (Prim2SF 0) with (S754_zero false).
  destruct H as [->|[m [e ->]]]; reflexivity.
Qed.

Section Atan2.
Variable libm_atan2 : float -> float -> float.
Hypothesis libm_ok : libm_finite libm_atan2.

Lemma atan2_returns (y x : float) :
  math.atan2 libm_atan2 y x = Ok (math.m_atan2 libm_atan2 y x).
Proof.
  unfold math.atan2, math.m_atan2.
  destruct (is_nan x) eqn:Nx; [now rewrite !andb_false_r|].
  destruct (is_nan y) eqn:Ny; [now rewrite !andb_false_r|].
  simpl orb.
  destruct (is_infinity y) eqn:Iy.
  { destruct (is_infinity x) eqn:Ix; [destruct (copysign 1 x =? 1)|];
      unfold copysign; destruct (get_sign y); reflexivity. }
  destruct (is_infinity x) eqn:Ix.
  { simpl orb. destruct (copysign 1 x =? 1);
      unfold copysign; destruct (get_sign y); reflexivity. }
  simpl orb.
  destruct (y =? 0) eqn:Zy.
  { destruct (copysign 1 x =? 1);
      unfold copysign; destruct (get_sign y); reflexivity. }
  assert (F : is_finite (libm_atan2 y x) = true).
  { apply libm_ok; unfold is_finite; now rewrite ?Nx, ?Ny, ?Ix, ?Iy. }
  unfold is_finite in F. apply negb_true_iff, orb_false_iff in F.
  destruct F as [F1 F2]. now rewrite F1, F2.
Qed.

Lemma compute_angle_returns (center needle_tip : float * float) :
  compute_angle libm_atan2 center needle_tip =
  Ok (math.degrees (math.m_atan2 libm_atan2 (- (snd needle_tip - snd center))
                                 (fst needle_tip - fst center))).
Proof. unfold compute_angle. now rewrite atan2_returns. Qed.
End Atan2.

Section Axes.
Variable libm_atan2 : float -> float -> float.
Hypothesis libm_axis : libm_vertical libm_atan2.

Lemma atan2_up (y : float) :
  (0 <? y) = true -> math.atan2 libm_atan2 y 0 = Ok (0.5 * math.pi).
Proof.
  intros H.
  destruct (signed_tests _ _ (ltb_shape_pos _ H)) as [N [Z G]].
  assert (R : math.m_atan2 libm_atan2 y 0 = 0.5 * math.pi).
  { unfold math.m_atan2, copysign. rewrite N, Z, G.
    change (is_nan 0) with false. change (is_infinity 0) with false.
    cbn [orb]. destruct (is_infinity y); [reflexivity|].
    now apply (libm_axis y 0). }
  unfold math.atan2. rewrite R. reflexivity.
Qed.

Lemma atan2_down (y : float) :
  (y <? 0) = true -> math.atan2 libm_atan2 y 0 = Ok (- (0.5 * math.pi)).
Proof.
  intros H.
  destruct (signed_tests _ _ (ltb_shape_neg _ H)) as [N [Z G]].
  assert (R : math.m_atan2 libm_atan2 y 0 = - (0.5 * math.pi)).
  { unfold math.m_atan2, copysign. rewrite N, Z, G.
    change (is_nan 0) with false. change (is_infinity 0) with false.
    cbn [orb]. destruct (is_infinity y); [reflexivity|].
    now apply (libm_axis y 0). }
  unfold math.atan2. rewrite R. reflexivity.
Qed.
End Axes.

Lemma atan2_right (libm : float -> float -> float) (x : float) :
(0 <? x) = true -> math.atan2 libm (-0) x = Ok (-0).
Proof.
intros H.
destruct (signed_tests _ _ (ltb_shape_pos _ H)) as [N [Z G]].
assert (R : math.m_atan2 libm (-0) x = -0).
{ unfold math.m_atan2, copysign. rewrite N, G.
  change (is_nan (-0)) with false. change (is_infinity (-0)) with false.
  change (-0 =? 0) with true. rewrite orb_true_r. reflexivity. }
unfold math.atan2. rewrite R. reflexivity.
Qed.

Lemma atan2_left (libm : float -> float -> float) (x : float) :
(x <? 0) = true -> math.atan2 libm (-0) x = Ok (- math.pi).
Proof.
intros H.
destruct (signed_tests _ _ (ltb_shape_neg _ H)) as [N [Z G]].
assert (R : math.m_atan2 libm (-0) x = - math.pi).
{ unfold math.m_atan2, copysign. rewrite N, G.
  change (is_nan (-0)) with false. change (is_infinity (-0)) with false.
  change (-0 =? 0) with true. rewrite orb_true_r. reflexivity. }
unfold math.atan2. rewrite R. reflexivity.
Qed.

(** ** Facts about the reader *)

Lemma gauge_value_ok (self : GaugeReader) (angle : float) :
  angle_to_value self angle = Ok (gauge_value self angle).
Proof. apply angle_to_value_cases. Qed.

Section ReaderFacts.
Variable libm_atan2 : float -> float -> float.
Variable py_round : float -> Z -> float.
Hypothesis libm_ok : libm_finite libm_atan2.

Lemma conf_test (c : float) :
  within 0 1 c = true -> (c <? 0.3) = negb (0.3 <=? c).
Proof.
  unfold within. intros H. apply andb_true_iff in H. destruct H as [H _].
  apply leb_not_nan in H. destruct H as [_ H].
  now apply ltb_false_leb.
Qed.

Lemma read_detection_spec (self : GaugeReader) (det : detection) :
  well_formed det ->
  read_detection libm_atan2 py_round self det =
  Ok (if passes det then Some (reading_of libm_atan2 py_round self det) else None).
Proof.
  unfold well_formed, read_detection, passes, reading_of.
  destruct (keypoints det) as [|kp0 [|kp1 rest]]; intros W; try reflexivity.
  inversion W as [|? ? W0 W']; subst. inversion W' as [|? ? W1 _]; subst.
  cbn [List.length Nat.ltb Nat.leb index nth_error bind nth].
  rewrite (conf_test _ W0), (conf_test _ W1).
  destruct (0.3 <=? snd kp0), (0.3 <=? snd kp1); try reflexivity.
  cbn [negb orb andb].
  rewrite (compute_angle_returns _ libm_ok).
  cbn [bind]. rewrite gauge_value_ok. reflexivity.
Qed.

Lemma read_detections_spec (self : GaugeReader) (dets : list detection) :
  Forall well_formed dets ->
  forall readings,
    read_detections libm_atan2 py_round self dets readings =
    Ok (readings ++ map (reading_of libm_atan2 py_round self) (filter passes dets)).
Proof.
  induction 1 as [|det rest W _ IH]; intros readings; cbn [read_detections filter].
  - now rewrite app_nil_r.
  - rewrite (read_detection_spec _ _ W). cbn [bind].
    destruct (passes det); rewrite IH; [|reflexivity].
    now rewrite <- app_assoc.
Qed.

(** Totality does not need the detector's contract. *)
Lemma read_detection_returns (self : GaugeReader) (det : detection) :
  returns (read_detection libm_atan2 py_round self det).
Proof.
  unfold read_detection, returns.
  destruct (keypoints det) as [|kp0 [|kp1 rest]]; try (eexists; reflexivity).
  cbn [List.length Nat.ltb Nat.leb index nth_error bind].
  destruct (_ || _); [eexists; reflexivity|].
  rewrite (compute_angle_returns _ libm_ok).
  cbn [bind]. rewrite gauge_value_ok. eexists; reflexivity.
Qed.

Lemma read_detections_returns (self : GaugeReader) (dets : list detection) :
  forall readings, returns (read_detections libm_atan2 py_round self dets readings).
Proof.
  induction dets as [|det rest IH]; intros readings; cbn [read_detections].
  - now exists readings.
  - destruct (read_detection_returns self det) as [[r|] E]; rewrite E; apply IH.
Qed.
End ReaderFacts.
Lemma compute_angle_same (libm : float -> float -> float) (p : float * float) :
  is_finite (fst p) = true -> is_finite (snd p) = true ->
  compute_angle libm p p = Ok (-0).
Proof.
  intros Hx Hy. unfold compute_angle.
  rewrite (sub_diag _ Hx), (sub_diag _ Hy). reflexivity.
Qed.

(** ** Order, ranges and exact arithmetic *)

(** *** Degrees of an angle of [[-pi, pi]] *)

Lemma SFleb_fin_cases (m1 : positive) (e1 : Z) (m2 : positive) (e2 : Z) :
  SFleb (S754_finite false m1 e1) (S754_finite false m2 e2) = true ->
  (e1 < e2 \/ (e1 = e2 /\ Z.pos m1 <= Z.pos m2))%Z.
Proof.
  unfold SFleb. cbn [SFcompare].
  destruct (Z.compare_spec e1 e2) as [E|L|G]; intros H; try discriminate; auto.
  right. split; [exact E|].
  change (Z.pos m1 <= Z.pos m2)%Z with ((m1 ?= m2)%positive <> Gt).
  unfold Pos.compare. destruct (Pos.compare_cont Eq m1 m2); congruence.
Qed.

(** The magnitude of [r * (180 / pi)] for [|r| <= pi]. *)
Lemma degrees_magnitude (sr : bool) (mr : positive) (er : Z) :
  valid_binary (S754_finite sr mr er) = true ->
  SFleb (S754_finite false mr er) (Prim2SF math.pi) = true ->
  SF64mul (S754_finite sr mr er) (Prim2SF math.radToDeg) = S754_zero sr \/
  exists m e,
    SF64mul (S754_finite sr mr er) (Prim2SF math.radToDeg) = S754_finite sr m e /\
    SFleb (S754_finite false m e) (Prim2SF 180) = true.
Proof.
  change (Prim2SF math.pi) with (S754_finite false 7074237752028440 (-51)).
  change (Prim2SF math.radToDeg) with (S754_finite false 8063664102031864 (-47)).
  change (Prim2SF 180) with (S754_finite false 6333186975989760 (-45)).
  intros V L. destruct (valid_finite _ _ _ V) as [C B].
  apply SFleb_fin_cases in L.
  unfold SF64mul, SFmul. rewrite xorb_false_r.
  destruct (round_aux_le sr (mr * 8063664102031864) (er + -47)
              6333186975989760 (-45) (er + -47)) as [Z|[m [e [R [_ Le]]]]];
    try lia; try reflexivity; [ | |now left|right; eauto].
  - apply mul_shift_ok; [exact C|reflexivity].
  - rewrite Z.sub_diag, Pos2Z.inj_mul. change (2 ^ 0)%Z with 1%Z.
    replace (-45 - (er + -47))%Z with (2 - er)%Z by lia.
    destruct L as [L|[E L]].
    + destruct (digits_bounds mr) as [_ U].
      assert (2 ^ digits mr <= 2 ^ 53)%Z by (apply Z.pow_le_mono_r; lia).
      assert (2 ^ 54 <= 2 ^ (2 - er))%Z by (apply Z.pow_le_mono_r; lia).
      change (2 ^ 53)%Z with 9007199254740992%Z in *.
      change (2 ^ 54)%Z with 18014398509481984%Z in *.
      nia.
    + subst er. change (2 ^ (2 - -51))%Z with 9007199254740992%Z. lia.
Qed.

Lemma degrees_within (r : float) :
  within (- math.pi) math.pi r = true ->
  within (-180) 180 (math.degrees r) = true.
Proof.
  unfold within, math.degrees. rewrite !andb_true_iff, !leb_spec, mul_spec.
  pose proof (Prim2SF_valid r) as V.
  change (Prim2SF (- math.pi)) with (S754_finite true 7074237752028440 (-51)).
  change (Prim2SF (-180)) with (S754_finite true 6333186975989760 (-45)).
  intros [L1 L2].
  destruct (Prim2SF r) as [s|s| |s m e] eqn:E.
  - now destruct s.
  - destruct s; discriminate.
  - discriminate.
  - assert (M : SFleb (S754_finite false m e) (Prim2SF math.pi) = true).
    { destruct s; [|exact L2]. now rewrite SFleb_neg in L1. }
    destruct (degrees_magnitude s m e V M) as [Z|[m' [e' [R Le]]]].
    + rewrite Z. now destruct s.
    + rewrite R. destruct s.
      * split; [|reflexivity]. now rewrite SFleb_neg.
      * split; [reflexivity|exact Le].
Qed.

(** *** The range of [compute_angle] *)

Lemma within_pi_finite (r : float) :
  within (- math.pi) math.pi r = true -> is_finite r = true.
Proof.
  unfold within. rewrite andb_true_iff, !leb_spec, is_finite_spec.
  change (Prim2SF (- math.pi)) with (S754_finite true 7074237752028440 (-51)).
  change (Prim2SF math.pi) with (S754_finite false 7074237752028440 (-51)).
  intros [L1 L2].
  destruct (Prim2SF r) as [s|s| |s m e]; eauto 6; try discriminate.
  destruct s; discriminate.
Qed.

Lemma libm_range_finite (libm : float -> float -> float) :
  libm_range libm -> libm_finite libm.
Proof. intros H y x Fy Fx. apply within_pi_finite. now apply H. Qed.

Lemma m_atan2_within (libm : float -> float -> float) (y x : float) :
  libm_range libm -> is_nan y = false -> is_nan x = false ->
  within (- math.pi) math.pi (math.m_atan2 libm y x) = true.
Proof.
  intros Hr Ny Nx. unfold math.m_atan2. rewrite Ny, Nx. cbn [orb].
  destruct (is_infinity y) eqn:Iy.
  { destruct (is_infinity x) eqn:Ix; [destruct (copysign 1 x =? 1)|];
      unfold copysign; destruct (get_sign y); reflexivity. }
  destruct (is_infinity x) eqn:Ix.
  { cbn [orb]. destruct (copysign 1 x =? 1);
      unfold copysign; destruct (get_sign y); reflexivity. }
  cbn [orb].
  destruct (y =? 0) eqn:Zy.
  { destruct (copysign 1 x =? 1);
      unfold copysign; destruct (get_sign y); reflexivity. }
  apply Hr; unfold is_finite; now rewrite ?Nx, ?Ny, ?Ix, ?Iy.
Qed.

Lemma sub_not_nan (x y : float) :
  is_finite x = true -> is_finite y = true -> is_nan (x - y) = false.
Proof.
  rewrite !is_finite_spec, is_nan_false, sub_spec.
  pose proof (Prim2SF_valid x) as Vx. pose proof (Prim2SF_valid y) as Vy.
  intros [[sx Ex]|[sx [mx [ex Ex]]]] [[sy Ey]|[sy [my [ey Ey]]]];
    rewrite Ex, Ey in *; try (destruct sx, sy; discriminate); try discriminate.
  destruct (valid_finite _ _ _ Vx) as [Cx _], (valid_finite _ _ _ Vy) as [Cy _].
  unfold SF64sub, SFsub. cbv zeta.
  match goal with |- binary_normalize _ _ ?n _ _ <> _ => destruct n as [|p|p] end;
    cbn [binary_normalize]; try discriminate.
  - destruct (binary_round_sign false p (Z.min ex ey) ltac:(lia)) as [->|[m [e ->]]];
      discriminate.
  - destruct (binary_round_sign true p (Z.min ex ey) ltac:(lia)) as [->|[m [e ->]]];
      discriminate.
Qed.

Lemma opp_not_nan (x : float) : is_nan x = false -> is_nan (- x) = false.
Proof.
  rewrite !is_nan_false, opp_spec. destruct (Prim2SF x); cbn; congruence.
Qed.

Lemma compute_angle_range (libm : float -> float -> float)
    (c t : float * float) :
  libm_range libm ->
  is_finite (fst c) = true -> is_finite (snd c) = true ->
  is_finite (fst t) = true -> is_finite (snd t) = true ->
  exists a, compute_angle libm c t = Ok a /\ within (-180) 180 a = true.
Proof.
  intros Hr Fcx Fcy Ftx Fty.
  rewrite (compute_angle_returns libm (libm_range_finite _ Hr)).
  eexists. split; [reflexivity|].
  apply degrees_within, m_atan2_within; [exact Hr| |].
  - now apply opp_not_nan, sub_not_nan.
  - now apply sub_not_nan.
Qed.

(** *** Sums and products of non-negative numbers *)

(** The shape of a number [p] with [0 <= p]. *)
Lemma leb_zero_shape (p : float) :
  (0 <=? p) = true ->
  (exists s, Prim2SF p = S754_zero s) \/ signed_nonzero false (Prim2SF p).
Proof.
  rewrite leb_spec. change (Prim2SF 0) with (S754_zero false).
  unfold signed_nonzero.
  destruct (Prim2SF p) as [s|s| |s m e]; cbn; try discriminate; eauto;
    destruct s; try discriminate; eauto 6.
Qed.

Lemma shape_leb_zero (X : spec_float) :
  (exists s, X = S754_zero s) \/ signed_nonzero false X ->
  SFleb (S754_zero false) X = true.
Proof. intros [[s ->]|[->|[m [e ->]]]]; reflexivity. Qed.

Lemma SFleb_refl (X : spec_float) : X <> S754_nan -> SFleb X X = true.
Proof. intros H. unfold SFleb. now rewrite SFcompare_refl. Qed.

(** Adding a non-negative number does not take a finite number down. *)
Lemma add_nonneg_ge (x p : float) :
  is_finite x = true -> (0 <=? p) = true -> (x <=? x + p) = true.
Proof.
  intros Fx Hp. apply leb_zero_shape in Hp.
  rewrite leb_spec, add_spec.
  pose proof (Prim2SF_valid x) as Vx. pose proof (Prim2SF_valid p) as Vp.
  apply is_finite_spec in Fx.
  destruct Fx as [[sx Ex]|[sx [mx [ex Ex]]]]; rewrite Ex in *;
    destruct Hp as [[sp Ep]|[Ep|[mp [ep Ep]]]]; rewrite Ep in *;
    try (destruct sx, sp; reflexivity); try (destruct sx; reflexivity).
  - cbn [SF64add SFadd]. apply SFleb_refl. discriminate.
  - destruct (valid_finite _ _ _ Vx) as [Cx Bx], (valid_finite _ _ _ Vp) as [Cp Bp].
    unfold SF64add, SFadd. cbv zeta.
    destruct (shl_align_value mx ex (Z.min ex ep) ltac:(lia)) as [Ax _];
      destruct (shl_align_value mp ep (Z.min ex ep) ltac:(lia)) as [Ap _].
    rewrite Ax, Ap. cbn [cond_Zopp].
    assert (Pa : (0 < Z.pos mx * 2 ^ (ex - Z.min ex ep))%Z)
      by (apply Z.mul_pos_pos; [lia|apply Z.pow_pos_nonneg; lia]).
    assert (Pb : (0 < Z.pos mp * 2 ^ (ep - Z.min ex ep))%Z)
      by (apply Z.mul_pos_pos; [lia|apply Z.pow_pos_nonneg; lia]).
    destruct sx; cbn [cond_Zopp].
    + match goal with |- SFleb _ (binary_normalize _ _ ?n _ _) = _ =>
        destruct n as [|q|q] eqn:N end; cbn [binary_normalize].
      * reflexivity.
      * destruct (binary_round_sign false q (Z.min ex ep) ltac:(lia)) as [->|[m [e ->]]];
          reflexivity.
      * destruct (round_le true q (Z.min ex ep) mx ex (Z.min ex ep))
          as [->|[m [e [-> [_ L]]]]]; try lia; try exact Vx; try reflexivity.
        -- rewrite Z.sub_diag. change (2 ^ 0)%Z with 1%Z. lia.
        -- now rewrite SFleb_neg.
    + match goal with |- SFleb _ (binary_normalize _ _ ?n _ _) = _ =>
        destruct n as [|q|q] eqn:N end; cbn [binary_normalize]; try lia.
      destruct (round_ge false q (Z.min ex ep) mx ex (Z.min ex ep))
        as [->|[m [e [-> [_ L]]]]]; try lia; try exact Vx; try reflexivity.
      * rewrite Z.sub_diag. change (2 ^ 0)%Z with 1%Z. lia.
      * exact L.
Qed.

(** The product of two finite non-negative numbers is a non-negative
    number. *)
Lemma mul_nonneg (a b : float) :
  is_finite a = true -> is_finite b = true ->
  (0 <=? a) = true -> (0 <=? b) = true -> (0 <=? a * b) = true.
Proof.
  intros Fa Fb Ha Hb. apply leb_zero_shape in Ha, Hb.
  rewrite leb_spec, mul_spec. change (Prim2SF 0) with (S754_zero false).
  pose proof (Prim2SF_valid a) as Va. pose proof (Prim2SF_valid b) as Vb.
  apply is_finite_spec in Fa, Fb.
  destruct Fa as [[sa Ea]|[sa [ma [ea Ea]]]]; rewrite Ea in *;
    destruct Fb as [[sb Eb]|[sb [mb [eb Eb]]]]; rewrite Eb in *;
    try reflexivity.
  assert (Sa : sa = false) by (destruct Ha as [[s H]|[H|[m [e H]]]]; congruence).
  assert (Sb : sb = false) by (destruct Hb as [[s H]|[H|[m [e H]]]]; congruence).
  subst sa sb.
  destruct (valid_finite _ _ _ Va) as [Ca _], (valid_finite _ _ _ Vb) as [Cb _].
  unfold SF64mul, SFmul. cbn [xorb].
  destruct (round_aux_structure false (ma * mb) (ea + eb) (mul_shift_ok _ _ _ _ Ca Cb))
    as [r [_ [[_ ->]|[m [e [_ [_ [_ ->]]]]]]]]; [reflexivity|].
  now destruct (e <=? 971)%Z.
Qed.

(** The difference of two ordered numbers, when finite, is non-negative. *)
Lemma sub_nonneg (x y : float) :
  (x <=? y) = true -> is_finite (y - x) = true -> (0 <=? y - x) = true.
Proof.
  intros L F.
  destruct (x <? y) eqn:Lt.
  { apply ltb_leb. now apply ltb_sub. }
  rewrite leb_spec in L. rewrite ltb_spec in Lt. unfold SFleb in L. unfold SFltb in Lt.
  rewrite is_finite_spec, sub_spec in F.
  rewrite leb_spec, sub_spec. change (Prim2SF 0) with (S754_zero false).
  destruct (Prim2SF x) as [sx|sx| |sx mx ex], (Prim2SF y) as [sy|sy| |sy my ey];
    try discriminate;
    try (destruct sx, sy; try discriminate; try reflexivity;
         destruct F as [[s F]|[s [m [e F]]]]; discriminate);
    try (destruct sx; discriminate); try (destruct sy; discriminate).
  cbn [SFcompare] in L, Lt.
  assert (E : sx = sy /\ ex = ey /\ mx = my).
  { destruct sx, sy; try discriminate;
      destruct (Z.compare_spec ex ey); try discriminate;
      destruct (Pos.compare_cont Eq mx my) eqn:P; try discriminate;
      apply Pos.compare_eq in P; auto. }
  destruct E as [-> [-> ->]].
  unfold SF64sub, SFsub. now rewrite Z.sub_diag.
Qed.

Lemma within_unit_finite (f : float) :
  within 0 1 f = true -> is_finite f = true /\ (0 <=? f) = true.
Proof.
  unfold within. rewrite andb_true_iff. intros [L U]. split; [|exact L].
  rewrite leb_spec in L, U. rewrite is_finite_spec.
  change (Prim2SF 0) with (S754_zero false) in L.
  change (Prim2SF 1) with (S754_finite false 4503599627370496 (-52)) in U.
  destruct (Prim2SF f) as [s|s| |s m e]; eauto 6; try discriminate.
  destruct s; discriminate.
Qed.

Lemma leb_refl_finite (x : float) : is_finite x = true -> (x <=? x) = true.
Proof.
  intros F. rewrite leb_spec. apply SFleb_refl.
  apply is_nan_false. unfold is_finite in F.
  apply negb_true_iff, orb_false_iff in F. tauto.
Qed.

(** *** The range of [a % 360] *)

Lemma rem360_upper (a : float) :
  is_nan (rem360 a) = false -> (rem360 a <=? 360) = true.
Proof.
  unfold rem360. cbv zeta.
  destruct (fmod_360_bound a) as [N|B].
  { apply is_nan_spec in N.
    assert (E : fmod a 360 = nan) by (apply Prim2SF_inj; rewrite N; reflexivity).
    rewrite E. discriminate. }
  intros _.
  destruct (fmod a 360 =? 0) eqn:Z; cbn [negb]; [reflexivity|].
  pose proof (Prim2SF_valid (fmod a 360)) as V.
  destruct (fmod a 360 <? 0) eqn:L.
  - rewrite leb_spec, add_spec.
    rewrite ltb_spec, abs_spec in B.
    change (Prim2SF 360) with (S754_finite false 6333186975989760 (-44)) in *.
    destruct (ltb_shape_neg _ L) as [E|[p [e E]]]; rewrite E in *; [discriminate B|].
    destruct (valid_finite _ _ _ V) as [C _].
    cbn [SFabs] in B. unfold SFltb in B. cbn [SFcompare] in B.
    assert (O : (e < -44 \/ (e = -44 /\ Z.pos p < 6333186975989760))%Z).
    { apply compare_fin_lt. destruct (e ?= -44)%Z; try discriminate; try reflexivity.
      destruct (Pos.compare_cont Eq p 6333186975989760); try discriminate; reflexivity. }
    apply (canonical_lt p e 6333186975989760 (-44) C eq_refl) in O.
    unfold SF64add, SFadd. cbv zeta.
    destruct (shl_align_value p e (Z.min e (-44)) ltac:(lia)) as [Ap _];
      destruct (shl_align_value 6333186975989760 (-44) (Z.min e (-44)) ltac:(lia)) as [Ay _].
    rewrite Ap, Ay. cbn [cond_Zopp].
    match goal with |- SFleb (binary_normalize _ _ ?n _ _) _ = _ =>
      destruct n as [|q|q] eqn:N end; cbn [binary_normalize]; try lia.
    destruct (round_le false q (Z.min e (-44)) 6333186975989760 (-44) (Z.min e (-44)))
      as [->|[m [e' [-> [_ Le]]]]]; try lia; try reflexivity.
    + rewrite Z.sub_diag. change (2 ^ 0)%Z with 1%Z. lia.
    + exact Le.
  - apply ltb_leb.
    replace (fmod a 360) with (abs (fmod a 360)) at 1; [exact B|].
    apply Prim2SF_inj. rewrite abs_spec.
    rewrite ltb_spec in L. rewrite eqb_spec in Z. rewrite ltb_spec, abs_spec in B.
    change (Prim2SF 0) with (S754_zero false) in *.
    destruct (Prim2SF (fmod a 360)) as [s|s| |s p e]; try discriminate; try reflexivity;
      destruct s; try discriminate; reflexivity.
Qed.

Lemma leb_neq_ltb (x y : float) :
  (x <=? y) = true -> (x =? y) = false -> (x <? y) = true.
Proof.
  rewrite leb_spec, eqb_spec, ltb_spec. unfold SFleb, SFeqb, SFltb.
  destruct (SFcompare _ _) as [[]|]; congruence.
Qed.

Lemma rem360_range (a : float) :
  is_nan (rem360 a) = true \/ within 0 360 (rem360 a) = true.
Proof.
  destruct (is_nan (rem360 a)) eqn:N; [now left|right].
  unfold within. rewrite (rem360_upper _ N), andb_true_r.
  destruct (rem360_shape a) as [E|S].
  - apply is_nan_spec in E. congruence.
  - rewrite leb_spec. apply shape_leb_zero.
    destruct S as [->|S]; [left; eauto|now right].
Qed.

Lemma rem360_idem_unless_360 (a : float) :
  (rem360 a =? 360) = false -> rem360 (rem360 a) = rem360 a.
Proof.
  intros H. destruct (is_nan (rem360 a)) eqn:N.
  - apply is_nan_spec in N.
    assert (E : rem360 a = nan) by (apply Prim2SF_inj; rewrite N; reflexivity).
    rewrite E. reflexivity.
  - apply rem360_idem, leb_neq_ltb; [now apply rem360_upper|exact H].
Qed.

(** *** Dyadic numbers: exact sums and remainders *)

Lemma SFleb_antisym_fin (m1 : positive) (e1 : Z) (m2 : positive) (e2 : Z) :
  SFleb (S754_finite false m1 e1) (S754_finite false m2 e2) = true ->
  SFleb (S754_finite false m2 e2) (S754_finite false m1 e1) = true ->
  m1 = m2 /\ e1 = e2.
Proof.
  intros H1 H2. apply SFleb_fin_cases in H1, H2.
  destruct H1 as [L1|[E1 L1]], H2 as [L2|[E2 L2]]; lia.
Qed.

(** A value that has a canonical representation is rounded to it. *)
Lemma round_exact (s : bool) (N : positive) (e : Z) (m : positive) (f c : Z) :
  valid_binary (S754_finite false m f) = true ->
  (c <= e)%Z -> (c <= f)%Z ->
  (Z.pos N * 2 ^ (e - c) = Z.pos m * 2 ^ (f - c))%Z ->
  binary_round prec emax s N e = S754_finite s m f.
Proof.
  intros V L1 L2 H.
  destruct (round_le s N e m f c V L1 L2 ltac:(lia)) as [Z|[m1 [e1 [R1 [_ Le]]]]];
    destruct (round_ge s N e m f c V L1 L2 ltac:(lia)) as [I|[m2 [e2 [R2 [_ Ge]]]]];
    try congruence.
  assert (m2 = m1 /\ e2 = e1) as [-> ->] by (split; congruence).
  destruct (SFleb_antisym_fin _ _ _ _ Le Ge) as [-> ->]. exact R1.
Qed.

Lemma dyadic_zero (c : Z) : dyadic 0 c = 0.
Proof. reflexivity. Qed.

(** The canonical form of [n * 2^c] for a mantissa [n] of at most 53 bits. *)
Lemma dyadic_spec (n c : Z) :
  (n <> 0)%Z -> (Z.abs n < 2 ^ 53)%Z -> (-1074 <= c <= 971)%Z ->
  exists m f,
    Prim2SF (dyadic n c) = S754_finite (n <? 0)%Z m f /\
    valid_binary (S754_finite false m f) = true /\
    (f <= c)%Z /\ (Z.pos m = Z.abs n * 2 ^ (c - f))%Z.
Proof.
  intros Hn Hb Hc. unfold dyadic.
  destruct n as [|p|p]; [congruence| |]; cbn [binary_normalize Z.ltb Z.compare Z.abs] in *.
  - destruct (binary_round_exact false p c Hc (digits_le_53 _ Hb)) as [m [f [E [V [L P]]]]].
    exists m, f. rewrite E, (Prim2SF_SF2Prim _ V). repeat split; assumption.
  - destruct (binary_round_exact true p c Hc (digits_le_53 _ Hb)) as [m [f [E [V [L P]]]]].
    exists m, f. rewrite E, (Prim2SF_SF2Prim _ V). repeat split; assumption.
Qed.

(** A number whose canonical form has the value [n * 2^c] is [dyadic n c]. *)
Lemma dyadic_of_value (x : float) (n c : Z) (s : bool) (m : positive) (f c' : Z) :
  Prim2SF x = S754_finite s m f ->
  (n <> 0)%Z -> s = (n <? 0)%Z ->
  (c' <= c)%Z -> (c' <= f)%Z ->
  (Z.abs n * 2 ^ (c - c') = Z.pos m * 2 ^ (f - c'))%Z ->
  x = dyadic n c.
Proof.
  intros E Hn Hs L1 L2 H.
  pose proof (Prim2SF_valid x) as V. rewrite E in V.
  rewrite <- (SF2Prim_Prim2SF x), E. unfold dyadic. f_equal. symmetry.
  destruct n as [|p|p]; [congruence| |]; cbn [binary_normalize Z.ltb Z.compare Z.abs] in *;
    subst s; apply (round_exact _ p c m f c'); assumption.
Qed.

Lemma pow2_split (a b : Z) : (0 <= a)%Z -> (0 <= b)%Z -> (2 ^ (a + b) = 2 ^ a * 2 ^ b)%Z.
Proof. intros. now rewrite Z.pow_add_r. Qed.

(** Sums of small dyadic numbers on a common exponent are exact. *)
Lemma add_dyadic (a b c : Z) :
  (Z.abs a < 2 ^ 53)%Z -> (Z.abs b < 2 ^ 53)%Z -> (Z.abs (a + b) < 2 ^ 53)%Z ->
  (-1074 <= c <= 971)%Z ->
  dyadic a c + dyadic b c = dyadic (a + b) c.
Proof.
  intros Ha Hb Hab Hc.
  destruct (Z.eq_dec a 0) as [->|Na].
  { rewrite dyadic_zero. cbn [Z.add].
    destruct (Z.eq_dec b 0) as [->|Nb]; [reflexivity|].
    destruct (dyadic_spec b c Nb Hb Hc) as [m [f [E _]]].
    apply Prim2SF_inj. rewrite add_spec, E. reflexivity. }
  destruct (Z.eq_dec b 0) as [->|Nb].
  { rewrite dyadic_zero, Z.add_0_r.
    destruct (dyadic_spec a c Na Ha Hc) as [m [f [E _]]].
    apply Prim2SF_inj. rewrite add_spec, E. reflexivity. }
  destruct (dyadic_spec a c Na Ha Hc) as [ma [fa [Ea [Va [La Pa]]]]].
  destruct (dyadic_spec b c Nb Hb Hc) as [mb [fb [Eb [Vb [Lb Pb]]]]].
  destruct (valid_finite _ _ _ Va) as [Ca _], (valid_finite _ _ _ Vb) as [Cb _].
  set (ez := Z.min fa fb).
  assert (Sum : Prim2SF (dyadic a c + dyadic b c)
                = binary_normalize prec emax ((a + b) * 2 ^ (c - ez)) ez false).
  { rewrite add_spec, Ea, Eb. unfold SF64add, SFadd. cbv zeta. fold ez.
    destruct (shl_align_value ma fa ez ltac:(unfold ez; lia)) as [Aa _];
      destruct (shl_align_value mb fb ez ltac:(unfold ez; lia)) as [Ab _].
    rewrite Aa, Ab, Pa, Pb. f_equal.
    rewrite <- !Z.mul_assoc, <- !pow2_split by (unfold ez; lia).
    replace (c - fa + (fa - ez))%Z with (c - ez)%Z by lia.
    replace (c - fb + (fb - ez))%Z with (c - ez)%Z by lia.
    destruct (Z.ltb_spec a 0), (Z.ltb_spec b 0); cbn [cond_Zopp]; lia. }
  assert (Pk : (0 < 2 ^ (c - ez))%Z) by (apply Z.pow_pos_nonneg; unfold ez; lia).
  destruct (Z.eq_dec (a + b) 0) as [Z|Nab].
  { apply Prim2SF_inj. rewrite Sum, Z. reflexivity. }
  destruct (dyadic_spec (a + b) c Nab Hab Hc) as [m [f [E [V [L P]]]]].
  apply Prim2SF_inj. rewrite Sum, E.
  destruct ((a + b) * 2 ^ (c - ez))%Z as [|q|q] eqn:N; [nia| |];
    cbn [binary_normalize].
  - replace (a + b <? 0)%Z with false by (symmetry; apply Z.ltb_ge; nia).
    apply (round_exact false q ez m f (Z.min ez f)); try lia; try assumption.
    rewrite P, <- N, Z.abs_eq by nia.
    rewrite <- !Z.mul_assoc, <- !pow2_split by (unfold ez; lia).
    do 2 f_equal. unfold ez. lia.
  - replace (a + b <? 0)%Z with true by (symmetry; apply Z.ltb_lt; nia).
    apply (round_exact true q ez m f (Z.min ez f)); try lia; try assumption.
    assert (Q : (Z.pos q = (- (a + b)) * 2 ^ (c - ez))%Z) by lia.
    rewrite P, Q, Z.abs_neq by nia.
    rewrite <- !Z.mul_assoc, <- !pow2_split by (unfold ez; lia).
    do 2 f_equal. unfold ez. lia.
Qed.

Lemma dyadic_rescale (n c k : Z) :
  (0 <= k)%Z -> (Z.abs (n * 2 ^ k) < 2 ^ 53)%Z ->
  (-1074 <= c)%Z -> (c + k <= 971)%Z ->
  dyadic (n * 2 ^ k) c = dyadic n (c + k).
Proof.
  intros Hk Hb Hc1 Hc2.
  destruct (Z.eq_dec n 0) as [->|Nn]; [reflexivity|].
  assert (Pk : (0 < 2 ^ k)%Z) by (apply Z.pow_pos_nonneg; lia).
  assert (Nk : (n * 2 ^ k <> 0)%Z) by nia.
  destruct (dyadic_spec (n * 2 ^ k) c Nk Hb ltac:(lia)) as [m [f [E [V [L P]]]]].
  apply (dyadic_of_value _ n (c + k) _ m f f E Nn); try lia.
  - rewrite Z.sub_diag, Z.mul_1_r, P, Z.abs_mul, (Z.abs_eq (2 ^ k)) by lia.
    rewrite <- Z.mul_assoc, <- pow2_split by lia. do 2 f_equal. lia.
Qed.

Lemma eqb_dyadic_zero (n c : Z) :
  (Z.abs n < 2 ^ 53)%Z -> (-1074 <= c <= 971)%Z ->
  (dyadic n c =? 0) = (n =? 0)%Z.
Proof.
  intros Hb Hc. destruct (Z.eqb_spec n 0) as [->|Nn]; [reflexivity|].
  destruct (dyadic_spec n c Nn Hb Hc) as [m [f [E _]]].
  rewrite eqb_spec, E. now destruct (n <? 0)%Z.
Qed.

Lemma ltb_dyadic_zero (n c : Z) :
  (Z.abs n < 2 ^ 53)%Z -> (-1074 <= c <= 971)%Z ->
  (dyadic n c <? 0) = (n <? 0)%Z.
Proof.
  intros Hb Hc. destruct (Z.eq_dec n 0) as [->|Nn]; [reflexivity|].
  destruct (dyadic_spec n c Nn Hb Hc) as [m [f [E _]]].
  rewrite ltb_spec, E. now destruct (n <? 0)%Z.
Qed.

Lemma ltb_dyadic (a b c : Z) :
  (0 <= a < 2 ^ 53)%Z -> (0 < b < 2 ^ 53)%Z -> (-1074 <= c <= 971)%Z ->
  (dyadic a c <? dyadic b c) = (a <? b)%Z.
Proof.
  intros Ha Hb Hc.
  destruct (dyadic_spec b c ltac:(lia) ltac:(lia) Hc) as [mb [fb [Eb [Vb [Lb Pb]]]]].
  replace (b <? 0)%Z with false in Eb by (symmetry; apply Z.ltb_ge; lia).
  rewrite Z.abs_eq in Pb by lia.
  rewrite ltb_spec, Eb.
  destruct (Z.eq_dec a 0) as [->|Na].
  { rewrite dyadic_zero. symmetry. apply Z.ltb_lt. lia. }
  destruct (dyadic_spec a c Na ltac:(lia) Hc) as [ma [fa [Ea [Va [La Pa]]]]].
  replace (a <? 0)%Z with false in Ea by (symmetry; apply Z.ltb_ge; lia).
  rewrite Z.abs_eq in Pa by lia.
  rewrite Ea. unfold SFltb.
  assert (S : forall x m f, (Z.min fa fb <= f <= c)%Z ->
              (Z.pos m = x * 2 ^ (c - f))%Z ->
              (Z.pos m * 2 ^ (f - Z.min fa fb) = x * 2 ^ (c - Z.min fa fb))%Z).
  { intros x m f Lf P. rewrite P, <- Z.mul_assoc, <- pow2_split by lia.
    do 2 f_equal. lia. }
  assert (Pk : (0 < 2 ^ (c - Z.min fa fb))%Z) by (apply Z.pow_pos_nonneg; lia).
  destruct (Z.ltb_spec a b) as [L|G].
  - rewrite (canonical_compare_lt ma fa mb fb (Z.min fa fb)); try lia; try assumption.
    rewrite (S a ma fa ltac:(lia) Pa), (S b mb fb ltac:(lia) Pb). nia.
  - assert (Le : SFleb (S754_finite false mb fb) (S754_finite false ma fa) = true).
    { apply (canonical_compare_le mb fb ma fa (Z.min fa fb)); try lia; try assumption.
      rewrite (S a ma fa ltac:(lia) Pa), (S b mb fb ltac:(lia) Pb). nia. }
    unfold SFleb in Le.
    rewrite (SFcompare_antisym (S754_finite false mb fb) (S754_finite false ma fa)).
    destruct (SFcompare (S754_finite false mb fb) (S754_finite false ma fa)) as [[]|];
      try discriminate; reflexivity.
Qed.

Lemma abs_dyadic (n c : Z) :
  (Z.abs n < 2 ^ 53)%Z -> (-1074 <= c <= 971)%Z ->
  abs (dyadic n c) = dyadic (Z.abs n) c.
Proof.
  intros Hb Hc. destruct (Z.eq_dec n 0) as [->|Nn]; [reflexivity|].
  destruct (dyadic_spec n c Nn Hb Hc) as [m [f [E [V [L P]]]]].
  apply (dyadic_of_value _ (Z.abs n) c false m f f); try lia.
  - now rewrite abs_spec, E.
  - rewrite Z.sub_diag, Z.mul_1_r, P, Z.abs_idemp. reflexivity.
Qed.

(** [360] on the exponent [c]. *)
Lemma dyadic_360 (c : Z) :
  (-44 <= c <= 0)%Z -> dyadic (360 * 2 ^ (- c)) c = 360.
Proof.
  intros Hc. symmetry.
  assert (P : (0 < 2 ^ (- c))%Z) by (apply Z.pow_pos_nonneg; lia).
  apply (dyadic_of_value _ _ c false 6333186975989760 (-44) (-44)); try lia.
  - reflexivity.
  - rewrite Z.sub_diag, Z.mul_1_r, Z.abs_eq by lia.
    rewrite <- Z.mul_assoc, <- pow2_split by lia.
    replace (- c + (c - -44))%Z with 44%Z by lia. reflexivity.
Qed.

Lemma dyadic_finite (n c : Z) :
  (Z.abs n < 2 ^ 53)%Z -> (-1074 <= c <= 971)%Z ->
  is_nan (dyadic n c) = false /\ is_infinity (dyadic n c) = false.
Proof.
  intros Hb Hc.
  assert (F : is_finite (dyadic n c) = true).
  { apply is_finite_spec. destruct (Z.eq_dec n 0) as [->|Nn]; [left; now exists false|].
    destruct (dyadic_spec n c Nn Hb Hc) as [m [f [E _]]]. right. eauto. }
  unfold is_finite in F. apply negb_true_iff, orb_false_iff in F. exact F.
Qed.

(** [fmod] by 360 on a dyadic number is the truncating remainder of its
    mantissa. *)
Lemma fmod_dyadic (n c : Z) :
  (Z.abs n < 2 ^ 53)%Z -> (-44 <= c <= 0)%Z ->
  let Q := (360 * 2 ^ (- c))%Z in
  (Z.rem n Q <> 0%Z -> fmod (dyadic n c) 360 = dyadic (Z.rem n Q) c) /\
  (Z.rem n Q = 0%Z -> (fmod (dyadic n c) 360 =? 0) = true).
Proof.
  intros Hb Hc Q.
  assert (P2 : (0 < 2 ^ (- c))%Z) by (apply Z.pow_pos_nonneg; lia).
  assert (HQ : (0 < Q < 2 ^ 53)%Z).
  { unfold Q. split; [lia|].
    assert (2 ^ (- c) <= 2 ^ 44)%Z by (apply Z.pow_le_mono_r; lia).
    change (2 ^ 44)%Z with 17592186044416%Z in *.
    change (2 ^ 53)%Z with 9007199254740992%Z. lia. }
  destruct (dyadic_finite n c Hb ltac:(lia)) as [Nn In].
  unfold fmod. rewrite Nn, In.
  change (false || is_nan 360 || false || is_zero 360) with false.
  change (is_infinity 360) with false. cbv iota.
  change (abs 360) with 360.
  change (Prim2SF 360) with (S754_finite false 6333186975989760 (-44)).
  rewrite abs_dyadic, <- (dyadic_360 c Hc) by lia. fold Q.
  rewrite ltb_dyadic by lia.
  destruct (Z.ltb_spec (Z.abs n) Q) as [Small|Big].
  { assert (R : Z.rem n Q = n) by (apply Z.rem_small_iff; lia).
    rewrite R. split; [reflexivity|].
    intros ->. reflexivity. }
  assert (N0 : n <> 0%Z) by lia.
  destruct (dyadic_spec n c N0 Hb ltac:(lia)) as [m [f [E [V [L P]]]]].
  rewrite E. cbv iota. unfold fmod_finite.
  set (e := Z.min f (-44)).
  assert (K : (0 < 2 ^ (c - e))%Z) by (apply Z.pow_pos_nonneg; unfold e; lia).
  assert (X : (Z.pos m * 2 ^ (f - e) = Z.abs n * 2 ^ (c - e))%Z).
  { rewrite P, <- Z.mul_assoc, <- pow2_split by (unfold e; lia).
    do 2 f_equal. lia. }
  assert (Y : (6333186975989760 * 2 ^ (-44 - e) = Q * 2 ^ (c - e))%Z).
  { unfold Q. change 6333186975989760%Z with (360 * 2 ^ 44)%Z.
    rewrite <- !Z.mul_assoc, <- !pow2_split by (unfold e; lia).
    do 2 f_equal. lia. }
  rewrite X, Y.
  rewrite Z.mul_rem_distr_r by lia.
  rewrite Z.rem_abs_l by lia.
  assert (Sg : cond_Zopp (n <? 0)%Z (Z.abs (Z.rem n Q) * 2 ^ (c - e))
               = (Z.rem n Q * 2 ^ (c - e))%Z).
  { pose proof (Z.rem_sign_mul n Q ltac:(lia)) as S.
    destruct (Z.ltb_spec n 0); cbn [cond_Zopp].
    - rewrite Z.abs_neq by nia. lia.
    - rewrite Z.abs_eq by nia. lia. }
  rewrite Sg.
  pose proof (Z.rem_bound_abs n Q ltac:(lia)) as RB.
  split.
  - intros NR.
    destruct (dyadic_spec (Z.rem n Q) c NR ltac:(lia) ltac:(lia)) as [mr [fr [Er [Vr [Lr Pr]]]]].
    rewrite <- (SF2Prim_Prim2SF (dyadic (Z.rem n Q) c)), Er. f_equal.
    destruct (Z.rem n Q * 2 ^ (c - e))%Z as [|q|q] eqn:Nq; [nia| |];
      cbn [binary_normalize].
    + replace (Z.rem n Q <? 0)%Z with false by (symmetry; apply Z.ltb_ge; nia).
      apply (round_exact false q e mr fr (Z.min e fr)); try lia; try assumption.
      rewrite Pr, <- Nq, Z.abs_eq by nia.
      rewrite <- !Z.mul_assoc, <- !pow2_split by (unfold e; lia).
      do 2 f_equal. unfold e. lia.
    + replace (Z.rem n Q <? 0)%Z with true by (symmetry; apply Z.ltb_lt; nia).
      apply (round_exact true q e mr fr (Z.min e fr)); try lia; try assumption.
      assert (Qq : (Z.pos q = (- Z.rem n Q) * 2 ^ (c - e))%Z) by lia.
      rewrite Pr, Qq, Z.abs_neq by nia.
      rewrite <- !Z.mul_assoc, <- !pow2_split by (unfold e; lia).
      do 2 f_equal. unfold e. lia.
  - intros ->. cbn [Z.mul binary_normalize]. now destruct (n <? 0)%Z.
Qed.

(** [a % 360] on a dyadic number is the floor remainder of its mantissa. *)
Lemma rem360_dyadic (n c : Z) :
  (Z.abs n < 2 ^ 53)%Z -> (-44 <= c <= 0)%Z ->
  rem360 (dyadic n c) = dyadic (n mod (360 * 2 ^ (- c))) c.
Proof.
  intros Hb Hc.
  set (Q := (360 * 2 ^ (- c))%Z).
  assert (P2 : (0 < 2 ^ (- c))%Z) by (apply Z.pow_pos_nonneg; lia).
  assert (HQ : (0 < Q < 2 ^ 53)%Z).
  { unfold Q. split; [lia|].
    assert (2 ^ (- c) <= 2 ^ 44)%Z by (apply Z.pow_le_mono_r; lia).
    change (2 ^ 44)%Z with 17592186044416%Z in *.
    change (2 ^ 53)%Z with 9007199254740992%Z. lia. }
  destruct (fmod_dyadic n c Hb Hc) as [F1 F0]. fold Q in F1, F0.
  pose proof (Z.rem_bound_abs n Q ltac:(lia)) as RB.
  pose proof (Z.rem_sign_mul n Q ltac:(lia)) as RS.
  pose proof (Z.quot_rem' n Q) as QR.
  unfold rem360.
  destruct (Z.eq_dec (Z.rem n Q) 0) as [R0|R0].
  - rewrite (F0 R0). cbn [negb].
    replace (n mod Q)%Z with 0%Z; [now rewrite dyadic_zero|].
    symmetry. apply Z.mod_divide; [lia|]. exists (Z.quot n Q). lia.
  - rewrite (F1 R0).
    rewrite eqb_dyadic_zero, ltb_dyadic_zero by lia.
    destruct (Z.eqb_spec (Z.rem n Q) 0) as [|_]; [contradiction|]. cbn [negb].
    destruct (Z.ltb_spec (Z.rem n Q) 0) as [Neg|Pos].
    + rewrite <- (dyadic_360 c Hc). fold Q.
      rewrite add_dyadic by lia. f_equal.
      apply (Z.mod_unique_pos n Q (Z.quot n Q - 1)); lia.
    + f_equal. apply (Z.mod_unique_pos n Q (Z.quot n Q)); lia.
Qed.

(** [float(360 * j)] as a dyadic number of exponent [c]. *)
Lemma of_int_turns (c j : Z) :
  (-44 <= c <= 0)%Z -> (360 * 2 ^ (- c) * Z.abs j < 2 ^ 53)%Z ->
  of_int (360 * j) = dyadic (360 * 2 ^ (- c) * j) c.
Proof.
  intros Hc Hb.
  replace (360 * 2 ^ (- c) * j)%Z with (360 * j * 2 ^ (- c))%Z by lia.
  rewrite dyadic_rescale; try lia.
  unfold of_int, dyadic. do 2 f_equal. lia.
Qed.

(** Whole turns added to a dyadic angle, with an exact sum, do not change
    its remainder. *)
Lemma rem360_shift_dyadic (a c j : Z) :
  (-44 <= c <= 0)%Z -> (Z.abs a + 360 * 2 ^ (- c) * Z.abs j < 2 ^ 53)%Z ->
  rem360 (dyadic a c + of_int (360 * j)) = rem360 (dyadic a c).
Proof.
  intros Hc Hb.
  assert (P2 : (0 < 2 ^ (- c))%Z) by (apply Z.pow_pos_nonneg; lia).
  set (Q := (360 * 2 ^ (- c))%Z) in *.
  assert (A1 : (Z.abs (Q * j) = Q * Z.abs j)%Z)
    by (rewrite Z.abs_mul, (Z.abs_eq Q); unfold Q; lia).
  rewrite (of_int_turns c j Hc) by (fold Q; lia). fold Q.
  rewrite add_dyadic by lia.
  rewrite !rem360_dyadic by lia. fold Q.
  f_equal. rewrite Z.mul_comm. apply Z.mod_add. unfold Q. lia.
Qed.

(** *** The stand-in for libm, fractions of a span, zero operands *)

Lemma atan2_quadrant_range : libm_range atan2_quadrant.
Proof.
  intros y x Fy Fx. unfold atan2_quadrant.
  unfold is_finite in Fy, Fx.
  apply negb_true_iff, orb_false_iff in Fy. destruct Fy as [Ny _].
  apply negb_true_iff, orb_false_iff in Fx. destruct Fx as [Nx _].
  rewrite Ny, Nx. cbn [orb].
  destruct (x =? 0), (0 <? y), (y <? 0), (0 <? x); reflexivity.
Qed.

(** A fraction of [[0, 1]] of a non-negative number does not exceed it. *)
Lemma mul_le_unit (f s : float) :
  within 0 1 f = true -> is_finite s = true -> (0 <=? s) = true ->
  (f * s <=? s) = true.
Proof.
  unfold within. rewrite andb_true_iff. intros [F0 F1] Fs Hs.
  apply leb_zero_shape in F0, Hs.
  rewrite leb_spec in F1. rewrite leb_spec, mul_spec.
  change (Prim2SF 1) with (S754_finite false 4503599627370496 (-52)) in F1.
  pose proof (Prim2SF_valid f) as Vf. pose proof (Prim2SF_valid s) as Vs.
  apply is_finite_spec in Fs.
  destruct Fs as [[ss Es]|[ss [ms [es Es]]]]; rewrite Es in *.
  - destruct F0 as [[sf Ef]|[Ef|[mf [ef Ef]]]]; rewrite Ef in *;
      try discriminate; reflexivity.
  - assert (Ss : ss = false) by (destruct Hs as [[z H]|[H|[m [e H]]]]; congruence).
    subst ss.
    destruct F0 as [[sf Ef]|[Ef|[mf [ef Ef]]]]; rewrite Ef in *;
      try discriminate; [reflexivity|].
    destruct (valid_finite _ _ _ Vf) as [Cf Bf], (valid_finite _ _ _ Vs) as [Cs Bs].
    apply SFleb_fin_cases in F1.
    unfold SF64mul, SFmul. cbn [xorb].
    destruct (round_aux_le false (mf * ms) (ef + es) ms es (ef + es))
      as [Z|[m [e [R [_ Le]]]]]; try lia; try assumption.
    + now apply mul_shift_ok.
    + rewrite Z.sub_diag, Pos2Z.inj_mul. change (2 ^ 0)%Z with 1%Z.
      replace (es - (ef + es))%Z with (- ef)%Z by lia.
      assert (Z.pos mf <= 2 ^ (- ef))%Z; [|nia].
      destruct F1 as [L|[E L]].
      * destruct (digits_bounds mf) as [_ U].
        assert (2 ^ digits mf <= 2 ^ 53)%Z by (apply Z.pow_le_mono_r; lia).
        assert (2 ^ 53 <= 2 ^ (- ef))%Z by (apply Z.pow_le_mono_r; lia).
        lia.
      * subst ef. change (2 ^ (- -52))%Z with 4503599627370496%Z. lia.
    + now rewrite Z.
    + now rewrite R.
Qed.

Lemma sub_zero_r (x : float) : x - 0 = x.
Proof.
  apply Prim2SF_inj. rewrite sub_spec. change (Prim2SF 0) with (S754_zero false).
  pose proof (Prim2SF_valid x) as V.
  destruct (Prim2SF x) as [[]|[]| |s m e]; try reflexivity.
Qed.

Lemma zero_add_le (p b : float) : (p <=? b) = true -> (0 + p <=? b) = true.
Proof.
  rewrite !leb_spec, add_spec. change (Prim2SF 0) with (S754_zero false).
  destruct (Prim2SF p) as [[]|[]| |s m e]; try easy.
Qed.


Lemma zero_add_eq (x : float) : is_finite x = true -> (0 + x =? x) = true.
Proof.
  rewrite is_finite_spec, eqb_spec, add_spec. change (Prim2SF 0) with (S754_zero false).
  intros [[s E]|[s [m [e E]]]]; rewrite E; unfold SFeqb.
  - now destruct s.
  - simpl SF64add. now rewrite SFcompare_refl.
Qed.

(** The calibration angles enter [angle_to_value] through their
    remainders only. *)
Lemma shift_angles_same_remainders (self : GaugeReader) (dj dk theta : float) :
  rem360 (min_angle self + dj) = rem360 (min_angle self) ->
  rem360 (max_angle self + dk) = rem360 (max_angle self) ->
  angle_to_value (shift_angles self dj dk) theta = angle_to_value self theta.
Proof.
  intros Ej Ek.
  rewrite !gauge_value_ok. unfold gauge_value, cw_sweep_of, cw_needle_of.
  cbn [shift_angles min_angle max_angle min_value max_value].
  now rewrite Ej, Ek.
Qed.

(** *** Numbers by their value: exact sums and remainders *)

Module Exact.

Local Open Scope Z_scope.

Lemma cond_Zopp_mul (s : bool) (a b : Z) : cond_Zopp s (a * b) = cond_Zopp s a * b.
Proof. destruct s; cbn [cond_Zopp]; lia. Qed.

(** The equation of [has_value] on any exponent below both. *)
Lemma has_value_at (x : float) (n c k : Z) (s : bool) (m : positive) (e : Z) :
  Prim2SF x = S754_finite s m e -> k <= c -> k <= e ->
  (has_value x n c = true <->
   cond_Zopp s (Z.pos m * 2 ^ (e - k)) = n * 2 ^ (c - k)).
Proof.
  intros E Hc He. unfold has_value. rewrite E, Z.eqb_eq.
  set (k0 := Z.min c e).
  assert (P : 0 < 2 ^ (k0 - k)) by (apply Z.pow_pos_nonneg; unfold k0; lia).
  replace (e - k) with ((e - k0) + (k0 - k)) by lia.
  replace (c - k) with ((c - k0) + (k0 - k)) by lia.
  rewrite !Z.pow_add_r by (unfold k0; lia).
  rewrite !Z.mul_assoc, (cond_Zopp_mul s (Z.pos m * 2 ^ (e - k0))).
  split; [intros ->; reflexivity|].
  intros H. apply Z.mul_cancel_r in H; [exact H|lia].
Qed.

Lemma has_value_zero (x : float) (c : Z) :
  has_value x 0 c = true -> exists s, Prim2SF x = S754_zero s.
Proof.
  unfold has_value. destruct (Prim2SF x) as [s|s| |s m e]; try discriminate; eauto.
  rewrite Z.eqb_eq. intros H. exfalso.
  assert (0 < 2 ^ (e - Z.min c e)) by (apply Z.pow_pos_nonneg; lia).
  destruct s; cbn [cond_Zopp] in H; lia.
Qed.

Lemma has_value_finite (x : float) (n c : Z) :
  has_value x n c = true -> n <> 0 ->
  exists s m e, Prim2SF x = S754_finite s m e /\ s = (n <? 0) /\
                valid_binary (S754_finite false m e) = true.
Proof.
  intros H Hn. pose proof (Prim2SF_valid x) as V. revert H.
  destruct (Prim2SF x) as [s|s| |s m e] eqn:E; intros H;
    try (unfold has_value in H; rewrite E in H; discriminate).
  - unfold has_value in H. rewrite E in H. apply Z.eqb_eq in H. contradiction.
  - exists s, m, e. repeat split; [|exact V].
    apply (has_value_at x n c (Z.min c e) s m e E) in H; try lia.
    assert (0 < 2 ^ (e - Z.min c e)) by (apply Z.pow_pos_nonneg; lia).
    assert (0 < 2 ^ (c - Z.min c e)) by (apply Z.pow_pos_nonneg; lia).
    destruct s; cbn [cond_Zopp] in H; symmetry;
      [apply Z.ltb_lt|apply Z.ltb_ge]; nia.
Qed.

(** The tests of [float_rem] on a number of known value. *)
Lemma has_value_tests (x : float) (n c : Z) :
  has_value x n c = true ->
  (x =? 0)%float = (n =? 0) /\ (x <? 0)%float = (n <? 0).
Proof.
  intros H. destruct (Z.eq_dec n 0) as [->|Hn].
  - destruct (has_value_zero x c H) as [s E].
    rewrite eqb_spec, ltb_spec, E. now destruct s.
  - destruct (has_value_finite x n c H Hn) as [s [m [e [E [Hs _]]]]].
    rewrite eqb_spec, ltb_spec, E, <- Hs.
    replace (n =? 0) with false by (symmetry; now apply Z.eqb_neq).
    now destruct s.
Qed.

(** A number is determined by its value. *)
Lemma has_value_dyadic (x : float) (n c : Z) :
  has_value x n c = true -> n <> 0 -> x = dyadic n c.
Proof.
  intros H Hn.
  destruct (has_value_finite x n c H Hn) as [s [m [e [E [Hs V]]]]].
  apply (has_value_at x n c (Z.min c e) s m e E) in H; try lia.
  apply (dyadic_of_value x n c s m e (Z.min c e) E Hn Hs); try lia.
  assert (0 < 2 ^ (e - Z.min c e)) by (apply Z.pow_pos_nonneg; lia).
  assert (0 < 2 ^ (c - Z.min c e)) by (apply Z.pow_pos_nonneg; lia).
  subst s. destruct (Z.ltb_spec n 0); cbn [cond_Zopp] in H.
  - rewrite Z.abs_neq by lia. lia.
  - rewrite Z.abs_eq by lia. lia.
Qed.

Lemma has_value_inj (x y : float) (n c : Z) :
  has_value x n c = true -> has_value y n c = true -> n <> 0 -> x = y.
Proof.
  intros Hx Hy Hn.
  now rewrite (has_value_dyadic x n c Hx Hn), (has_value_dyadic y n c Hy Hn).
Qed.

(** [360] on an exponent [c <= 0]. *)
Lemma has_value_360 (c : Z) : c <= 0 -> has_value 360 (360 * 2 ^ (- c)) c = true.
Proof.
  intros Hc.
  apply (has_value_at 360 _ c (Z.min c (-44)) false 6333186975989760 (-44));
    [reflexivity|lia|lia|].
  cbn [cond_Zopp]. change 6333186975989760 with (360 * 2 ^ 44).
  rewrite <- !Z.mul_assoc, <- !Z.pow_add_r by lia.
  do 2 f_equal. lia.
Qed.

(** A float sum whose exact value is a binary64 number is that number. *)
Lemma add_exact (x y z : float) (a b c : Z) :
  has_value x a c = true -> has_value y b c = true ->
  has_value z (a + b) c = true -> a + b <> 0 ->
  (x + y)%float = z.
Proof.
  intros Hx Hy Hz Hab.
  destruct (Z.eq_dec a 0) as [->|Na].
  { destruct (has_value_zero x c Hx) as [sx Ex].
    cbn [Z.add] in *.
    destruct (has_value_finite y b c Hy Hab) as [s [m [e [E _]]]].
    transitivity y; [|exact (has_value_inj y z b c Hy Hz Hab)].
    apply Prim2SF_inj. rewrite add_spec, Ex, E. reflexivity. }
  destruct (Z.eq_dec b 0) as [->|Nb].
  { destruct (has_value_zero y c Hy) as [sy Ey].
    rewrite Z.add_0_r in *.
    destruct (has_value_finite x a c Hx Hab) as [s [m [e [E _]]]].
    transitivity x; [|exact (has_value_inj x z a c Hx Hz Hab)].
    apply Prim2SF_inj. rewrite add_spec, Ey, E. reflexivity. }
  destruct (has_value_finite x a c Hx Na) as [sa [ma [ea [Ea [_ Va]]]]].
  destruct (has_value_finite y b c Hy Nb) as [sb [mb [eb [Eb [_ Vb]]]]].
  destruct (has_value_finite z (a + b) c Hz Hab) as [sz [mz [ez [Ez [_ Vz]]]]].
  set (k := Z.min (Z.min c ez) (Z.min ea eb)).
  apply (has_value_at x a c k sa ma ea Ea) in Hx; try (unfold k; lia).
  apply (has_value_at y b c k sb mb eb Eb) in Hy; try (unfold k; lia).
  apply (has_value_at z (a + b) c k sz mz ez Ez) in Hz; try (unfold k; lia).
  apply Prim2SF_inj. rewrite add_spec, Ea, Eb, Ez.
  unfold SF64add, SFadd. cbv zeta.
  set (e0 := Z.min ea eb).
  destruct (shl_align_value ma ea e0 ltac:(unfold e0; lia)) as [Aa _];
    destruct (shl_align_value mb eb e0 ltac:(unfold e0; lia)) as [Ab _].
  rewrite Aa, Ab.
  set (S := cond_Zopp sa (Z.pos ma * 2 ^ (ea - e0))
            + cond_Zopp sb (Z.pos mb * 2 ^ (eb - e0))).
  assert (P0 : 0 < 2 ^ (e0 - k)) by (apply Z.pow_pos_nonneg; unfold e0, k; lia).
  assert (Pz : 0 < 2 ^ (ez - k)) by (apply Z.pow_pos_nonneg; unfold k; lia).
  assert (Pc : 0 < 2 ^ (c - k)) by (apply Z.pow_pos_nonneg; unfold k; lia).
  assert (HS : S * 2 ^ (e0 - k) = cond_Zopp sz (Z.pos mz * 2 ^ (ez - k))).
  { rewrite Hz, Z.mul_add_distr_r, <- Hx, <- Hy. unfold S.
    rewrite Z.mul_add_distr_r, <- !cond_Zopp_mul, <- !Z.mul_assoc,
      <- !Z.pow_add_r by (unfold e0, k; lia).
    do 2 f_equal; do 2 f_equal; lia. }
  clearbody S.
  destruct S as [|q|q]; cbn [binary_normalize].
  - exfalso. destruct sz; cbn [cond_Zopp] in HS; lia.
  - assert (sz = false) by (destruct sz; cbn [cond_Zopp] in HS; [lia|reflexivity]).
    subst sz. cbn [cond_Zopp] in HS.
    apply (round_exact false q e0 mz ez k); try (unfold e0, k; lia); assumption.
  - assert (sz = true) by (destruct sz; cbn [cond_Zopp] in HS; [reflexivity|lia]).
    subst sz. cbn [cond_Zopp] in HS.
    apply (round_exact true q e0 mz ez k); try (unfold e0, k; lia);
      [assumption|lia].
Qed.

Lemma finite_tests (x : float) (s : bool) (m : positive) (e : Z) :
  Prim2SF x = S754_finite s m e -> is_nan x = false /\ is_infinity x = false.
Proof.
  intros E.
  assert (F : is_finite x = true) by (apply is_finite_spec; right; eauto).
  unfold is_finite in F. now apply negb_true_iff, orb_false_iff in F.
Qed.

Lemma zero_tests (x : float) (s : bool) :
  Prim2SF x = S754_zero s -> is_nan x = false /\ is_infinity x = false.
Proof.
  intros E.
  assert (F : is_finite x = true) by (apply is_finite_spec; left; eauto).
  unfold is_finite in F. now apply negb_true_iff, orb_false_iff in F.
Qed.

(** C's [fmod] by [360]: the remainder of the division truncated towards
    zero, whatever the size of the number. *)
Lemma fmod_value (x : float) (n c : Z) :
  c <= 0 -> has_value x n c = true ->
  has_value (fmod x 360) (Z.rem n (360 * 2 ^ (- c))) c = true.
Proof.
  intros Hc H.
  set (Q := 360 * 2 ^ (- c)).
  assert (P2 : 0 < 2 ^ (- c)) by (apply Z.pow_pos_nonneg; lia).
  assert (HQ : 0 < Q) by (unfold Q; lia).
  destruct (Z.eq_dec n 0) as [->|Hn].
  { destruct (has_value_zero x c H) as [s E].
    destruct (zero_tests x s E) as [Nn In].
    unfold fmod. rewrite Nn, In.
    change (false || is_nan 360 || false || is_zero 360) with false.
    change (is_infinity 360) with false. cbv iota.
    replace (abs x <? abs 360)%float with true
      by (rewrite ltb_spec, abs_spec, E; reflexivity).
    unfold has_value. rewrite E. reflexivity. }
  destruct (has_value_finite x n c H Hn) as [s [m [e [E [Hs V]]]]].
  destruct (finite_tests x s m e E) as [Nn In].
  destruct (valid_finite _ _ _ V) as [Cm Bm].
  set (e0 := Z.min e (-44)).
  set (k := Z.min c e0).
  pose proof H as Hk.
  apply (has_value_at x n c k s m e E) in Hk; try (unfold k, e0; lia).
  pose proof (has_value_360 c Hc) as H360. fold Q in H360.
  apply (has_value_at 360 Q c k false 6333186975989760 (-44)) in H360;
    [|reflexivity|unfold k, e0; lia|unfold k, e0; lia].
  cbn [cond_Zopp] in H360.
  assert (Pc : 0 < 2 ^ (c - k)) by (apply Z.pow_pos_nonneg; unfold k; lia).
  assert (Pe : 0 < 2 ^ (e - k)) by (apply Z.pow_pos_nonneg; unfold k, e0; lia).
  assert (Ha : Z.pos m * 2 ^ (e - k) = Z.abs n * 2 ^ (c - k)).
  { subst s. destruct (Z.ltb_spec n 0); cbn [cond_Zopp] in Hk.
    - rewrite Z.abs_neq by lia. lia.
    - rewrite Z.abs_eq by lia. lia. }
  unfold fmod. rewrite Nn, In.
  change (false || is_nan 360 || false || is_zero 360) with false.
  change (is_infinity 360) with false. cbv iota.
  change (abs 360) with 360%float.
  assert (Cmp : (abs x <? 360)%float = (Z.abs n <? Q)).
  { rewrite ltb_spec, abs_spec, E. cbn [SFabs].
    change (Prim2SF 360) with (S754_finite false 6333186975989760 (-44)).
    unfold SFltb.
    destruct (Z.ltb_spec (Z.abs n) Q) as [L|G].
    - rewrite (canonical_compare_lt m e 6333186975989760 (-44) k);
        try reflexivity; try assumption; try (unfold k, e0; lia).
      rewrite Ha, H360. nia.
    - assert (Le : SFleb (S754_finite false 6333186975989760 (-44))
                         (S754_finite false m e) = true).
      { apply (canonical_compare_le _ _ _ _ k); try reflexivity; try assumption;
          try (unfold k, e0; lia).
        rewrite Ha, H360. nia. }
      unfold SFleb in Le.
      rewrite (SFcompare_antisym (S754_finite false 6333186975989760 (-44))
                                 (S754_finite false m e)).
      destruct (SFcompare (S754_finite false 6333186975989760 (-44))
                          (S754_finite false m e)) as [[]|];
        try discriminate; reflexivity. }
  rewrite Cmp.
  destruct (Z.ltb_spec (Z.abs n) Q) as [Small|Big].
  { replace (Z.rem n Q) with n by (symmetry; apply Z.rem_small_iff; lia).
    exact H. }
  rewrite E. change (Prim2SF 360) with (S754_finite false 6333186975989760 (-44)).
  cbv iota. unfold fmod_finite. fold e0.
  set (r := Z.rem (Z.pos m * 2 ^ (e - e0)) (6333186975989760 * 2 ^ (-44 - e0))).
  assert (P0 : 0 < 2 ^ (e0 - k)) by (apply Z.pow_pos_nonneg; unfold k; lia).
  assert (Pm : 0 < 2 ^ (e - e0)) by (apply Z.pow_pos_nonneg; unfold e0; lia).
  assert (P4 : 0 < 2 ^ (-44 - e0)) by (apply Z.pow_pos_nonneg; unfold e0; lia).
  (* the remainder on the exponent k *)
  assert (Hr : r * 2 ^ (e0 - k) = Z.rem (Z.abs n) Q * 2 ^ (c - k)).
  { unfold r. rewrite <- !Z.mul_rem_distr_r by lia.
    rewrite <- Ha, <- H360, <- !Z.mul_assoc, <- !Z.pow_add_r by (unfold k, e0; lia).
    do 2 f_equal; f_equal; lia. }
  pose proof (Z.rem_bound_pos (Z.pos m * 2 ^ (e - e0))
                (6333186975989760 * 2 ^ (-44 - e0)) ltac:(lia) ltac:(lia)) as RB.
  fold r in RB.
  assert (Sg : cond_Zopp s (Z.rem (Z.abs n) Q) = Z.rem n Q).
  { subst s. destruct (Z.ltb_spec n 0); cbn [cond_Zopp].
    - rewrite Z.abs_neq by lia. rewrite Z.rem_opp_l by lia. lia.
    - now rewrite Z.abs_eq by lia. }
  destruct r as [|q|q] eqn:Er; [| |lia].
  - (* a zero of the sign of x *)
    assert (Z0 : Z.rem (Z.abs n) Q = 0) by nia.
    rewrite <- Sg, Z0.
    replace (cond_Zopp s 0) with 0 by (now destruct s).
    cbn [binary_normalize]. unfold has_value.
    rewrite Prim2SF_SF2Prim by reflexivity. reflexivity.
  - assert (B53 : digits q <= 53).
    { apply digits_le_53.
      destruct (Z.le_gt_cases e (-44)) as [L|G].
      - assert (e0 = e) by (unfold e0; lia).
        assert (Z.pos q <= Z.pos m).
        { rewrite <- Er. unfold r.
          replace (e - e0) with 0 by lia. rewrite Z.mul_1_r.
          apply Z.rem_le; lia. }
        destruct (digits_bounds m) as [_ Um].
        assert (2 ^ digits m <= 2 ^ 53) by (apply Z.pow_le_mono_r; lia).
        lia.
      - assert (e0 = -44) by (unfold e0; lia).
        replace (-44 - e0) with 0 in RB by lia.
        change (2 ^ 53) with 9007199254740992. lia. }
    assert (R0 : -1074 <= e0 <= 971) by (unfold e0; lia).
    assert (BN : binary_normalize prec emax (cond_Zopp s (Z.pos q)) e0 s
                 = binary_round prec emax s q e0) by (now destruct s).
    rewrite BN.
    destruct (binary_round_exact s q e0 R0 B53) as [m' [f' [ER [V' [L' P']]]]].
    rewrite ER.
    apply (has_value_at _ _ c (Z.min k f') s m' f');
      [now apply Prim2SF_SF2Prim|lia|lia|].
    rewrite <- Sg, P'.
    assert (Pk : 0 < 2 ^ (k - Z.min k f')) by (apply Z.pow_pos_nonneg; lia).
    replace (c - Z.min k f') with ((c - k) + (k - Z.min k f')) by lia.
    rewrite (Z.pow_add_r 2 (c - k)) by (unfold k; lia).
    rewrite <- !cond_Zopp_mul. f_equal.
    rewrite Z.mul_assoc, <- Hr.
    rewrite <- !Z.mul_assoc, <- !Z.pow_add_r by (unfold k, e0; lia).
    do 2 f_equal. lia.
Qed.

(** Two numbers that differ by whole turns have the same [% 360]. *)
Lemma rem360_turns (x x' : float) (n j c : Z) :
  c <= 0 -> has_value x n c = true ->
  has_value x' (n + 360 * j * 2 ^ (- c)) c = true ->
  rem360 x' = rem360 x.
Proof.
  intros Hc Hx Hx'.
  set (Q := 360 * 2 ^ (- c)).
  assert (P2 : 0 < 2 ^ (- c)) by (apply Z.pow_pos_nonneg; lia).
  assert (HQ : 0 < Q) by (unfold Q; lia).
  replace (n + 360 * j * 2 ^ (- c)) with (n + j * Q) in Hx' by (unfold Q; lia).
  pose proof (fmod_value x n c Hc Hx) as T. fold Q in T.
  pose proof (fmod_value x' (n + j * Q) c Hc Hx') as T'. fold Q in T'.
  set (t := Z.rem n Q) in *. set (t' := Z.rem (n + j * Q) Q) in *.
  destruct (has_value_tests _ _ _ T) as [Tz Tn].
  destruct (has_value_tests _ _ _ T') as [Tz' Tn'].
  pose proof (Z.rem_bound_abs n Q ltac:(lia)) as B.
  pose proof (Z.rem_bound_abs (n + j * Q) Q ltac:(lia)) as B'.
  pose proof (Z.quot_rem' n Q) as QR.
  pose proof (Z.quot_rem' (n + j * Q) Q) as QR'.
  fold t in B, QR. fold t' in B', QR'.
  rewrite (Z.abs_eq Q) in B, B' by lia.
  (* t and t' differ by a multiple of Q, which is 0, Q or -Q *)
  assert (D : exists d, t' = t + d * Q /\ -1 <= d <= 1).
  { exists (j + n ÷ Q - (n + j * Q) ÷ Q). split; [lia|].
    set (d := j + n ÷ Q - (n + j * Q) ÷ Q).
    assert (E : t' - t = d * Q) by (unfold d; lia).
    assert (Z.abs (d * Q) < 2 * Q) by lia.
    rewrite Z.abs_mul, (Z.abs_eq Q) in H by lia. nia. }
  destruct D as [d [Ed Bd]].
  assert (Dc : d = -1 \/ d = 0 \/ d = 1) by lia.
  clear QR QR'.
  unfold rem360. rewrite Tz, Tz', Tn, Tn'.
  assert (Zs : (t' =? 0) = (t =? 0)).
  { destruct (Z.eqb_spec t 0) as [Z|NZ], (Z.eqb_spec t' 0) as [Z'|NZ'];
      try reflexivity; exfalso; destruct Dc as [->|[->| ->]]; lia. }
  rewrite Zs.
  destruct (Z.eqb_spec t 0) as [Z|NZ]; [reflexivity|]. cbn [negb].
  assert (NZ' : t' <> 0) by (apply Z.eqb_neq; exact Zs).
  pose proof (has_value_360 c Hc) as H360. fold Q in H360.
  destruct (Z.ltb_spec t 0) as [Neg|Pos], (Z.ltb_spec t' 0) as [Neg'|Pos'].
  - assert (t' = t) by (destruct Dc as [->|[->| ->]]; lia).
    f_equal. apply (has_value_inj _ _ t c); congruence.
  - (* t' = t + Q *)
    assert (t' = t + Q) by (destruct Dc as [->|[->| ->]]; lia).
    symmetry.
    apply (add_exact _ _ _ t Q c); try assumption; congruence.
  - assert (t = t' + Q) by (destruct Dc as [->|[->| ->]]; lia).
    apply (add_exact _ _ _ t' Q c); try assumption; congruence.
  - assert (t' = t) by (destruct Dc as [->|[->| ->]]; lia).
    apply (has_value_inj _ _ t c); congruence.
Qed.

End Exact.

Lemma add_not_finite (x y : float) : is_finite x = false -> is_finite (x + y) = false.
Proof.
  intros H.
  destruct (is_finite (x + y)) eqn:F; [|reflexivity]. exfalso.
  assert (Hx : ~ ((exists s, Prim2SF x = S754_zero s) \/
                  (exists s m e, Prim2SF x = S754_finite s m e)))
    by (rewrite <- is_finite_spec; congruence).
  apply is_finite_spec in F. rewrite add_spec in F.
  destruct (Prim2SF x) as [s|s| |s m e].
  - apply Hx. left. eauto.
  - unfold SF64add, SFadd in F.
    destruct (Prim2SF y) as [sy|sy| |sy my ey]; try destruct s, sy;
      destruct F as [[? F]|[? [? [? F]]]]; discriminate F.
  - destruct F as [[? F]|[? [? [? F]]]]; discriminate F.
  - apply Hx. right. eauto.
Qed.

(** Whole turns added to an angle, with an exact sum, do not change its
    remainder; nor do they on an angle that is not finite. *)
Lemma rem360_exact_sum (x : float) (j : Z) :
  is_finite x = false \/ exact_sum x (360 * j) ->
  rem360 (x + of_int (360 * j)) = rem360 x.
Proof.
  intros [F|[n [c [Hc [Hx Hs]]]]].
  - now rewrite (rem360_nan_inf _ F), (rem360_nan_inf _ (add_not_finite _ _ F)).
  - exact (Exact.rem360_turns x _ n j c Hc Hx Hs).
Qed.

(** *** Coincident keypoints *)

Lemma round_identity_keeps_zero : round_keeps_zero round_identity.
Proof. intros x ndigits H. exact H. Qed.

(** A number that is not finite, minus itself, is NaN. *)
Lemma sub_self_not_finite (x : float) : is_finite x = false -> is_nan (x - x) = true.
Proof.
  intros H. apply is_nan_spec. rewrite sub_spec.
  assert (Hx : ~ ((exists s, Prim2SF x = S754_zero s) \/
                  (exists s m e, Prim2SF x = S754_finite s m e)))
    by (rewrite <- is_finite_spec; congruence).
  destruct (Prim2SF x) as [s|s| |s m e].
  - exfalso. apply Hx. left. eauto.
  - now destruct s.
  - reflexivity.
  - exfalso. apply Hx. right. eauto.
Qed.

Lemma opp_is_nan (x : float) : is_nan x = true -> is_nan (- x) = true.
Proof.
  rewrite !is_nan_spec, opp_spec. now intros ->.
Qed.

(** [compute_angle(p, p)] for a point with a coordinate that is not
    finite: the difference is NaN and so is the angle. *)
Lemma compute_angle_same_not_finite (libm : float -> float -> float)
    (p : float * float) :
  is_finite (fst p) && is_finite (snd p) = false ->
  compute_angle libm p p = Ok nan.
Proof.
  intros H. unfold compute_angle.
  assert (N : is_nan (fst p - fst p) = true \/ is_nan (- (snd p - snd p)) = true).
  { apply andb_false_iff in H. destruct H as [H|H]; [left|right].
    - now apply sub_self_not_finite.
    - now apply opp_is_nan, sub_self_not_finite. }
  unfold math.atan2, math.m_atan2.
  destruct N as [N|N]; rewrite N; cbn [orb negb andb];
    rewrite ?orb_true_r, ?andb_false_r; reflexivity.
Qed.

(** ** The claims *)

(** *** C1: the value against [min_value] and [max_value] *)

(** C1, counterexample.  With [min_value = -1.0], [max_value = 0.6] and the
    default angles, the needle at [max_angle] reads [0.6000000000000001],
    which is above [max_value]: the clamp is on the fraction, and
    [min_value + 1.0 * (max_value - min_value)] rounds upwards. *)
Lemma value_above_max_value :
  (min_value (calibration (-1) 0.6 225 (-45))
   <=? max_value (calibration (-1) 0.6 225 (-45))) = true /\
  angle_to_value (calibration (-1) 0.6 225 (-45)) (-45) = Ok 0.60000000000000009 /\
  within (-1) 0.6 0.60000000000000009 = false.
Proof. repeat split. Qed.

(** C1, amended.  For every calibration with [min_value <= max_value] and
    a finite span, and every angle, [angle_to_value] returns a value [v]
    with [min_value <= v]; [v] is [min_value] (degenerate sweep) or
    [min_value + f * (max_value - min_value)] for a fraction [f] with
    [0 <= f <= 1], evaluated in binary64; and when [min_value] is [0],
    also [v <= max_value]. *)
Theorem value_between_min_and_rounded_span (self : GaugeReader) (theta : float) :
  (min_value self <=? max_value self) = true ->
  is_finite (max_value self - min_value self) = true ->
  exists v f,
    angle_to_value self theta = Ok v /\
    (min_value self <=? v) = true /\
    within 0 1 f = true /\
    (v = min_value self \/
     v = min_value self + f * (max_value self - min_value self)) /\
    (min_value self = 0 -> (v <=? max_value self) = true).
Proof.
  intros L F.
  pose proof (sub_finite _ _ F) as [Fmax Fmin].
  rewrite gauge_value_ok. unfold gauge_value.
  set (f := clamp01 (cw_needle_of self theta / cw_sweep_of self)).
  pose proof (clamp01_range (cw_needle_of self theta / cw_sweep_of self)) as Hf.
  fold f in Hf.
  destruct (cw_sweep_of self <? 0.001).
  - exists (min_value self), f. repeat split; auto.
    now apply leb_refl_finite.
  - eexists _, f. split; [reflexivity|]. repeat split; auto.
    + apply add_nonneg_ge; [exact Fmin|].
      destruct (within_unit_finite _ Hf) as [Ff Pf].
      apply mul_nonneg; auto. now apply sub_nonneg.
    + intros Z. rewrite Z in L |- *. rewrite sub_zero_r.
      apply zero_add_le. now apply mul_le_unit.
Qed.

Lemma value_between_min_and_rounded_span_witness :
  (0 <=? 10) = true /\ is_finite (10 - 0) = true /\
  exists v f,
    angle_to_value (calibration 0 10 225 (-45)) 200 = Ok v /\
    (0 <=? v) = true /\ within 0 1 f = true /\
    (v = 0 \/ v = 0 + f * (10 - 0)) /\
    (0 = 0 -> (v <=? 10) = true).
Proof.
  split; [reflexivity|]. split; [reflexivity|].
  apply (value_between_min_and_rounded_span (calibration 0 10 225 (-45)) 200);
    reflexivity.
Defined.

(** *** C2: the endpoints *)

(** C2, counterexample.  With [min_angle = 100] and [max_angle = 460] the
    sweep is degenerate and [angle_to_value(max_angle)] is [min_value = 3],
    not [max_value = 10]; so it is with [min_angle = max_angle = 100].
    [angle_to_value(min_angle)] is [min_value] on both.  Away from the
    degenerate sweep, [angle_to_value(min_angle)] is not [min_value] when
    the span [max_value - min_value] overflows (the value is NaN) or when a
    calibration angle is NaN (the value is [max_value]). *)
Lemma degenerate_max_angle_gives_min_value :
  (angle_to_value (calibration 0 10 100 100)
                  (max_angle (calibration 0 10 100 100)) = Ok 0 /\
   (0 =? max_value (calibration 0 10 100 100)) = false) /\
  (angle_to_value (calibration 3 10 100 460) 460 = Ok 3 /\
   (3 =? 10) = false /\
   angle_to_value (calibration 3 10 100 460) 100 = Ok 3) /\
  (angle_to_value (calibration (-1e308) 1e308 225 (-45)) 225 = Ok nan /\
   (nan =? -1e308) = false) /\
  (angle_to_value (calibration 0 10 225 nan) 225 = Ok 10 /\
   (10 =? 0) = false).
Proof. repeat split. Qed.

(** C2, amended.  On a degenerate sweep ([cw_sweep < 0.001])
    [angle_to_value] returns [min_value] at [min_angle], and at [max_angle]
    too.  On a sweep that is not degenerate ([cw_sweep >= 0.001])
    [angle_to_value(max_angle)] is [min_value + (max_value - min_value)]
    evaluated in binary64, that is [max_value] up to the rounding of that
    sum; and when the span [max_value - min_value] is finite,
    [angle_to_value(min_angle) == min_value], and
    [angle_to_value(max_angle) == max_value] for [min_value = 0]. *)
Theorem endpoints_by_sweep (self : GaugeReader) :
  ((cw_sweep_of self <? 0.001) = true ->
   angle_to_value self (min_angle self) = Ok (min_value self) /\
   angle_to_value self (max_angle self) = Ok (min_value self)) /\
  ((0.001 <=? cw_sweep_of self) = true ->
   angle_to_value self (max_angle self)
   = Ok (min_value self + (max_value self - min_value self)) /\
   (is_finite (max_value self - min_value self) = true ->
    (exists v, angle_to_value self (min_angle self) = Ok v /\
               (v =? min_value self) = true) /\
    (min_value self = 0 ->
     (min_value self + (max_value self - min_value self) =? max_value self)
     = true))).
Proof.
  split.
  - intros Hd. rewrite !gauge_value_ok. unfold gauge_value. now rewrite Hd.
  - intros Hs. rewrite !gauge_value_ok. unfold gauge_value.
    rewrite (leb_ltb_false _ _ Hs).
    split; [|intros Hd; split].
    + change (cw_needle_of self (max_angle self)) with (cw_sweep_of self).
      now rewrite (div_diag_above _ Hs), mul_1_l.
    + eexists; split; [reflexivity|].
      assert (Hn : cw_needle_of self (min_angle self) = 0).
      { unfold cw_needle_of.
        assert (F : is_finite (rem360 (min_angle self)) = true).
        { apply leb_not_nan in Hs. destruct Hs as [_ Hs].
          apply rem360_number_finite in Hs. now apply sub_finite in Hs. }
        now rewrite (sub_diag _ F). }
      rewrite Hn, (div_zero_above _ Hs).
      change (clamp01 0) with 0.
      apply add_zero_eq.
      * now apply sub_finite in Hd.
      * now apply mul_zero_finite.
    + intros Z. rewrite Z in Hd |- *. rewrite sub_zero_r in Hd |- *.
      now apply zero_add_eq.
Qed.

Lemma endpoints_by_sweep_witness :
  ((cw_sweep_of (calibration 3 10 100 460) <? 0.001) = true /\
   angle_to_value (calibration 3 10 100 460) 100 = Ok 3 /\
   angle_to_value (calibration 3 10 100 460) 460 = Ok 3) /\
  ((0.001 <=? cw_sweep_of (calibration 0 10 225 (-45))) = true /\
   is_finite (10 - 0) = true /\
   angle_to_value (calibration 0 10 225 (-45)) (-45) = Ok (0 + (10 - 0)) /\
   (exists v, angle_to_value (calibration 0 10 225 (-45)) 225 = Ok v /\
              (v =? 0) = true) /\
   (0 + (10 - 0) =? 10) = true).
Proof.
  split.
  - split; [reflexivity|].
    exact (proj1 (endpoints_by_sweep (calibration 3 10 100 460)) eq_refl).
  - split; [reflexivity|]. split; [reflexivity|].
    destruct (proj2 (endpoints_by_sweep (calibration 0 10 225 (-45))) eq_refl)
      as [M K].
    split; [exact M|].
    destruct (K eq_refl) as [A B].
    split; [exact A|exact (B eq_refl)].
Defined.

(** *** C3: a sweep through 0 degrees *)

(** C3.  With [min_angle = 225], [max_angle = -45], [min_value = 0] and
    [max_value = 10], [angle_to_value(90)] is exactly [5.0]. *)
Theorem sweep_through_zero_midpoint :
  angle_to_value (calibration 0 10 225 (-45)) 90 = Ok 5.
Proof. reflexivity. Qed.

(** *** C4: the degenerate sweep *)

(** C4.  When the clockwise sweep of the calibration is below [0.001],
    [angle_to_value] returns [min_value] for every angle and raises nothing;
    with [min_angle = max_angle = 100], [min_value = 0], [max_value = 10]
    every angle maps to [0]. *)
Theorem degenerate_sweep_returns_min_value :
  (forall self, (cw_sweep_of self <? 0.001) = true ->
     forall theta, angle_to_value self theta = Ok (min_value self)) /\
  (forall theta, angle_to_value (calibration 0 10 100 100) theta = Ok 0).
Proof.
  split.
  - intros self H theta. rewrite gauge_value_ok. unfold gauge_value. now rewrite H.
  - intros theta. now rewrite gauge_value_ok.
Qed.

Lemma degenerate_sweep_returns_min_value_witness :
  (cw_sweep_of (calibration 2 7 30 390) <? 0.001) = true /\
  angle_to_value (calibration 2 7 30 390) 123.5 = Ok 2.
Proof.
  split; [reflexivity|].
  apply (proj1 degenerate_sweep_returns_min_value (calibration 2 7 30 390)).
  reflexivity.
Defined.

(** *** C5: the needle angle *)

(** C5, counterexample.  A tip directly to the left of the center, with the
    same float [y], gives [dy = -(0.0) = -0.0], so [atan2(-0.0, -1.0)] is
    [-pi] and the angle is [-180.0], outside [(-180, 180]].  This holds for
    every libm: the case is decided before libm is called. *)
Lemma compute_angle_left_is_minus_180 :
  (forall libm, compute_angle libm (0, 0) (-1, 0) = Ok (-180)) /\
  within_left_open (-180) 180 (-180) = false.
Proof. split; reflexivity. Qed.

(** C5, amended.  [compute_angle(center, tip)] is
    [atan2(-(tip.y - center.y), tip.x - center.x)] converted to degrees;
    for finite coordinates it returns an angle of the closed range
    [[-180, 180]], as the docstring says; a tip directly above the center
    yields [90], directly to the right [0] (as [-0.0]), directly below
    [-90], and directly to the left [-180], so the lower end of the range
    is attained. *)
Theorem compute_angle_closed_range_and_axes (libm : float -> float -> float) :
  libm_vertical libm -> libm_range libm ->
  (forall c t, compute_angle libm c t
               = bind (math.atan2 libm (- (snd t - snd c)) (fst t - fst c))
                      (fun r => Ok (math.degrees r))) /\
  (forall c t, is_finite (fst c) = true -> is_finite (snd c) = true ->
               is_finite (fst t) = true -> is_finite (snd t) = true ->
               exists a, compute_angle libm c t = Ok a /\
                         within (-180) 180 a = true) /\
  (forall cx cy ty, is_finite cx = true -> (ty <? cy) = true ->
                    compute_angle libm (cx, cy) (cx, ty) = Ok 90) /\
  (forall cx cy tx, is_finite cy = true -> (cx <? tx) = true ->
                    compute_angle libm (cx, cy) (tx, cy) = Ok (-0)) /\
  (forall cx cy ty, is_finite cx = true -> (cy <? ty) = true ->
                    compute_angle libm (cx, cy) (cx, ty) = Ok (-90)) /\
  (forall cx cy tx, is_finite cy = true -> (tx <? cx) = true ->
                    compute_angle libm (cx, cy) (tx, cy) = Ok (-180)).
Proof.
  intros Hv Hr. split; [reflexivity|].
  split; [intros c t; now apply compute_angle_range|].
  repeat split; intros a b c F L; unfold compute_angle; cbn [fst snd];
    rewrite (sub_diag _ F); destruct (ltb_sub _ _ L) as [Ln Lp].
  - now rewrite (atan2_up _ Hv _ (opp_neg_pos _ Ln)).
  - now rewrite (atan2_right _ _ Lp).
  - now rewrite (atan2_down _ Hv _ (opp_pos_neg _ Lp)).
  - now rewrite (atan2_left _ _ Ln).
Qed.

Lemma atan2_quadrant_vertical : libm_vertical atan2_quadrant.
Proof.
  intros y x Z. unfold atan2_quadrant. rewrite Z.
  split; intros H.
  - destruct (signed_tests _ _ (ltb_shape_pos _ H)) as [N _].
    rewrite N, H. cbn [orb].
    apply is_zero_spec in Z. destruct Z as [s Z].
    now replace (is_nan x) with false
      by (symmetry; apply is_nan_false; rewrite Z; discriminate).
  - destruct (signed_tests _ _ (ltb_shape_neg _ H)) as [N _].
    rewrite N, H. cbn [orb].
    apply is_zero_spec in Z. destruct Z as [s Z].
    replace (is_nan x) with false
      by (symmetry; apply is_nan_false; rewrite Z; discriminate).
    replace (0 <? y) with false; [reflexivity|].
    symmetry. apply leb_ltb_false. now apply ltb_leb.
Qed.

Lemma compute_angle_closed_range_and_axes_witness :
  libm_vertical atan2_quadrant /\ libm_range atan2_quadrant /\
  is_finite 320 = true /\ (180 <? 240) = true /\
  compute_angle atan2_quadrant (320, 240) (320, 180) = Ok 90.
Proof.
  split; [exact atan2_quadrant_vertical|]. split; [exact atan2_quadrant_range|].
  split; [reflexivity|]. split; [reflexivity|].
  apply (proj1 (proj2 (proj2 (compute_angle_closed_range_and_axes atan2_quadrant
                  atan2_quadrant_vertical atan2_quadrant_range))));
    reflexivity.
Defined.

(** *** C6: which detections become readings *)

(** C6.  Under the contracts of libm and of the detector, [read_gauge]
    returns the readings of exactly the detections with at least two
    keypoints whose first two confidences are at least [0.3], in the
    detector's order; removing a skipped detection from the list changes
    nothing; and an empty list of readings is an ordinary result. *)
Theorem read_gauge_filters_in_order
    (libm : float -> float -> float) (py_round : float -> Z -> float)
    (frame : Type) (detect_gauge : GaugeReader -> frame -> list detection) :
  libm_finite libm ->
  forall (self : GaugeReader) (frame_ : frame),
    Forall well_formed (detect_gauge self frame_) ->
    read_gauge libm py_round frame detect_gauge self frame_
    = Ok (map (reading_of libm py_round self)
              (filter passes (detect_gauge self frame_))) /\
    (forall l1 d l2, detect_gauge self frame_ = l1 ++ d :: l2 ->
       passes d = false ->
       read_detections libm py_round self (l1 ++ l2) []
       = read_gauge libm py_round frame detect_gauge self frame_) /\
    (filter passes (detect_gauge self frame_) = [] ->
     read_gauge libm py_round frame detect_gauge self frame_ = Ok []).
Proof.
  intros Hl self frame_ W. unfold read_gauge.
  assert (E := read_detections_spec libm py_round Hl self _ W []).
  cbn [app] in E. rewrite E. repeat split.
  - intros l1 d l2 D P. rewrite D in W |- *.
    assert (W' : Forall well_formed (l1 ++ l2)).
    { apply Forall_app in W. destruct W as [W1 W2].
      apply Forall_app. split; [assumption|]. now inversion W2. }
    rewrite (read_detections_spec libm py_round Hl self _ W' []).
    cbn [app]. rewrite !filter_app. cbn [filter]. now rewrite P.
  - now intros ->.
Qed.

Lemma atan2_quadrant_finite : libm_finite atan2_quadrant.
Proof.
  intros y x Fy Fx. unfold atan2_quadrant.
  unfold is_finite in Fy, Fx.
  apply negb_true_iff, orb_false_iff in Fy. destruct Fy as [Ny _].
  apply negb_true_iff, orb_false_iff in Fx. destruct Fx as [Nx _].
  rewrite Ny, Nx. cbn [orb].
  destruct (x =? 0), (0 <? y), (y <? 0), (0 <? x); reflexivity.
Qed.

Lemma read_gauge_filters_in_order_witness :
  libm_finite atan2_quadrant /\
  Forall well_formed
    [detected [(320, 240, 0.9); (320, 180, 0.8)];
     detected [(320, 240, 0.2); (400, 240, 0.9)];
     detected [(320, 240, 0.9)]] /\
  read_gauge atan2_quadrant round_identity (list detection) stub_detector
    (calibration 0 10 225 (-45))
    [detected [(320, 240, 0.9); (320, 180, 0.8)];
     detected [(320, 240, 0.2); (400, 240, 0.9)];
     detected [(320, 240, 0.9)]]
  = Ok [reading_of atan2_quadrant round_identity (calibration 0 10 225 (-45))
          (detected [(320, 240, 0.9); (320, 180, 0.8)])].
Proof.
  split; [exact atan2_quadrant_finite|].
  assert (W : Forall well_formed
    [detected [(320, 240, 0.9); (320, 180, 0.8)];
     detected [(320, 240, 0.2); (400, 240, 0.9)];
     detected [(320, 240, 0.9)]])
    by (repeat constructor).
  split; [exact W|].
  exact (proj1 (read_gauge_filters_in_order atan2_quadrant round_identity
                  (list detection) stub_detector atan2_quadrant_finite
                  (calibration 0 10 225 (-45)) _ W)).
Defined.

(** *** C7: periodicity in the input angle *)

(** C7, failing input.  [normalize(-1e-20)], that is [-1e-20 % 360], is
    [360.0], outside the range [[0, 360)] that the docstring of
    [angle_to_value] and the comment above [normalize] promise; with
    [min_angle = 33.3] the value at [-1e-20] and the value at its
    normalization differ. *)
Lemma tiny_negative_angle_not_periodic :
  normalize (-1e-20) = Ok 360 /\
  angle_to_value (calibration 0 10 33.3 (-45)) 360 = Ok 4.2528735632183903 /\
  angle_to_value (calibration 0 10 33.3 (-45)) (-1e-20) = Ok 4.2528735632183921 /\
  (4.2528735632183903 =? 4.2528735632183921) = false.
Proof. repeat split. Qed.

(** C7, how far the code goes.  For every calibration and every angle
    [theta], what [normalize] returns is NaN or a number [n] with
    [0 <= n <= 360], and whenever it is not the stray [360.0],
    [angle_to_value] of the normalized angle equals
    [angle_to_value(theta)]: the periodicity fails only where [normalize]
    leaves its documented range [[0, 360)]. *)
Theorem periodic_unless_360 (self : GaugeReader) (theta n : float) :
  normalize theta = Ok n ->
  (is_nan n = true \/ within 0 360 n = true) /\
  ((n =? 360) = false -> angle_to_value self n = angle_to_value self theta).
Proof.
  rewrite normalize_eq. intros E.
  assert (n = rem360 theta) as -> by congruence.
  split; [apply rem360_range|].
  intros L.
  rewrite !gauge_value_ok. unfold gauge_value, cw_needle_of.
  now rewrite (rem360_idem_unless_360 _ L).
Qed.

Lemma periodic_unless_360_witness :
  normalize (-45) = Ok 315 /\
  within 0 360 315 = true /\
  (315 =? 360) = false /\
  angle_to_value (calibration 0 10 225 (-45)) 315
  = angle_to_value (calibration 0 10 225 (-45)) (-45).
Proof.
  split; [reflexivity|]. split; [reflexivity|]. split; [reflexivity|].
  apply (periodic_unless_360 (calibration 0 10 225 (-45)) (-45) 315); reflexivity.
Defined.

(** *** C8: totality *)

(** C8.  Under libm's contract, [angle_to_value] and [read_gauge] return a
    result for every calibration, angle and list of detections; past the
    degeneracy check the divisor [cw_sweep] is not zero, so the division
    does not raise. *)
Theorem angle_to_value_and_read_gauge_total
    (libm : float -> float -> float) (py_round : float -> Z -> float)
    (frame : Type) (detect_gauge : GaugeReader -> frame -> list detection) :
  libm_finite libm ->
  forall self : GaugeReader,
    (forall theta, returns (angle_to_value self theta)) /\
    ((cw_sweep_of self <? 0.001) = false ->
     (cw_sweep_of self =? 0) = false /\
     forall theta, returns (float_div (cw_needle_of self theta) (cw_sweep_of self))) /\
    (forall detections, returns (read_detections libm py_round self detections [])) /\
    (forall frame_, returns (read_gauge libm py_round frame detect_gauge self frame_)).
Proof.
  intros Hl self. repeat split.
  - intros theta. rewrite gauge_value_ok. now eexists.
  - destruct (cw_sweep_of self =? 0) eqn:Z; [|reflexivity].
    apply zero_lt_threshold in Z. congruence.
  - intros theta. rewrite (float_div_guarded _ _ H). now eexists.
  - intros detections. now apply read_detections_returns.
  - intros frame_. unfold read_gauge. now apply read_detections_returns.
Qed.

Lemma angle_to_value_and_read_gauge_total_witness :
  libm_finite atan2_quadrant /\
  returns (angle_to_value (calibration 0 10 225 (-45)) 1e300) /\
  returns (read_gauge atan2_quadrant round_identity (list detection) stub_detector
             (calibration 0 10 225 (-45))
             [detected [(320, 240, 0.9); (100, 100, nan)]; detected []]).
Proof.
  split; [exact atan2_quadrant_finite|].
  pose proof (angle_to_value_and_read_gauge_total atan2_quadrant round_identity
                (list detection) stub_detector atan2_quadrant_finite
                (calibration 0 10 225 (-45))) as T.
  split; [apply (proj1 T)|apply (proj2 (proj2 (proj2 T)))].
Defined.

(** *** C9: coincident center and tip *)

(** C9, counterexample.  For the point [(inf, 0)] the difference
    [inf - inf] is NaN and [compute_angle(p, p)] is NaN, not [0], whatever
    libm is. *)
Lemma coincident_infinite_point_angle_nan :
  (forall libm, compute_angle libm (infinity, 0) (infinity, 0) = Ok nan) /\
  (nan =? 0) = false.
Proof. split; [intros libm|]; reflexivity. Qed.

(** C9, amended.  For every point [p] with finite coordinates,
    [compute_angle(p, p)] returns [-0.0], which equals [0]; with a [round]
    that rounds a zero to a zero, a detection whose two keypoints coincide
    there and whose confidences pass yields a reading whose angle equals
    [0].  For a point with a coordinate that is infinite or NaN,
    [compute_angle(p, p)] is NaN. *)
Theorem coincident_keypoints_angle_zero_or_nan
    (libm : float -> float -> float) (py_round : float -> Z -> float)
    (p : float * float) :
  (is_finite (fst p) = true -> is_finite (snd p) = true ->
   compute_angle libm p p = Ok (-0) /\ (-0 =? 0) = true /\
   (round_keeps_zero py_round ->
    forall self det c0 c1 rest,
      keypoints det = (fst p, snd p, c0) :: (fst p, snd p, c1) :: rest ->
      (0.3 <=? c0) = true -> (0.3 <=? c1) = true ->
      exists r, read_detection libm py_round self det = Ok (Some r) /\
                (r_angle r =? 0) = true)) /\
  (is_finite (fst p) && is_finite (snd p) = false ->
   compute_angle libm p p = Ok nan).
Proof.
  split; [|apply compute_angle_same_not_finite].
  intros Fx Fy.
  assert (A : compute_angle libm p p = Ok (-0)) by now apply compute_angle_same.
  repeat split; [exact A|].
  intros Hr self det c0 c1 rest K P0 P1.
  unfold read_detection. rewrite K.
  cbn [List.length Nat.ltb Nat.leb index nth_error bind fst snd].
  rewrite (leb_ltb_false _ _ P0), (leb_ltb_false _ _ P1). cbn [orb].
  replace (fst p, snd p) with p by now destruct p.
  rewrite A. cbn [bind]. rewrite gauge_value_ok. cbn [bind].
  eexists. split; [reflexivity|]. cbn [r_angle].
  now apply Hr.
Qed.

Lemma coincident_keypoints_angle_zero_or_nan_witness :
  is_finite 320 = true /\ is_finite 240 = true /\
  round_keeps_zero round_identity /\
  compute_angle atan2_quadrant (320, 240) (320, 240) = Ok (-0) /\
  (exists r,
     read_detection atan2_quadrant round_identity (calibration 0 10 225 (-45))
                    (detected [(320, 240, 0.9); (320, 240, 0.8)]) = Ok (Some r) /\
     (r_angle r =? 0) = true) /\
  compute_angle atan2_quadrant (nan, 240) (nan, 240) = Ok nan.
Proof.
  split; [reflexivity|]. split; [reflexivity|].
  split; [exact round_identity_keeps_zero|].
  destruct (proj1 (coincident_keypoints_angle_zero_or_nan
                     atan2_quadrant round_identity (320, 240)) eq_refl eq_refl)
    as [A [_ R]].
  split; [exact A|]. split.
  - exact (R round_identity_keeps_zero (calibration 0 10 225 (-45))
             (detected [(320, 240, 0.9); (320, 240, 0.8)]) 0.9 0.8 []
             eq_refl eq_refl eq_refl).
  - exact (proj2 (coincident_keypoints_angle_zero_or_nan
                    atan2_quadrant round_identity (nan, 240)) eq_refl).
Defined.

(** *** C10: periodicity in the calibration angles *)

(** C10, counterexample.  With [min_angle = 225.1] the float sum
    [225.1 + 360] is rounded: it is not an exact sum and not [225.1]
    modulo 360 any more, and the value at [90] changes in its last
    digits. *)
Lemma shifted_min_angle_changes_value :
  angle_to_value (calibration 0 10 225.1 (-45)) 90 = Ok 5.0018511662347276 /\
  angle_to_value (shift_angles (calibration 0 10 225.1 (-45))
                               (of_int (360 * 1)) (of_int (360 * 0))) 90
  = Ok 5.0018511662347285 /\
  (5.0018511662347276 =? 5.0018511662347285) = false /\
  ~ exact_sum 225.1 (360 * 1).
Proof.
  repeat split.
  intros H.
  pose proof (rem360_exact_sum 225.1 1 (or_intror H)) as E.
  assert (D : (rem360 (225.1 + of_int (360 * 1)) =? rem360 225.1) = false)
    by reflexivity.
  rewrite E in D. vm_compute in D. discriminate D.
Qed.

(** C10, amended.  Whenever the float sums [min_angle + 360 * j] and
    [max_angle + 360 * k] are exact, that is, each computed sum is the
    number [angle + 360 * j] with nothing rounded, moving the calibration
    angles by these whole turns leaves [angle_to_value(theta)] unchanged
    for every [theta]; so it does for a calibration angle that is NaN or
    infinite. *)
Theorem calibration_angles_periodic_exact
    (self : GaugeReader) (j k : Z) (theta : float) :
  is_finite (min_angle self) = false \/ exact_sum (min_angle self) (360 * j) ->
  is_finite (max_angle self) = false \/ exact_sum (max_angle self) (360 * k) ->
  angle_to_value (shift_angles self (of_int (360 * j)) (of_int (360 * k))) theta
  = angle_to_value self theta.
Proof.
  intros Hj Hk.
  apply shift_angles_same_remainders; now apply rem360_exact_sum.
Qed.

Lemma calibration_angles_periodic_exact_witness :
  exact_sum 225.1 (360 * -1) /\ exact_sum (-45) (360 * 2) /\
  angle_to_value (shift_angles (calibration 0 10 225.1 (-45))
                               (of_int (360 * -1)) (of_int (360 * 2))) 90
  = angle_to_value (calibration 0 10 225.1 (-45)) 90.
Proof.
  assert (Hj : exact_sum 225.1 (360 * -1)).
  { exists 7920002157196083%Z, (-45)%Z.
    split; [discriminate|]. split; reflexivity. }
  assert (Hk : exact_sum (-45) (360 * 2)).
  { exists (-45)%Z, 0%Z.
    split; [discriminate|]. split; reflexivity. }
  split; [exact Hj|]. split; [exact Hk|].
  apply (calibration_angles_periodic_exact (calibration 0 10 225.1 (-45)) (-1) 2 90);
    right; assumption.
Defined.

(** A sufficient condition for exact sums: calibration angles that are
    multiples [a * 2^c] and [b * 2^c] of a power of two with
    [-44 <= c <= 0] (integers, halves, ..., down to [2^-44]) and integers
    [j], [k] for which the sums stay below [2^53] in units of [2^c]. *)
Lemma calibration_angles_periodic_dyadic
    (self : GaugeReader) (a b c j k : Z) (theta : float) :
  min_angle self = dyadic a c -> max_angle self = dyadic b c ->
  (-44 <= c <= 0)%Z ->
  (Z.abs a + 360 * 2 ^ (- c) * Z.abs j < 2 ^ 53)%Z ->
  (Z.abs b + 360 * 2 ^ (- c) * Z.abs k < 2 ^ 53)%Z ->
  angle_to_value (shift_angles self (of_int (360 * j)) (of_int (360 * k))) theta
  = angle_to_value self theta.
Proof.
  intros Ea Eb Hc Ha Hb.
  apply shift_angles_same_remainders.
  - rewrite Ea. now apply rem360_shift_dyadic.
  - rewrite Eb. now apply rem360_shift_dyadic.
Qed.

(** * Further properties of the reader *)

(** ** Angles outside the arc *)

Module Quotient.

Local Open Scope Z_scope.

(** The order of two canonical positive numbers, as an order of their
    values on the smaller exponent. *)
Lemma SFleb_value (m1 : positive) (e1 : Z) (m2 : positive) (e2 : Z) :
  valid_binary (S754_finite false m1 e1) = true ->
  valid_binary (S754_finite false m2 e2) = true ->
  SFleb (S754_finite false m1 e1) (S754_finite false m2 e2) = true ->
  Z.pos m1 * 2 ^ (e1 - Z.min e1 e2) <= Z.pos m2 * 2 ^ (e2 - Z.min e1 e2).
Proof.
  intros V1 V2 L.
  destruct (valid_finite _ _ _ V1) as [C1 _], (valid_finite _ _ _ V2) as [C2 _].
  destruct (SFleb_fin_cases _ _ _ _ L) as [Lt|[E Le]].
  - apply Z.lt_le_incl, canonical_lt; auto.
  - subst e2. rewrite Z.min_id, Z.sub_diag. change (2 ^ 0) with 1. lia.
Qed.

(** The mantissa [SFdiv_core_binary] hands to the rounding, for a dividend
    [ma * 2^ea] that is not below the divisor [mb * 2^eb]: it has 53 bits
    at least unless the exponent is below the smallest one, and the number
    it stands for is [1] at least. *)
Lemma div_core_ge_one (ma : positive) (ea : Z) (mb : positive) (eb : Z) :
  Z.pos mb * 2 ^ (eb - Z.min eb ea) <= Z.pos ma * 2 ^ (ea - Z.min eb ea) ->
  exists (q : positive) (e' : Z) (l : location),
    SFdiv_core_binary prec emax (Z.pos ma) ea (Z.pos mb) eb = (Z.pos q, e', l) /\
    e' <= Z.max (digits q + e' - 53) (-1074) /\
    2 ^ 52 * 2 ^ (-52 - Z.min e' (-52)) <= Z.pos q * 2 ^ (e' - Z.min e' (-52)).
Proof.
  intros H. unfold SFdiv_core_binary. cbn [Zdigits2]. rewrite fexp_eq.
  set (X := digits ma + ea - (digits mb + eb)).
  set (e' := Z.min (Z.max (X - 53) (-1074)) (ea - eb)).
  set (s := ea - eb - e').
  assert (Hs : 0 <= s) by (unfold s, e'; lia).
  assert (Hm : match s with
               | 0 => Z.pos ma
               | Z.pos _ => Z.shiftl (Z.pos ma) s
               | Z.neg _ => 0
               end = Z.pos ma * 2 ^ s).
  { destruct s as [|p|p] eqn:Es; [change (2 ^ 0) with 1; lia| |lia].
    now rewrite Z.shiftl_mul_pow2 by lia. }
  rewrite Hm. clear Hm.
  assert (Ps : 0 < 2 ^ s) by (apply Z.pow_pos_nonneg; lia).
  pose proof (Z_div_mod (Z.pos ma * 2 ^ s) (Z.pos mb) ltac:(lia)) as DM.
  destruct (Z.div_eucl (Z.pos ma * 2 ^ s) (Z.pos mb)) as [q r].
  destruct DM as [DM RB].
  destruct (digits_bounds ma) as [La Ua], (digits_bounds mb) as [Lb Ub].
  (* 53 bits, unless the exponent is below the smallest one *)
  assert (Q52 : -1074 < e' -> 2 ^ 52 <= q).
  { intros G.
    assert (S1 : digits mb + 53 - digits ma <= s) by (unfold s, e', X in *; lia).
    assert (P1 : 2 ^ (digits mb + 52) <= Z.pos ma * 2 ^ s).
    { assert (2 ^ (digits mb + 52) <= 2 ^ (digits ma - 1 + s))
        by (apply Z.pow_le_mono_r; lia).
      rewrite (Z.pow_add_r 2 (digits ma - 1) s) in * by lia. nia. }
    rewrite Z.pow_add_r in P1 by lia.
    assert (0 < 2 ^ 52) by reflexivity.
    nia. }
  (* the value *)
  assert (QV : e' <= 0 -> 2 ^ (- e') <= q).
  { intros G.
    set (c := Z.min eb ea) in *.
    assert (Pe : 0 < 2 ^ (- e')) by (apply Z.pow_pos_nonneg; lia).
    assert (Pb : 0 < 2 ^ (eb - c)) by (apply Z.pow_pos_nonneg; unfold c; lia).
    assert (E1 : 2 ^ s * 2 ^ (eb - c) = 2 ^ (ea - c) * 2 ^ (- e')).
    { rewrite <- !Z.pow_add_r by (unfold c; lia). f_equal. unfold s. lia. }
    assert (Z.pos mb * 2 ^ (- e') <= Z.pos ma * 2 ^ s) by nia.
    nia. }
  assert (Qpos : 0 < q).
  { destruct (Z.le_gt_cases e' 0) as [L|G].
    - assert (0 < 2 ^ (- e')) by (apply Z.pow_pos_nonneg; lia). lia.
    - assert (0 < 2 ^ 52) by reflexivity. lia. }
  destruct q as [|q|q]; try lia.
  exists q, e', (new_location (Z.pos mb) r). split; [reflexivity|]. split.
  - destruct (Z.le_gt_cases e' (-1074)) as [L|G]; [lia|].
    assert (53 <= digits q) by (apply (digits_ge q 52); [lia|auto]).
    lia.
  - destruct (Z.le_gt_cases e' (-52)) as [L|G].
    + rewrite Z.min_l, Z.sub_diag by lia. change (2 ^ 0) with 1.
      rewrite <- Z.pow_add_r by lia.
      replace (52 + (-52 - e')) with (- e') by lia. lia.
    + rewrite Z.min_r, Z.sub_diag by lia. change (2 ^ 0) with 1.
      destruct (Z.le_gt_cases e' 0) as [L0|G0].
      * assert (E2 : 2 ^ 52 = 2 ^ (- e') * 2 ^ (e' - -52))
          by (rewrite <- Z.pow_add_r by lia; f_equal; lia).
        assert (0 < 2 ^ (e' - -52)) by (apply Z.pow_pos_nonneg; lia).
        specialize (QV L0). nia.
      * assert (1 <= 2 ^ (e' - -52)) by (apply (Z.pow_le_mono_r 2 0); lia).
        specialize (Q52 ltac:(lia)).
        assert (0 < 2 ^ 52) by reflexivity. nia.
Qed.

(** A quotient whose dividend is not below its positive divisor is not
    below [1]. *)
Lemma SFdiv_ge_one (ma : positive) (ea : Z) (mb : positive) (eb : Z) :
  valid_binary (S754_finite false ma ea) = true ->
  valid_binary (S754_finite false mb eb) = true ->
  SFleb (S754_finite false mb eb) (S754_finite false ma ea) = true ->
  SFltb (SF64div (S754_finite false ma ea) (S754_finite false mb eb))
        (S754_finite false 4503599627370496 (-52)) = false.
Proof.
  intros Va Vb L.
  pose proof (SFleb_value _ _ _ _ Vb Va L) as H.
  destruct (div_core_ge_one ma ea mb eb H) as [q [e' [l [D [K B]]]]].
  unfold SF64div, SFdiv. rewrite D. cbn [xorb].
  destruct (round_aux_ge_loc false q e' l 4503599627370496 (-52) (Z.min e' (-52))
              K ltac:(reflexivity) ltac:(lia) ltac:(lia) B)
    as [->|[m [e [-> [V Le]]]]]; [reflexivity|].
  unfold SFleb in Le. unfold SFltb.
  rewrite (SFcompare_antisym (S754_finite false 4503599627370496 (-52))).
  now destruct (SFcompare _ _) as [[]|].
Qed.

End Quotient.

(** Past the sweep the fraction is clamped to [1]. *)
Lemma clamp01_div_ge (a b : float) :
  (0.001 <=? b) = true -> (b <=? a) = true -> clamp01 (a / b) = 1.
Proof.
  intros Hb L.
  assert (N : (a / b <? 1) = false).
  { rewrite ltb_spec, div_spec.
    pose proof (Prim2SF_valid a) as Va. pose proof (Prim2SF_valid b) as Vb.
    rewrite leb_spec in L.
    change (Prim2SF 1) with (S754_finite false 4503599627370496 (-52)).
    destruct (above_threshold _ Hb) as [E|[mb [eb E]]]; rewrite E in *.
    - destruct (Prim2SF a) as [[]|[]| |[] ma ea]; try discriminate; reflexivity.
    - destruct (Prim2SF a) as [[]|[]| |[] ma ea]; try discriminate;
        [reflexivity|].
      now apply Quotient.SFdiv_ge_one. }
  unfold clamp01, min2. now rewrite N.
Qed.

(** X1.  A needle past the clockwise end of the arc, and a needle before its
    start.  Whenever the clockwise distance from [min_angle] to the needle
    is not below the sweep, the fraction is clamped to [1] and the value is
    the full-scale one: on a calibration that is not degenerate, an angle
    outside the arc reads full scale on whichever side of the arc it
    lies. *)
Theorem outside_arc_reads_full_scale (self : GaugeReader) (theta : float) :
  (0.001 <=? cw_sweep_of self) = true ->
  (cw_sweep_of self <=? cw_needle_of self theta) = true ->
  angle_to_value self theta
  = Ok (min_value self + (max_value self - min_value self)).
Proof.
  intros Hs L. rewrite gauge_value_ok. unfold gauge_value.
  rewrite (leb_ltb_false _ _ Hs), (clamp01_div_ge _ _ Hs L).
  now rewrite mul_1_l.
Qed.

Lemma outside_arc_reads_full_scale_witness :
  (0.001 <=? cw_sweep_of (calibration 0 10 225 (-45))) = true /\
  (cw_sweep_of (calibration 0 10 225 (-45))
   <=? cw_needle_of (calibration 0 10 225 (-45)) 226) = true /\
  angle_to_value (calibration 0 10 225 (-45)) 226 = Ok (0 + (10 - 0)).
Proof.
  split; [reflexivity|]. split; [reflexivity|].
  apply (outside_arc_reads_full_scale (calibration 0 10 225 (-45)) 226);
    reflexivity.
Defined.

(** ** NaN and infinities *)

Lemma sub_nan_l (x : float) : nan - x = nan.
Proof.
  apply Prim2SF_inj. rewrite sub_spec. change (Prim2SF nan) with S754_nan.
  reflexivity.
Qed.

Lemma sub_nan_r (x : float) : x - nan = nan.
Proof.
  apply Prim2SF_inj. rewrite sub_spec. change (Prim2SF nan) with S754_nan.
  now destruct (Prim2SF x).
Qed.

Lemma div_nan_l (x : float) : nan / x = nan.
Proof.
  apply Prim2SF_inj. rewrite div_spec. change (Prim2SF nan) with S754_nan.
  reflexivity.
Qed.

Lemma div_nan_r (x : float) : x / nan = nan.
Proof.
  apply Prim2SF_inj. rewrite div_spec. change (Prim2SF nan) with S754_nan.
  now destruct (Prim2SF x).
Qed.

Lemma rem360_nan : rem360 nan = nan.
Proof. reflexivity. Qed.

(** The clockwise distance to an angle that is not finite is NaN. *)
Lemma cw_needle_not_finite (self : GaugeReader) (theta : float) :
  is_finite theta = false -> cw_needle_of self theta = nan.
Proof.
  intros F. unfold cw_needle_of.
  now rewrite (rem360_nan_inf _ F), sub_nan_r.
Qed.

Lemma cw_sweep_not_finite (self : GaugeReader) :
  is_finite (min_angle self) = false \/ is_finite (max_angle self) = false ->
  cw_sweep_of self = nan.
Proof.
  unfold cw_sweep_of. intros [F|F]; rewrite (rem360_nan_inf _ F).
  - now rewrite sub_nan_l.
  - now rewrite sub_nan_r.
Qed.

(** X2.  An input angle that is NaN or infinite.  On a calibration that is
    not degenerate, [angle_to_value] does not raise and does not return
    NaN for it: the fraction is NaN, [min(1.0, nan)] is [1.0], and the
    value is the full-scale one, [min_value + (max_value - min_value)]. *)
Theorem non_finite_angle_reads_full_scale (self : GaugeReader) (theta : float) :
  is_finite theta = false ->
  (cw_sweep_of self <? 0.001) = false ->
  angle_to_value self theta
  = Ok (min_value self + (max_value self - min_value self)).
Proof.
  intros F S. rewrite gauge_value_ok. unfold gauge_value.
  rewrite S, (cw_needle_not_finite _ _ F), div_nan_l.
  change (clamp01 nan) with 1. now rewrite mul_1_l.
Qed.

Lemma non_finite_angle_reads_full_scale_witness :
  is_finite nan = false /\
  (cw_sweep_of (calibration 0 10 225 (-45)) <? 0.001) = false /\
  angle_to_value (calibration 0 10 225 (-45)) nan = Ok (0 + (10 - 0)).
Proof.
  split; [reflexivity|]. split; [reflexivity|].
  apply (non_finite_angle_reads_full_scale (calibration 0 10 225 (-45)) nan);
    reflexivity.
Defined.

(** X3.  A calibration angle that is NaN or infinite.  The sweep is NaN, the
    guard [cw_sweep < 0.001] is false for it, and every input angle reads
    the full-scale value. *)
Theorem non_finite_calibration_reads_full_scale (self : GaugeReader) :
  is_finite (min_angle self) = false \/ is_finite (max_angle self) = false ->
  forall theta,
    angle_to_value self theta
    = Ok (min_value self + (max_value self - min_value self)).
Proof.
  intros F theta. rewrite gauge_value_ok. unfold gauge_value.
  rewrite (cw_sweep_not_finite _ F), div_nan_r.
  change (nan <? 0.001) with false. cbv iota.
  change (clamp01 nan) with 1. now rewrite mul_1_l.
Qed.

Lemma non_finite_calibration_reads_full_scale_witness :
  (is_finite (min_angle (calibration 0 10 nan (-45))) = false \/
   is_finite (max_angle (calibration 0 10 nan (-45))) = false) /\
  angle_to_value (calibration 0 10 nan (-45)) 90 = Ok (0 + (10 - 0)).
Proof.
  assert (F : is_finite (min_angle (calibration 0 10 nan (-45))) = false \/
              is_finite (max_angle (calibration 0 10 nan (-45))) = false)
    by (left; reflexivity).
  split; [exact F|].
  exact (non_finite_calibration_reads_full_scale (calibration 0 10 nan (-45)) F 90).
Defined.

(** ** Exact arithmetic on dyadic angles *)

Lemma turn_bounds (c : Z) :
  (-44 <= c <= 0)%Z -> (360 <= 360 * 2 ^ (- c) < 2 ^ 53)%Z.
Proof.
  intros Hc.
  assert (1 <= 2 ^ (- c))%Z by (apply (Z.pow_le_mono_r 2 0); lia).
  assert (2 ^ (- c) <= 2 ^ 44)%Z by (apply Z.pow_le_mono_r; lia).
  change (2 ^ 44)%Z with 17592186044416%Z in *.
  change (2 ^ 53)%Z with 9007199254740992%Z. lia.
Qed.

(** X4.  [normalize] on an angle [n * 2^c] with [-44 <= c <= 0]: it is the
    floor remainder by 360 computed on the integers, without rounding, and
    it lies in [[0, 360)]. *)
Theorem normalize_dyadic_exact (n c : Z) :
  (Z.abs n < 2 ^ 53)%Z -> (-44 <= c <= 0)%Z ->
  normalize (dyadic n c) = Ok (dyadic (n mod (360 * 2 ^ (- c))) c) /\
  (0 <=? dyadic (n mod (360 * 2 ^ (- c))) c) = true /\
  (dyadic (n mod (360 * 2 ^ (- c))) c <? 360) = true.
Proof.
  intros Hn Hc. pose proof (turn_bounds c Hc) as HQ.
  set (Q := (360 * 2 ^ (- c))%Z) in *.
  pose proof (Z.mod_pos_bound n Q ltac:(lia)) as HM.
  rewrite normalize_eq, (rem360_dyadic n c Hn Hc). fold Q.
  split; [reflexivity|]. split.
  - destruct (dyadic 0 c <? dyadic (n mod Q) c)%float eqn:L.
    + rewrite dyadic_zero in L. now apply ltb_leb.
    + destruct (Z.eq_dec (n mod Q) 0) as [->|N]; [now rewrite dyadic_zero|].
      rewrite ltb_dyadic in L by lia. apply Z.ltb_ge in L. lia.
  - rewrite <- (dyadic_360 c Hc). fold Q.
    rewrite ltb_dyadic by lia. apply Z.ltb_lt. lia.
Qed.

Lemma normalize_dyadic_exact_witness :
  normalize (dyadic (-91) (-1)) = Ok (dyadic 629 (-1)) /\
  dyadic (-91) (-1) = -45.5 /\ dyadic 629 (-1) = 314.5.
Proof.
  split; [|split; reflexivity].
  apply (normalize_dyadic_exact (-91) (-1)); vm_compute; try split; congruence.
Defined.

Lemma opp_dyadic (n c : Z) :
  (n <> 0)%Z -> (Z.abs n < 2 ^ 53)%Z -> (-1074 <= c <= 971)%Z ->
  - dyadic n c = dyadic (- n) c.
Proof.
  intros Nn Hb Hc.
  destruct (dyadic_spec n c Nn Hb Hc) as [m [f [E [V [L P]]]]].
  apply (dyadic_of_value _ (- n) c (negb (n <? 0)%Z) m f f); try lia.
  - rewrite opp_spec, E. reflexivity.
  - rewrite Z.abs_opp, Z.sub_diag. change (2 ^ 0)%Z with 1%Z. lia.
Qed.

Lemma sub_as_add (x y : float) : x - y = - y + x.
Proof.
  apply Prim2SF_inj. rewrite sub_spec, add_spec, opp_spec, SFadd_as_sub.
  now destruct (Prim2SF y) as [[]|[]| |[] m e].
Qed.

(** Differences of small dyadic numbers on a common exponent are exact. *)
Lemma sub_dyadic (a b c : Z) :
  (Z.abs a < 2 ^ 53)%Z -> (Z.abs b < 2 ^ 53)%Z -> (Z.abs (a - b) < 2 ^ 53)%Z ->
  (-1074 <= c <= 971)%Z ->
  dyadic a c - dyadic b c = dyadic (a - b) c.
Proof.
  intros Ha Hb Hab Hc.
  destruct (Z.eq_dec b 0) as [->|Nb].
  { now rewrite dyadic_zero, sub_zero_r, Z.sub_0_r. }
  rewrite sub_as_add, opp_dyadic, add_dyadic by lia.
  f_equal. lia.
Qed.

(** The clockwise distance between two dyadic angles: the floor remainder
    of the difference of the mantissas. *)
Lemma cw_distance_dyadic (a b c : Z) :
  (Z.abs a < 2 ^ 53)%Z -> (Z.abs b < 2 ^ 53)%Z -> (-44 <= c <= 0)%Z ->
  rem360 (rem360 (dyadic a c) - rem360 (dyadic b c))
  = dyadic ((a - b) mod (360 * 2 ^ (- c))) c.
Proof.
  intros Ha Hb Hc. pose proof (turn_bounds c Hc) as HQ.
  rewrite !rem360_dyadic by assumption.
  set (Q := (360 * 2 ^ (- c))%Z) in *.
  pose proof (Z.mod_pos_bound a Q ltac:(lia)) as Ma.
  pose proof (Z.mod_pos_bound b Q ltac:(lia)) as Mb.
  rewrite sub_dyadic, rem360_dyadic by lia. fold Q.
  f_equal. symmetry. apply Zminus_mod.
Qed.

(** A positive multiple of [2^c], [c >= -9], is not below [0.001]. *)
Lemma dyadic_above_threshold (n c : Z) :
  (0 < n < 2 ^ 53)%Z -> (-9 <= c <= 0)%Z -> (dyadic n c <? 0.001) = false.
Proof.
  intros Hn Hc.
  destruct (dyadic_spec n c ltac:(lia) ltac:(lia) ltac:(lia)) as [m [f [E [V [L P]]]]].
  replace (n <? 0)%Z with false in E by (symmetry; apply Z.ltb_ge; lia).
  apply leb_ltb_false. rewrite leb_spec, E.
  change (Prim2SF 0.001) with (S754_finite false 4611686018427388 (-62)).
  apply (canonical_compare_le _ _ _ _ (Z.min (-62) f)); try lia;
    [reflexivity|exact V|].
  rewrite P, Z.abs_eq, <- Z.mul_assoc, <- pow2_split by lia.
  replace (c - f + (f - Z.min (-62) f))%Z with (c - Z.min (-62) f)%Z by lia.
  set (k := (-62 - Z.min (-62) f)%Z).
  replace (c - Z.min (-62) f)%Z with ((c + 62) + k)%Z by (unfold k; lia).
  rewrite pow2_split by (unfold k; lia).
  assert (0 < 2 ^ k)%Z by (apply Z.pow_pos_nonneg; unfold k; lia).
  assert (2 ^ 53 <= 2 ^ (c + 62))%Z by (apply Z.pow_le_mono_r; lia).
  change (2 ^ 53)%Z with 9007199254740992%Z in *.
  assert (4611686018427388 <= n * 2 ^ (c + 62))%Z by nia.
  rewrite Z.mul_assoc. apply Z.mul_le_mono_nonneg_r; lia.
Qed.

(** X5.  Calibration angles and an input angle that are multiples of [2^c],
    [-9 <= c <= 0] (whole degrees for [c = 0]).  The two clockwise distances
    are computed without rounding: they are the floor remainders
    [(a - b) mod Q] and [(a - t) mod Q] of the integer mantissas, [Q] being
    360 in units of [2^c]; the degeneracy guard fires exactly when the two
    calibration angles are congruent modulo 360. *)
Theorem value_from_exact_distances
    (self : GaugeReader) (a b t c : Z) :
  min_angle self = dyadic a c -> max_angle self = dyadic b c ->
  (Z.abs a < 2 ^ 53)%Z -> (Z.abs b < 2 ^ 53)%Z -> (Z.abs t < 2 ^ 53)%Z ->
  (-9 <= c <= 0)%Z ->
  angle_to_value self (dyadic t c)
  = Ok (if ((a - b) mod (360 * 2 ^ (- c)) =? 0)%Z then min_value self
        else min_value self
             + clamp01 (dyadic ((a - t) mod (360 * 2 ^ (- c))) c
                        / dyadic ((a - b) mod (360 * 2 ^ (- c))) c)
               * (max_value self - min_value self)).
Proof.
  intros Ea Eb Ha Hb Ht Hc.
  pose proof (turn_bounds c ltac:(lia)) as HQ.
  rewrite gauge_value_ok. unfold gauge_value, cw_sweep_of, cw_needle_of.
  rewrite Ea, Eb, !cw_distance_dyadic by lia.
  set (Q := (360 * 2 ^ (- c))%Z) in *.
  pose proof (Z.mod_pos_bound (a - b) Q ltac:(lia)) as Ms.
  destruct (Z.eqb_spec ((a - b) mod Q) 0) as [->|N].
  - now rewrite dyadic_zero.
  - now rewrite dyadic_above_threshold by lia.
Qed.

Lemma value_from_exact_distances_witness :
  225 = dyadic 225 0 /\ -45 = dyadic (-45) 0 /\ 90 = dyadic 90 0 /\
  angle_to_value (calibration 0 10 225 (-45)) (dyadic 90 0)
  = Ok (0 + clamp01 (dyadic 135 0 / dyadic 270 0) * (10 - 0)).
Proof.
  split; [reflexivity|]. split; [reflexivity|]. split; [reflexivity|].
  apply (value_from_exact_distances (calibration 0 10 225 (-45)) 225 (-45) 90 0);
    try reflexivity; vm_compute; try split; congruence.
Defined.

(** X6.  Periodicity in the input angle.  For an input angle [t * 2^c] with
    [-44 <= c <= 0] and whole turns [360 * k] whose sum with it is exact,
    [angle_to_value(theta + 360 * k)] is [angle_to_value(theta)], for every
    calibration. *)
Theorem input_angle_periodic_dyadic
    (self : GaugeReader) (t c k : Z) :
  (-44 <= c <= 0)%Z ->
  (Z.abs t + 360 * 2 ^ (- c) * Z.abs k < 2 ^ 53)%Z ->
  angle_to_value self (dyadic t c + of_int (360 * k))
  = angle_to_value self (dyadic t c).
Proof.
  intros Hc Hb.
  rewrite !gauge_value_ok. unfold gauge_value, cw_needle_of.
  now rewrite rem360_shift_dyadic.
Qed.

Lemma input_angle_periodic_dyadic_witness :
  angle_to_value (calibration 0 10 225 (-45)) (dyadic 181 (-1) + of_int (360 * -3))
  = angle_to_value (calibration 0 10 225 (-45)) (dyadic 181 (-1)) /\
  dyadic 181 (-1) = 90.5 /\ of_int (360 * -3) = -1080.
Proof.
  split; [|split; reflexivity].
  apply (input_angle_periodic_dyadic (calibration 0 10 225 (-45)) 181 (-1) (-3));
    vm_compute; try split; congruence.
Defined.

(** ** Detections with NaN in them *)

Lemma is_nan_eq (x : float) : is_nan x = true -> x = nan.
Proof.
  intros H. apply is_nan_spec in H. apply Prim2SF_inj. now rewrite H.
Qed.

Lemma nan_ltb (x y : float) : is_nan x = true -> (x <? y) = false.
Proof. intros H. now rewrite (is_nan_eq _ H), ltb_spec. Qed.

Lemma nan_leb_r (x y : float) : is_nan y = true -> (x <=? y) = false.
Proof.
  intros H. rewrite (is_nan_eq _ H), leb_spec. change (Prim2SF nan) with S754_nan.
  unfold SFleb. now destruct (Prim2SF x).
Qed.

(** [math.atan2] of a NaN raises nothing and is NaN, whatever libm is. *)
Lemma compute_angle_nan (libm : float -> float -> float) (c t : float * float) :
  is_nan (fst c) || is_nan (snd c) || is_nan (fst t) || is_nan (snd t) = true ->
  compute_angle libm c t = Ok nan.
Proof.
  intros H. unfold compute_angle.
  assert (N : is_nan (fst t - fst c) = true \/ is_nan (- (snd t - snd c)) = true).
  { apply orb_true_iff in H. destruct H as [H|H]; [|right].
    - apply orb_true_iff in H. destruct H as [H|H]; [|left].
      + apply orb_true_iff in H. destruct H as [H|H]; [left|right];
          now rewrite (is_nan_eq _ H), sub_nan_r.
      + now rewrite (is_nan_eq _ H), sub_nan_l.
    - now rewrite (is_nan_eq _ H), sub_nan_l. }
  unfold math.atan2, math.m_atan2.
  destruct N as [N|N]; rewrite N; cbn [orb negb andb];
    rewrite ?orb_true_r, ?andb_false_r; reflexivity.
Qed.

Section ReadingEdges.

Variable libm_atan2 : float -> float -> float.
Variable py_round : float -> Z -> float.

(** What [read_gauge] does with a detection whose two confidences do not
    compare below [0.3]. *)
Lemma read_detection_kept (self : GaugeReader) (det : detection)
    (kp0 kp1 : keypoint) (rest : list keypoint) :
  keypoints det = kp0 :: kp1 :: rest ->
  (snd kp0 <? 0.3) = false -> (snd kp1 <? 0.3) = false ->
  read_detection libm_atan2 py_round self det
  = (angle <- compute_angle libm_atan2 (fst (fst kp0), snd (fst kp0))
                                       (fst (fst kp1), snd (fst kp1)) ;;
     Ok (Some {| r_value := py_round (gauge_value self angle) 3;
                 r_angle := py_round angle 2;
                 r_unit := unit self;
                 r_bbox := bbox det;
                 r_center := (fst (fst kp0), snd (fst kp0));
                 r_needle_tip := (fst (fst kp1), snd (fst kp1));
                 r_confidence := det_conf det;
                 r_kp_center_conf := snd kp0;
                 r_kp_needle_conf := snd kp1 |})).
Proof.
  intros K C0 C1. unfold read_detection. rewrite K.
  cbn [List.length Nat.ltb Nat.leb index nth_error bind].
  rewrite C0, C1. cbn [orb].
  destruct (compute_angle libm_atan2 _ _) as [angle|e]; [|reflexivity].
  cbn [bind]. now rewrite gauge_value_ok.
Qed.

(** X7.  The confidence filter is the test [conf < 0.3], not [conf >= 0.3]:
    a detection with a NaN keypoint confidence is kept, and its reading
    carries the NaN, although neither confidence of it is at least [0.3]
    in the sense of [>=]. *)
Theorem nan_confidence_is_kept (self : GaugeReader) (det : detection)
    (kp0 kp1 : keypoint) (rest : list keypoint) :
  libm_finite libm_atan2 ->
  keypoints det = kp0 :: kp1 :: rest ->
  is_nan (snd kp0) = true ->
  is_nan (snd kp1) = true \/ (0.3 <=? snd kp1) = true ->
  passes det = false /\
  exists r, read_detection libm_atan2 py_round self det = Ok (Some r) /\
            r_kp_center_conf r = snd kp0 /\ is_nan (r_kp_center_conf r) = true.
Proof.
  intros Hl K N0 H1. split.
  - unfold passes. rewrite K. now rewrite (nan_leb_r _ _ N0).
  - assert (C1 : (snd kp1 <? 0.3) = false)
      by (destruct H1 as [N1|L1]; [now apply nan_ltb|now apply leb_ltb_false]).
    rewrite (read_detection_kept self det kp0 kp1 rest K (nan_ltb _ _ N0) C1).
    rewrite (compute_angle_returns _ Hl). cbn [bind].
    eexists. split; [reflexivity|]. cbn [r_kp_center_conf]. now split.
Qed.

(** X8.  A detection whose confidences pass and one of whose four keypoint
    coordinates is NaN.  Nothing is raised and nothing is skipped: the
    angle is NaN and, on a calibration that is not degenerate, the value is
    the full-scale one (rounded to three places). *)
Theorem nan_coordinate_reads_full_scale (self : GaugeReader) (det : detection)
    (kp0 kp1 : keypoint) (rest : list keypoint) :
  keypoints det = kp0 :: kp1 :: rest ->
  (snd kp0 <? 0.3) = false -> (snd kp1 <? 0.3) = false ->
  is_nan (fst (fst kp0)) || is_nan (snd (fst kp0))
  || is_nan (fst (fst kp1)) || is_nan (snd (fst kp1)) = true ->
  (cw_sweep_of self <? 0.001) = false ->
  exists r, read_detection libm_atan2 py_round self det = Ok (Some r) /\
            r_angle r = py_round nan 2 /\
            r_value r
            = py_round (min_value self + (max_value self - min_value self)) 3.
Proof.
  intros K C0 C1 N S.
  rewrite (read_detection_kept self det kp0 kp1 rest K C0 C1).
  rewrite (compute_angle_nan libm_atan2 (fst (fst kp0), snd (fst kp0))
             (fst (fst kp1), snd (fst kp1)) N). cbn [bind].
  eexists. split; [reflexivity|]. cbn [r_angle r_value]. split; [reflexivity|].
  f_equal. unfold gauge_value.
  rewrite S, (cw_needle_not_finite self nan ltac:(reflexivity)), div_nan_l.
  change (clamp01 nan) with 1. now rewrite mul_1_l.
Qed.

End ReadingEdges.

Lemma nan_confidence_is_kept_witness :
  libm_finite atan2_quadrant /\
  passes (detected [(320, 240, nan); (320, 180, 0.8)]) = false /\
  exists r,
    read_detection atan2_quadrant round_identity (calibration 0 10 225 (-45))
                   (detected [(320, 240, nan); (320, 180, 0.8)]) = Ok (Some r) /\
    r_kp_center_conf r = nan /\ is_nan (r_kp_center_conf r) = true.
Proof.
  split; [exact atan2_quadrant_finite|].
  apply (nan_confidence_is_kept atan2_quadrant round_identity
           (calibration 0 10 225 (-45))
           (detected [(320, 240, nan); (320, 180, 0.8)])
           (320, 240, nan) (320, 180, 0.8) [] atan2_quadrant_finite);
    [reflexivity|reflexivity|right; reflexivity].
Defined.

Lemma nan_coordinate_reads_full_scale_witness :
  exists r,
    read_detection atan2_quadrant round_identity (calibration 0 10 225 (-45))
                   (detected [(320, 240, 0.9); (nan, 180, 0.8)]) = Ok (Some r) /\
    r_angle r = round_identity nan 2 /\
    r_value r = round_identity (0 + (10 - 0)) 3.
Proof.
  apply (nan_coordinate_reads_full_scale atan2_quadrant round_identity
           (calibration 0 10 225 (-45))
           (detected [(320, 240, 0.9); (nan, 180, 0.8)])
           (320, 240, 0.9) (nan, 180, 0.8) []); reflexivity.
Defined.

(** ** [detect_gauge] *)

Lemma index_nth {A : Type} (l : list A) (i : nat) (d : A) :
  (i < List.length l)%nat -> index l i = Ok (nth i l d).
Proof.
  intros H. unfold index. now rewrite (nth_error_nth' l d H).
Qed.

Lemma keypoint_of_row (kp : list float) :
  (3 <= List.length kp)%nat -> keypoint_of kp = Ok (keypoint_row kp).
Proof.
  intros H. unfold keypoint_of, keypoint_row.
  rewrite (index_nth kp 0 0), (index_nth kp 1 0), (index_nth kp 2 0) by lia.
  reflexivity.
Qed.

Lemma comprehension_map {A B : Type} (f : A -> result B) (g : A -> B) (l : list A) :
  Forall (fun x => f x = Ok (g x)) l -> comprehension f l = Ok (map g l).
Proof.
  induction 1 as [|x rest H _ IH]; [reflexivity|].
  cbn [comprehension map]. now rewrite H, IH.
Qed.

Lemma detections_of_boxes_shaped (boxes : list (list float)) (confs : list float)
    (keypoints_data : list (list (list float))) (indices : list nat) :
  Forall (fun i => (i < List.length boxes)%nat /\
                   (i < List.length confs)%nat /\
                   (i < List.length keypoints_data)%nat /\
                   Forall (fun kp : list float => (3 <= List.length kp)%nat)
                          (nth i keypoints_data [])) indices ->
  forall detections,
    detections_of_boxes boxes confs keypoints_data indices detections
    = Ok (detections ++
          map (fun i => {| bbox := nth i boxes [];
                           keypoints := map keypoint_row (nth i keypoints_data []);
                           det_conf := nth i confs 0 |}) indices).
Proof.
  induction 1 as [|i rest [Hb [Hc [Hk Hr]]] _ IH]; intros detections;
    cbn [detections_of_boxes map].
  - now rewrite app_nil_r.
  - unfold detection_at.
    rewrite (index_nth keypoints_data i []), (index_nth boxes i []),
      (index_nth confs i 0) by assumption.
    cbn [bind].
    rewrite (comprehension_map keypoint_of keypoint_row).
    + cbn [bind]. rewrite IH, <- app_assoc. reflexivity.
    + apply Forall_impl with (2 := Hr). intros kp. apply keypoint_of_row.
Qed.

Lemma detections_of_results_shaped (results : list ultralytics.Results) :
  Forall shaped results ->
  forall detections,
    detections_of_results results detections
    = Ok (detections ++ flat_map detections_in results).
Proof.
  induction 1 as [|result rest S _ IH]; intros detections;
    cbn [detections_of_results flat_map].
  - now rewrite app_nil_r.
  - unfold shaped in S. unfold detections_in.
    destruct (ultralytics.keypoints result) as [k|];
      [destruct (ultralytics.boxes result) as [b|]|]; try apply IH.
    cbv zeta in S |- *. destruct S as [Sk [Sc Sr]].
    rewrite detections_of_boxes_shaped.
    + cbn [bind]. now rewrite IH, <- app_assoc.
    + apply Forall_forall. intros i Hi. apply in_seq in Hi.
      repeat split; try lia.
      rewrite Forall_forall in Sr. apply Sr.
      assert (E : nth i (firstn (List.length (ultralytics.xyxy b))
                                (ultralytics.data k)) []
                  = nth i (ultralytics.data k) []).
      { rewrite nth_firstn.
        destruct (Nat.ltb_spec i (List.length (ultralytics.xyxy b)));
          [reflexivity|lia]. }
      rewrite <- E. apply nth_In. rewrite length_firstn. lia.
Qed.

(** The number of readings never exceeds the number of detections. *)
Lemma read_detections_length (libm : float -> float -> float)
    (py_round : float -> Z -> float) (self : GaugeReader) (dets : list detection) :
  forall readings rs,
    read_detections libm py_round self dets readings = Ok rs ->
    (List.length rs <= List.length readings + List.length dets)%nat.
Proof.
  induction dets as [|det rest IH]; intros readings rs; cbn [read_detections].
  - intros E. injection E as <-. cbn [List.length]. lia.
  - destruct (read_detection libm py_round self det) as [[r|]|e]; cbn [bind];
      [| |discriminate]; intros E; apply IH in E; cbn [List.length];
      rewrite ?length_app in E; cbn [List.length] in E; lia.
Qed.

Section DetectGauge.

Variable libm_atan2 : float -> float -> float.
Variable py_round : float -> Z -> float.
Variable frame : Type.
Variable model : frame -> float -> list ultralytics.Results.

(** X9.  [detect_gauge] on a model output whose arrays fit together.  It
    raises nothing and returns one detection per box, in the order of the
    results and of their boxes, each with the row of its box, its
    confidence and its keypoint rows as [(x, y, conf)]; a result whose
    [keypoints] or [boxes] is [None] adds nothing. *)
Theorem detect_gauge_one_detection_per_box (self : GaugeReader) (frame_ : frame) :
  Forall shaped (model frame_ (confidence self)) ->
  detect_gauge frame model self frame_
  = Ok (flat_map detections_in (model frame_ (confidence self))) /\
  List.length (flat_map detections_in (model frame_ (confidence self)))
  = list_sum (map (fun result =>
                     match ultralytics.keypoints result, ultralytics.boxes result with
                     | Some _, Some boxes_ => List.length (ultralytics.xyxy boxes_)
                     | _, _ => 0%nat
                     end) (model frame_ (confidence self))).
Proof.
  intros S. split.
  - unfold detect_gauge. now rewrite detections_of_results_shaped.
  - clear S. induction (model frame_ (confidence self)) as [|result rest IH];
      [reflexivity|].
    cbn [flat_map map list_sum]. rewrite length_app, IH. f_equal.
    unfold detections_in.
    destruct (ultralytics.keypoints result), (ultralytics.boxes result);
      try reflexivity.
    now rewrite length_map, length_seq.
Qed.

(** X10.  [read_gauge] on top of [detect_gauge].  On a model output whose
    arrays fit together, and with a libm whose [atan2] is finite on finite
    arguments, the whole of [read_gauge] raises nothing; it is [read_gauge]
    over the detections listed box by box, and it returns at most one
    reading per box. *)
Theorem read_gauge_frame_on_shaped_results (self : GaugeReader) (frame_ : frame) :
  libm_finite libm_atan2 ->
  Forall shaped (model frame_ (confidence self)) ->
  read_gauge_frame libm_atan2 py_round frame model self frame_
  = read_gauge libm_atan2 py_round frame
      (fun self_ f => flat_map detections_in (model f (confidence self_)))
      self frame_ /\
  exists readings,
    read_gauge_frame libm_atan2 py_round frame model self frame_ = Ok readings /\
    (List.length readings
     <= List.length (flat_map detections_in (model frame_ (confidence self))))%nat.
Proof.
  intros Hl S.
  assert (E : read_gauge_frame libm_atan2 py_round frame model self frame_
              = read_detections libm_atan2 py_round self
                  (flat_map detections_in (model frame_ (confidence self))) []).
  { unfold read_gauge_frame, detect_gauge.
    now rewrite detections_of_results_shaped. }
  split; [exact E|].
  rewrite E.
  destruct (read_detections_returns libm_atan2 py_round Hl self
              (flat_map detections_in (model frame_ (confidence self))) [])
    as [rs R].
  exists rs. split; [exact R|].
  apply read_detections_length in R. cbn [List.length] in R. lia.
Qed.

End DetectGauge.

Lemma two_boxes_shaped (frame_ : list float) (conf : float) :
  Forall shaped (two_boxes frame_ conf).
Proof.
  repeat constructor; cbn [List.length]; lia.
Qed.

Lemma detect_gauge_one_detection_per_box_witness :
  Forall shaped (two_boxes [] 0.5) /\
  detect_gauge (list float) two_boxes (calibration 0 10 225 (-45)) []
  = Ok [ {| bbox := [10; 10; 200; 200];
            keypoints := [(320, 240, 0.9); (320, 180, 0.8)];
            det_conf := 0.9 |};
         {| bbox := [50; 50; 90; 90];
            keypoints := [(100, 100, 0.2); (150, 100, 0.9)];
            det_conf := 0.6 |} ].
Proof.
  split; [apply two_boxes_shaped|].
  exact (proj1 (detect_gauge_one_detection_per_box (list float) two_boxes
                  (calibration 0 10 225 (-45)) [] (two_boxes_shaped [] 0.5))).
Defined.

Lemma read_gauge_frame_on_shaped_results_witness :
  libm_finite atan2_quadrant /\ Forall shaped (two_boxes [] 0.5) /\
  exists readings,
    read_gauge_frame atan2_quadrant round_identity (list float) two_boxes
                     (calibration 0 10 225 (-45)) [] = Ok readings /\
    (List.length readings <= 2)%nat.
Proof.
  split; [exact atan2_quadrant_finite|]. split; [apply two_boxes_shaped|].
  exact (proj2 (read_gauge_frame_on_shaped_results atan2_quadrant round_identity
                  (list float) two_boxes (calibration 0 10 225 (-45)) []
                  atan2_quadrant_finite (two_boxes_shaped [] 0.5))).
Defined.

(** ** [draw_result] *)

Lemma returns_Ok {A : Type} (a : A) : returns (Ok a).
Proof. now exists a. Qed.

Lemma returns_Raise {A : Type} (e : exn) : ~ returns (@Raise A e).
Proof. intros [a H]. discriminate. Qed.


(** [int(x)] returns on the finite numbers and on them only. *)
Lemma int_cases (x : float) :
  (is_finite x = true /\ exists z, builtins.int x = Ok z) \/
  (is_finite x = false /\ exists e, builtins.int x = Raise e).
Proof.
  unfold builtins.int.
  destruct (Prim2SF x) as [s|s| |s m e] eqn:E.
  - left. split; [|eauto]. apply is_finite_spec. eauto.
  - right. split; [|eauto].
    destruct (is_finite x) eqn:F; [|reflexivity].
    apply is_finite_spec in F. destruct F as [[z F]|[z [m [e F]]]]; congruence.
  - right. split; [|eauto].
    destruct (is_finite x) eqn:F; [|reflexivity].
    apply is_finite_spec in F. destruct F as [[z F]|[z [m [e F]]]]; congruence.
  - left. split; [|eauto]. apply is_finite_spec. eauto 6.
Qed.

Ltac int_case x :=
  let z := fresh "z" in let e := fresh "e" in
  let F := fresh "F" in let E := fresh "E" in
  destruct (int_cases x) as [[F [z E]]|[F [e E]]]; rewrite ?E, ?F;
  cbn [bind andb];
  [|try (split; [intros R; now apply returns_Raise in R|discriminate])].

Lemma unpack4_int_returns (bbox : list float) :
  returns (builtins.unpack4_int bbox) <-> finite_box bbox = true.
Proof.
  unfold builtins.unpack4_int, finite_box.
  assert (Short : forall l : list float,
            ~ returns (_ <- comprehension builtins.int l ;;
                       @Raise (Z * Z * Z * Z) ValueError)).
  { intros l R. destruct (comprehension builtins.int l); cbn [bind] in R;
      now apply returns_Raise in R. }
  destruct bbox as [|a [|b [|c [|d [|e rest]]]]];
    try (split; [intros R; now apply Short in R|discriminate]).
  - int_case a. int_case b. int_case c. int_case d.
    split; [reflexivity|intros _; apply returns_Ok].
  - split; [|discriminate]. intros R. exfalso. revert R.
    destruct (builtins.int a); cbn [bind]; [|apply returns_Raise].
    destruct (builtins.int b); cbn [bind]; [|apply returns_Raise].
    destruct (builtins.int c); cbn [bind]; [|apply returns_Raise].
    destruct (builtins.int d); cbn [bind]; [|apply returns_Raise].
    destruct (builtins.int e); cbn [bind]; apply returns_Raise.
Qed.

Section DrawResult.

Variable format : float -> string -> string.
Variable getTextSize : string -> float -> Z -> Z * Z.

Lemma draw_reading_returns (reading_ : reading)
    (show_keypoints show_angle show_bbox : bool) :
  returns (draw_reading format getTextSize reading_
                        show_keypoints show_angle show_bbox)
  <-> drawable reading_ = true.
Proof.
  unfold draw_reading, drawable.
  int_case (fst (r_center reading_)).
  int_case (snd (r_center reading_)).
  int_case (fst (r_needle_tip reading_)).
  int_case (snd (r_needle_tip reading_)).
  rewrite <- unpack4_int_returns.
  destruct (builtins.unpack4_int (r_bbox reading_)) as [[[[x1 y1] x2] y2]|e];
    cbn [bind]; split; intros R; try apply returns_Ok;
    now apply returns_Raise in R.
Qed.

Lemma draw_reading_length (reading_ : reading)
    (show_keypoints show_angle show_bbox : bool) (calls : list cv2.call) :
  draw_reading format getTextSize reading_ show_keypoints show_angle show_bbox
  = Ok calls ->
  List.length calls = calls_per_reading show_keypoints show_angle show_bbox.
Proof.
  unfold draw_reading, calls_per_reading.
  destruct (builtins.int (fst (r_center reading_))); cbn [bind]; [|discriminate].
  destruct (builtins.int (snd (r_center reading_))); cbn [bind]; [|discriminate].
  destruct (builtins.int (fst (r_needle_tip reading_))); cbn [bind]; [|discriminate].
  destruct (builtins.int (snd (r_needle_tip reading_))); cbn [bind]; [|discriminate].
  destruct (builtins.unpack4_int (r_bbox reading_)) as [[[[x1 y1] x2] y2]|e];
    cbn [bind]; [|discriminate].
  intros E. injection E as <-.
  now destruct show_keypoints, show_angle, show_bbox.
Qed.

Lemma draw_readings_returns (readings : list reading)
    (show_keypoints show_angle show_bbox : bool) :
  forall annotated,
    returns (draw_readings format getTextSize readings
                           show_keypoints show_angle show_bbox annotated)
    <-> forallb drawable readings = true.
Proof.
  induction readings as [|r rest IH]; intros annotated;
    cbn [draw_readings forallb].
  - split; [reflexivity|intros _; apply returns_Ok].
  - pose proof (draw_reading_returns r show_keypoints show_angle show_bbox) as D.
    destruct (draw_reading format getTextSize r show_keypoints show_angle show_bbox)
      as [calls|e]; cbn [bind].
    + rewrite (proj1 D (returns_Ok _)). cbn [andb]. apply IH.
    + destruct (drawable r).
      * exfalso. apply (@returns_Raise (list cv2.call) e). now apply D.
      * cbn [andb]. split; [intros R; now apply returns_Raise in R|discriminate].
Qed.

Lemma draw_readings_length (readings : list reading)
    (show_keypoints show_angle show_bbox : bool) :
  forall annotated calls,
    draw_readings format getTextSize readings
                  show_keypoints show_angle show_bbox annotated = Ok calls ->
    List.length calls
    = (List.length annotated
       + List.length readings
         * calls_per_reading show_keypoints show_angle show_bbox)%nat.
Proof.
  induction readings as [|r rest IH]; intros annotated calls;
    cbn [draw_readings List.length].
  - intros E. injection E as <-. lia.
  - destruct (draw_reading format getTextSize r show_keypoints show_angle show_bbox)
      as [cs|e] eqn:D; cbn [bind]; [|discriminate].
    intros E. apply IH in E. apply draw_reading_length in D.
    rewrite length_app in E. lia.
Qed.

(** X11.  When [draw_result] raises.  Its own conversions ([int] on the
    center and tip coordinates, the unpacking of [map(int, bbox)]) succeed
    for all readings exactly when every reading has a finite center and tip
    and a box of four finite numbers; then the calls it makes on the copy
    of the frame are a fixed number per reading, two of them (the text box
    and the value text) whatever the three flags are. *)
Theorem draw_result_returns_iff_drawable (readings : list reading)
    (show_keypoints show_angle show_bbox : bool) :
  (returns (draw_result format getTextSize readings
                        show_keypoints show_angle show_bbox)
   <-> forallb drawable readings = true) /\
  (forall calls,
     draw_result format getTextSize readings show_keypoints show_angle show_bbox
     = Ok calls ->
     List.length calls
     = (List.length readings
        * calls_per_reading show_keypoints show_angle show_bbox)%nat) /\
  (2 <= calls_per_reading show_keypoints show_angle show_bbox)%nat.
Proof.
  repeat split.
  - apply draw_readings_returns.
  - apply draw_readings_returns.
  - intros calls E. apply draw_readings_length in E. exact E.
  - unfold calls_per_reading. lia.
Qed.

End DrawResult.

(** ** [read_gauge] followed by [draw_result] *)

Section ReadThenDraw.

Variable libm_atan2 : float -> float -> float.
Variable py_round : float -> Z -> float.
Variable format : float -> string -> string.
Variable getTextSize : string -> float -> Z -> Z * Z.

(** Where the fields of a reading come from. *)
Lemma read_detection_some (self : GaugeReader) (det : detection) (r : reading) :
  read_detection libm_atan2 py_round self det = Ok (Some r) ->
  exists kp0 kp1 rest,
    keypoints det = kp0 :: kp1 :: rest /\
    r_bbox r = bbox det /\
    r_center r = (fst (fst kp0), snd (fst kp0)) /\
    r_needle_tip r = (fst (fst kp1), snd (fst kp1)).
Proof.
  unfold read_detection.
  destruct (keypoints det) as [|kp0 [|kp1 rest]]; try discriminate.
  cbn [List.length Nat.ltb Nat.leb index nth_error bind].
  destruct (_ || _); [discriminate|].
  destruct (compute_angle libm_atan2 _ _) as [angle|e]; cbn [bind]; [|discriminate].
  destruct (angle_to_value self angle) as [value|e]; cbn [bind]; [|discriminate].
  intros E. injection E as <-. exists kp0, kp1, rest. repeat split.
Qed.

Lemma finite_detection_drawable (self : GaugeReader) (det : detection) (r : reading) :
  read_detection libm_atan2 py_round self det = Ok (Some r) ->
  drawable r = finite_detection det.
Proof.
  intros E. destruct (read_detection_some _ _ _ E) as [kp0 [kp1 [rest [K [B [C T]]]]]].
  unfold drawable, finite_detection. rewrite K, B, C, T. cbn [fst snd].
  apply andb_comm.
Qed.

Lemma read_detections_drawable (self : GaugeReader) (dets : list detection) :
  forallb finite_detection dets = true ->
  forall readings rs,
    forallb drawable readings = true ->
    read_detections libm_atan2 py_round self dets readings = Ok rs ->
    forallb drawable rs = true.
Proof.
  induction dets as [|det rest IH]; cbn [forallb read_detections];
    intros F readings rs D.
  - intros E. now injection E as <-.
  - apply andb_true_iff in F. destruct F as [Fd Fr].
    destruct (read_detection libm_atan2 py_round self det) as [[r|]|e] eqn:R;
      cbn [bind]; [| |discriminate]; apply (IH Fr); [|exact D].
    rewrite forallb_app, D. cbn [forallb andb].
    now rewrite (finite_detection_drawable _ _ _ R), Fd.
Qed.


(** X12.  The readings of finite detections can be drawn.  When every
    detection has a box of four finite numbers and finite coordinates in
    its first two keypoints, the conversions of [draw_result] succeed on
    whatever [read_gauge] returns for them. *)
Theorem readings_of_finite_detections_are_drawn
    (self : GaugeReader) (dets : list detection) (rs : list reading)
    (show_keypoints show_angle show_bbox : bool) :
  forallb finite_detection dets = true ->
  read_detections libm_atan2 py_round self dets [] = Ok rs ->
  returns (draw_result format getTextSize rs show_keypoints show_angle show_bbox).
Proof.
  intros F E. apply draw_readings_returns.
  now apply (read_detections_drawable self dets F [] rs).
Qed.


End ReadThenDraw.

Lemma readings_of_finite_detections_are_drawn_witness :
  forallb finite_detection
    [detected [(320, 240, 0.9); (320, 180, 0.8)]; detected [(1, 2, 0.9)]] = true /\
  returns
    (draw_result format_stub text_size_stub
       [reading_of atan2_quadrant round_identity (calibration 0 10 225 (-45))
          (detected [(320, 240, 0.9); (320, 180, 0.8)])]
       true true true).
Proof.
  split; [reflexivity|].
  apply (readings_of_finite_detections_are_drawn atan2_quadrant round_identity
           format_stub text_size_stub (calibration 0 10 225 (-45))
           [detected [(320, 240, 0.9); (320, 180, 0.8)]; detected [(1, 2, 0.9)]]);
    reflexivity.
Defined.


(** ** [__init__] *)

(** A scale that starts at [0]: every value lies on it. *)
Lemma value_on_scale_from_zero (self : GaugeReader) (theta : float) :
  min_value self = 0 ->
  (0 <=? max_value self) = true -> is_finite (max_value self) = true ->
  exists v, angle_to_value self theta = Ok v /\
            within 0 (max_value self) v = true.
Proof.
  intros Z L F. rewrite gauge_value_ok. unfold gauge_value. rewrite Z, sub_zero_r.
  set (f := clamp01 (cw_needle_of self theta / cw_sweep_of self)).
  pose proof (clamp01_range (cw_needle_of self theta / cw_sweep_of self)) as Hf.
  fold f in Hf.
  destruct (cw_sweep_of self <? 0.001).
  - exists 0. split; [reflexivity|]. unfold within. now rewrite L.
  - eexists. split; [reflexivity|]. unfold within. apply andb_true_iff. split.
    + apply (add_nonneg_ge 0); [reflexivity|].
      destruct (within_unit_finite _ Hf) as [Ff Pf].
      now apply mul_nonneg.
    + apply zero_add_le. now apply mul_le_unit.
Qed.

(** X14.  A configuration without the key ["min_value"].  [__init__] takes
    [0] for it, and with a [max_value] that is absent (then [10]) or a
    finite number that is not negative, the reader maps every angle to a
    value of [[0, max_value]], without raising. *)
Theorem reader_without_min_value (config : gauge_config) (confidence_ : float) :
  cfg_min_value config = None ->
  match cfg_max_value config with
  | Some m => (0 <=? m) && is_finite m
  | None => true
  end = true ->
  forall theta,
    exists v,
      angle_to_value (__init__ config confidence_) theta = Ok v /\
      within 0 (max_value (__init__ config confidence_)) v = true /\
      (cfg_max_value config = None -> within 0 10 v = true).
Proof.
  intros Hmin Hmax theta.
  assert (Z : min_value (__init__ config confidence_) = 0)
    by (cbn [__init__ min_value]; now rewrite Hmin).
  assert (M : (0 <=? max_value (__init__ config confidence_)) = true /\
              is_finite (max_value (__init__ config confidence_)) = true).
  { cbn [__init__ max_value].
    destruct (cfg_max_value config) as [m|]; cbn [get].
    - now apply andb_true_iff in Hmax.
    - split; reflexivity. }
  destruct (value_on_scale_from_zero _ theta Z (proj1 M) (proj2 M)) as [v [E W]].
  exists v. split; [exact E|]. split; [exact W|].
  intros N. cbn [__init__ max_value] in W. now rewrite N in W.
Qed.

Lemma reader_without_min_value_witness :
  exists v,
    angle_to_value
      (__init__ {| cfg_min_value := None; cfg_max_value := Some 16;
                   cfg_min_angle := Some 220; cfg_max_angle := None;
                   cfg_unit := Some "bar"%string |} 0.5) 355 = Ok v /\
    within 0 16 v = true.
Proof.
  destruct (reader_without_min_value
              {| cfg_min_value := None; cfg_max_value := Some 16;
                 cfg_min_angle := Some 220; cfg_max_angle := None;
                 cfg_unit := Some "bar"%string |} 0.5
              eq_refl eq_refl 355) as [v [E [W _]]].
  exists v. split; [exact E|exact W].
Defined.

(** ** The tolerance test of [run_test] *)

Module Tolerance.

Local Open Scope Z_scope.






End Tolerance.




(** ** The lower clamp *)

Module Sign.

Local Open Scope Z_scope.

Lemma shr_nonneg (mrs : shr_record) (e n : Z) :
  0 <= shr_m mrs -> 0 <= shr_m (fst (shr mrs e n)).
Proof.
  intros H. unfold shr. destruct n as [|p|p]; cbn [fst]; try exact H.
  rewrite iter_shr_1_m by exact H.
  apply Z.div_pos; [exact H|apply Z.pow_pos_nonneg; lia].
Qed.

(** Rounding a mantissa that is not negative gives a zero, a number or an
    infinity of the sign asked for. *)
Lemma binary_round_aux_nonneg (s : bool) (M E : Z) (l : location) :
  0 <= M ->
  binary_round_aux prec emax s M E l = S754_zero s \/
  signed_nonzero s (binary_round_aux prec emax s M E l).
Proof.
  intros HM. unfold binary_round_aux, shr_fexp.
  pose proof (shr_nonneg (shr_record_of_loc M l) E
                (fexp prec emax (Zdigits2 M + E) - E)
                ltac:(rewrite shr_record_of_loc_m; exact HM)) as P1.
  destruct (shr (shr_record_of_loc M l) E _) as [mrs' e']. cbn [fst] in P1.
  pose proof (round_nearest_even_bounds (shr_m mrs') (loc_of_shr_record mrs')) as B.
  set (r := round_nearest_even (shr_m mrs') (loc_of_shr_record mrs')) in *.
  pose proof (shr_nonneg (shr_record_of_loc r loc_Exact) e'
                (fexp prec emax (Zdigits2 r + e') - e')
                ltac:(rewrite shr_record_of_loc_m; lia)) as P2.
  destruct (shr (shr_record_of_loc r loc_Exact) e' _) as [mrs'' e'']. cbn [fst] in P2.
  destruct (shr_m mrs'') as [|q|q]; [now left|right|lia].
  destruct (e'' <=? emax - prec); [right; eauto|now left].
Qed.

(** The quotient of two positive numbers is not negative. *)
Lemma SFdiv_nonneg (ma : positive) (ea : Z) (mb : positive) (eb : Z) :
  SF64div (S754_finite false ma ea) (S754_finite false mb eb) = S754_zero false \/
  signed_nonzero false (SF64div (S754_finite false ma ea) (S754_finite false mb eb)).
Proof.
  unfold SF64div, SFdiv, SFdiv_core_binary. cbv zeta.
  set (s := ea - eb - _).
  set (m' := match s with 0 => Z.pos ma | Z.pos _ => Z.shiftl (Z.pos ma) s
                     | Z.neg _ => 0 end).
  assert (Hm : 0 <= m').
  { unfold m'. destruct s; try lia. apply Z.shiftl_nonneg. lia. }
  pose proof (Z_div_mod m' (Z.pos mb) ltac:(lia)) as DM.
  destruct (Z.div_eucl m' (Z.pos mb)) as [q r]. destruct DM as [DM RB].
  cbn [xorb]. apply binary_round_aux_nonneg. nia.
Qed.

End Sign.

(** On the quotient of a clockwise distance by a sweep that passed the
    guard, [max(0.0, ...)] changes nothing. *)
Lemma clamp01_of_distance (a b : float) :
  Prim2SF a = S754_nan \/ nonneg_shape (Prim2SF a) ->
  (b <? 0.001) = false ->
  clamp01 (a / b) = min2 1 (a / b).
Proof.
  intros Ha Hb.
  assert (Keep : forall f : float,
            Prim2SF f = S754_nan \/ nonneg_shape (Prim2SF f) ->
            clamp01 f = min2 1 f).
  { intros f Hf. unfold clamp01, max2, min2.
    destruct (f <? 1) eqn:L1; [|reflexivity].
    destruct Hf as [N|[Z|P]].
    - rewrite ltb_spec, N in L1. discriminate.
    - assert (f = 0) as -> by (apply Prim2SF_inj; now rewrite Z). reflexivity.
    - rewrite ltb_spec. change (Prim2SF 0) with (S754_zero false).
      now rewrite (signed_pos_gt0 _ P). }
  apply Keep. rewrite div_spec.
  destruct (is_nan b) eqn:Nb.
  { apply is_nan_spec in Nb. rewrite Nb. left. now destruct (Prim2SF a). }
  assert (Tb : (0.001 <=? b) = true).
  { rewrite (ltb_false_leb b 0.001 Nb ltac:(reflexivity)) in Hb.
    now apply negb_false_iff in Hb. }
  destruct Ha as [->|[->|[->|[ma [ea ->]]]]];
    destruct (above_threshold _ Tb) as [->|[mb [eb ->]]];
    try (now left); try (right; left; reflexivity);
    try (right; right; left; reflexivity).
  destruct (Sign.SFdiv_nonneg ma ea mb eb) as [Z|P]; right; [now left|now right].
Qed.

(** X16.  The lower clamp never acts.  For every calibration and every angle
    the fraction [cw_needle / cw_sweep] is NaN or not negative, so
    [max(0.0, min(1.0, fraction))] is [min(1.0, fraction)]: the value never
    saturates at [min_value] from below, only at the full-scale end. *)
Theorem lower_clamp_never_acts (self : GaugeReader) (theta : float) :
  angle_to_value self theta
  = Ok (if cw_sweep_of self <? 0.001 then min_value self
        else min_value self
             + min2 1 (cw_needle_of self theta / cw_sweep_of self)
               * (max_value self - min_value self)).
Proof.
  rewrite gauge_value_ok. unfold gauge_value.
  destruct (cw_sweep_of self <? 0.001) eqn:G; [reflexivity|].
  rewrite clamp01_of_distance; [reflexivity| |exact G].
  unfold cw_needle_of. apply rem360_shape.
Qed.

